(** * Training and validation loops of the intro-to-pytorch notebooks

    A shallow embedding of the code cells of

      - [Part 3 - Training Neural Networks (Exercises).ipynb]
      - [Part 5 - Inference and Validation (Exercises).ipynb]

    Tensors hold real numbers: a [torch.FloatTensor] entry is read as the
    real it denotes, and the rounding of float32 arithmetic is not part of
    the model.  A rank-1 tensor is a [list R], a rank-2 tensor (one row per
    sample of the batch) a [list (list R)].  Calls into torch that can raise
    return a [result]; the loops thread the interpreter state through a
    state-and-exception monad. *)

From Stdlib Require Import Reals Lra Lia List Bool Arith PeanoNat.
Import ListNotations.

Open Scope R_scope.

(** ** Exceptions and results *)

(** The ways a cell can stop.  All but the last are raised by torch or by
    Python.  [NanValue] is not an exception of the source: torch answers
    [nan] for the mean of an empty tensor; the loaders never produce an
    empty batch, and the model stops there instead of computing with a
    number that is not a real. *)
Inductive exn : Type :=
| SizeMismatch        (* RuntimeError: size mismatch / invalid shape *)
| TargetOutOfBounds   (* IndexError / RuntimeError: target out of bounds *)
| MeanNotImplemented  (* RuntimeError: mean is not implemented for type torch.ByteTensor *)
| NoGradFn            (* RuntimeError: element 0 of tensors does not require grad *)
| ZeroDivisionError   (* Python: division by zero *)
| NameError           (* Python: name is not defined *)
| NanValue.

Inductive result (A : Type) : Type :=
| Ok (a : A)
| Raise (e : exn).

Arguments Ok {A} a.
Arguments Raise {A} e.

Definition rbind {A B} (r : result A) (k : A -> result B) : result B :=
  match r with
  | Ok a => k a
  | Raise e => Raise e
  end.

Fixpoint rmap {A B} (f : A -> result B) (l : list A) : result (list B) :=
  match l with
  | [] => Ok []
  | a :: l' => rbind (f a) (fun b => rbind (rmap f l') (fun bs => Ok (b :: bs)))
  end.

Definition of_option {A} (e : exn) (o : option A) : result A :=
  match o with
  | Some a => Ok a
  | None => Raise e
  end.

(** ** Tensor operations *)

Definition Rsum (l : list R) : R := fold_right Rplus 0 l.

Definition dot (u v : list R) : R :=
  Rsum (map (fun p => fst p * snd p) (combine u v)).

(** An image is a grid of pixel rows; [images.view(images.shape[0], -1)]
    lays the rows of every image of the batch end to end. *)
Definition Image : Type := list (list R).

Definition view_flat (images : list Image) : list (list R) :=
  map (@concat R) images.

(** [F.relu] and [nn.ReLU()], entry by entry. *)
Definition relu (x : list (list R)) : list (list R) :=
  map (map (Rmax 0)) x.

(** [torch.exp], entry by entry. *)
Definition torch_exp (x : list (list R)) : list (list R) :=
  map (map exp) x.

(** [F.log_softmax(x, dim=1)] and [nn.LogSoftmax(dim=1)]: every row has the
    logarithm of the sum of its exponentials subtracted. *)
Definition log_softmax_row (row : list R) : list R :=
  let lse := ln (Rsum (map exp row)) in
  map (fun v => v - lse) row.

Definition log_softmax (x : list (list R)) : list (list R) :=
  map log_softmax_row x.

(** ** Layers *)

Module Net.

(** [nn.Linear(in_features, out_features)]: [weight] has [out_features]
    rows of [in_features] entries, [bias] has [out_features] entries. *)
Record Linear : Type := mkLinear {
  in_features : nat;
  out_features : nat;
  weight : list (list R);
  bias : list R
}.

Definition Linear_row (l : Linear) (x : list R) : result (list R) :=
  if Nat.eqb (length x) (in_features l)
  then Ok (map (fun wb => dot (fst wb) x + snd wb) (combine (weight l) (bias l)))
  else Raise SizeMismatch.

(** Calling a [Linear] on a batch maps every row; one row of the wrong
    width raises. *)
Definition Linear_call (l : Linear) (x : list (list R)) : result (list (list R)) :=
  rmap (Linear_row l) x.

(** [nn.Dropout(p)] called on a batch.  In training mode the entry of
    sample [i] and unit [j] is kept when [keep i j] holds, and then scaled
    by [1/(1-p)], and is zero otherwise; [keep] stands for the random draw
    of the call.  In evaluation mode the input comes back as it is. *)
Definition mask : Type := nat -> nat -> bool.

Fixpoint mapi_from {A B} (f : nat -> A -> B) (i : nat) (l : list A) : list B :=
  match l with
  | [] => []
  | a :: l' => f i a :: mapi_from f (S i) l'
  end.

Definition Dropout (p : R) (training : bool) (keep : mask) (x : list (list R))
  : list (list R) :=
  if training
  then mapi_from (fun i row =>
         mapi_from (fun j v => if keep i j then v / (1 - p) else 0) 0%nat row)
         0%nat x
  else x.

(** [nn.Sequential]: the modules of Part 3's networks. *)
Inductive module : Type :=
| Lin (l : Linear)
| ReLU
| LogSoftmax.

Definition module_call (m : module) (x : list (list R)) : result (list (list R)) :=
  match m with
  | Lin l => Linear_call l x
  | ReLU => Ok (relu x)
  | LogSoftmax => Ok (log_softmax x)
  end.

Fixpoint Sequential (ms : list module) (x : list (list R)) : result (list (list R)) :=
  match ms with
  | [] => Ok x
  | m :: ms' => rbind (module_call m x) (Sequential ms')
  end.

(** Part 3, first network: three [Linear] layers with [ReLU] between them,
    giving logits. *)
Definition logits_model (l1 l2 l3 : Linear) : list module :=
  [Lin l1; ReLU; Lin l2; ReLU; Lin l3].

(** Part 3, the exercise's network: the same with [nn.LogSoftmax(dim=1)]
    at the end. *)
Definition logsoftmax_model (l1 l2 l3 : Linear) : list module :=
  [Lin l1; ReLU; Lin l2; ReLU; Lin l3; LogSoftmax].

(** ** Losses *)

(** The entries [log_ps[i][labels[i]]]. *)
Fixpoint gather (log_ps : list (list R)) (labels : list nat) : result (list R) :=
  match log_ps, labels with
  | [], [] => Ok []
  | row :: rows, y :: ys =>
      rbind (of_option TargetOutOfBounds (nth_error row y)) (fun v =>
      rbind (gather rows ys) (fun vs => Ok (v :: vs)))
  | _, _ => Raise SizeMismatch
  end.

(** [nn.NLLLoss()] with its default mean reduction. *)
Definition NLLLoss (log_ps : list (list R)) (labels : list nat) : result R :=
  rbind (gather log_ps labels) (fun picked =>
  match picked with
  | [] => Raise NanValue
  | _ => Ok (- Rsum picked / INR (length picked))
  end).

(** [nn.CrossEntropyLoss()]: log-softmax followed by [NLLLoss]. *)
Definition CrossEntropyLoss (logits : list (list R)) (labels : list nat) : result R :=
  NLLLoss (log_softmax logits) labels.

(** A [Linear] layer whose weights and biases are all zero. *)
Definition zero_Linear (i o : nat) : Linear :=
  mkLinear i o (repeat (repeat 0 i) o) (repeat 0 o).

End Net.

(** ** Accuracy of a batch *)

(** [ps.topk(1, dim=1)] on one row: the largest entry and its index, the
    first one when several entries are maximal.  An empty row raises. *)
Fixpoint argmax_from (best : R) (besti : nat) (i : nat) (row : list R) : R * nat :=
  match row with
  | [] => (best, besti)
  | v :: row' =>
      if Rlt_dec best v
      then argmax_from v i (S i) row'
      else argmax_from best besti (S i) row'
  end.

Definition topk1_row (row : list R) : result (R * nat) :=
  match row with
  | [] => Raise SizeMismatch
  | v :: row' => Ok (argmax_from v 0%nat 1%nat row')
  end.

(** [top_p, top_class = ps.topk(1, dim=1)]: two tensors of shape (n, 1). *)
Definition topk1 (ps : list (list R)) : result (list R * list nat) :=
  rbind (rmap topk1_row ps) (fun tops => Ok (map fst tops, map snd tops)).

(** A tensor with its element type, as far as the accuracy code needs it:
    comparing gives a [ByteTensor], [type(torch.FloatTensor)] converts. *)
Inductive tensor : Type :=
| ByteTensor (l : list bool)
| FloatTensor (l : list R).

Definition b2R (b : bool) : R := if b then 1 else 0.

(** [top_class == labels.view(...)], the labels viewed in the shape of
    [top_class]: the view needs as many labels as [top_class] has rows. *)
Definition equals_view (top_class labels : list nat) : result tensor :=
  if Nat.eqb (length labels) (length top_class)
  then Ok (ByteTensor (map (fun p => Nat.eqb (fst p) (snd p)) (combine top_class labels)))
  else Raise SizeMismatch.

(** [t.type(torch.FloatTensor)]. *)
Definition type_FloatTensor (t : tensor) : tensor :=
  match t with
  | ByteTensor l => FloatTensor (map b2R l)
  | FloatTensor l => FloatTensor l
  end.

(** [torch.mean]: "mean is not implemented for type torch.ByteTensor"
    (Part 5, the text above the first accuracy cell). *)
Definition torch_mean (t : tensor) : result R :=
  match t with
  | ByteTensor _ => Raise MeanNotImplemented
  | FloatTensor [] => Raise NanValue
  | FloatTensor l => Ok (Rsum l / INR (length l))
  end.

(** Part 5, the cells that compute the accuracy of one batch from its
    class probabilities:
<<
      top_p, top_class = ps.topk(1, dim=1)
      equals = top_class == labels.view( *top_class.shape)
      accuracy = torch.mean(equals.type(torch.FloatTensor))
>> *)
Definition batch_equals (ps : list (list R)) (labels : list nat) : result tensor :=
  rbind (topk1 ps) (fun top => equals_view (snd top) labels).

Definition batch_accuracy (ps : list (list R)) (labels : list nat) : result R :=
  rbind (batch_equals ps labels) (fun equals =>
  torch_mean (type_FloatTensor equals)).

(** What the text warns against: [torch.mean(equals)]. *)
Definition batch_accuracy_unconverted (ps : list (list R)) (labels : list nat) : result R :=
  rbind (batch_equals ps labels) torch_mean.

(** ** Data loaders *)

(** [torch.utils.data.DataLoader(dataset, batch_size=n)]: consecutive
    groups of [n] samples, the last one shorter when [n] does not divide
    the size of the data set.  [shuffle=True] reorders the data set before
    every pass; [dataset] is the data set in the order of the pass. *)
Fixpoint chunks {A} (fuel n : nat) (l : list A) : list (list A) :=
  match fuel with
  | O => []
  | S fuel' =>
      match l with
      | [] => []
      | _ => firstn n l :: chunks fuel' n (skipn n l)
      end
  end.

Definition DataLoader {X : Type} (dataset : list (X * nat)) (batch_size : nat)
  : list (list X * list nat) :=
  map (fun b => (map fst b, map snd b)) (chunks (length dataset) batch_size dataset).

(** The loaders of both notebooks. *)
Definition batch_size : nat := 64.

(** ** Parameters and optimizers *)

(** One entry of a parameter tensor with its gradient buffer; [grad] is
    [None] until the first backward pass reaches the entry. *)
Record Param : Type := mkParam {
  data : R;
  grad : option R
}.

Definition set_data (p : Param) (d : R) : Param := mkParam d (grad p).

Module Optim.

(** [optimizer.zero_grad()]: a buffer that exists is filled with zeros. *)
Definition zero_grad (params : list Param) : list Param :=
  map (fun p => mkParam (data p)
                 match grad p with
                 | Some _ => Some 0
                 | None => None
                 end) params.

(** [optim.SGD(params, lr)], no momentum, no weight decay:
    [p.data.add_(-lr, p.grad)] for every parameter that has a gradient. *)
Definition SGD_step (lr : R) (st : unit) (params : list Param)
  : unit * list Param :=
  (st, map (fun p => match grad p with
                     | Some g => set_data p (data p - lr * g)
                     | None => p
                     end) params).

(** [optim.Adam(params, lr)] with its defaults. *)
Definition beta1 : R := 9 / 10.
Definition beta2 : R := 999 / 1000.
Definition eps : R := 1 / 100000000.

Record adam_entry : Type := mkAdam {
  step : nat;
  exp_avg : R;
  exp_avg_sq : R
}.

(** The state of a parameter that has not been stepped yet. *)
Definition adam_zero : adam_entry := mkAdam 0 0 0.

Definition Adam_init : nat -> adam_entry := fun _ => adam_zero.

Definition adam_moments (e : adam_entry) (g : R) : adam_entry :=
  mkAdam (S (step e))
         (beta1 * exp_avg e + (1 - beta1) * g)
         (beta2 * exp_avg_sq e + (1 - beta2) * (g * g)).

(** The amount Adam adds to a parameter, from the moments it has just
    updated: bias-corrected first moment over the root of the
    bias-corrected second moment. *)
Definition adam_direction (e : adam_entry) : R :=
  (exp_avg e / (1 - beta1 ^ step e))
  / (sqrt (exp_avg_sq e / (1 - beta2 ^ step e)) + eps).

Definition adam_update (lr : R) (e : adam_entry) (p : Param) : Param :=
  set_data p (data p - lr * adam_direction e).

Definition Adam_step (lr : R) (st : nat -> adam_entry) (params : list Param)
  : (nat -> adam_entry) * list Param :=
  (fun i => match nth_error params i with
            | Some p => match grad p with
                        | Some g => adam_moments (st i) g
                        | None => st i
                        end
            | None => st i
            end,
   Net.mapi_from (fun i p => match grad p with
                             | Some g => adam_update lr (adam_moments (st i) g) p
                             | None => p
                             end) 0%nat params).

End Optim.

(** ** The interpreter state and the loops *)

Section Loop.

(** What the notebooks take from outside.  [Sample] is one sample as the
    model consumes it: the pixels and, for a model with dropout, the random
    draws its dropout layers make on the sample in training mode.
    [forward d training images] is [model(images)] for the parameter
    entries [d] in training or evaluation mode; it raises on a batch of the
    wrong shape.  [autograd d training images labels i] is the derivative
    of [criterion(model(images), labels)] in the [i]-th parameter entry.
    [opt_step] is [optimizer.step()]. *)
Variable Sample : Type.
Variable forward : list R -> bool -> list Sample -> result (list (list R)).
Variable autograd : list R -> bool -> list Sample -> list nat -> nat -> R.
Variable OptState : Type.
Variable opt_step : OptState -> list Param -> OptState * list Param.

(** The calls a cell makes, in the order it makes them.  [EvBackward]
    records the gradient buffers as the backward pass finds them.
    [EvAppend] is an [append] to one of the lists [train_losses] and
    [test_losses]: the lists are changed in place, so what has been
    appended stays appended when the cell raises later on. *)
Inductive event : Type :=
| EvZeroGrad
| EvForward (is_training tracked : bool) (images : list Sample)
| EvLoss (labels : list nat)
| EvBackward (buffers : list (option R))
| EvStep
| EvAccumulate (item : R)
| EvEval
| EvTrain
| EvPrint (line : list R)
| EvAppend (to_train_losses : bool) (mean_loss : R).

Record world : Type := mkWorld {
  params : list Param;          (* model.parameters() *)
  opt_state : OptState;         (* optimizer.state *)
  training : bool;              (* model.training *)
  grad_enabled : bool;          (* torch.is_grad_enabled() *)
  trace : list event
}.

Definition M (A : Type) : Type := world -> result A * world.

Definition ret {A} (a : A) : M A := fun w => (Ok a, w).

Definition bind {A B} (c : M A) (k : A -> M B) : M B :=
  fun w => match c w with
           | (Ok a, w') => k a w'
           | (Raise e, w') => (Raise e, w')
           end.

Definition raise {A} (e : exn) : M A := fun w => (Raise e, w).

Definition lift {A} (r : result A) : M A := fun w => (r, w).

Local Notation "x <- c1 ;; c2" := (bind c1 (fun x => c2))
  (at level 61, c1 at next level, right associativity).
Local Notation "c1 ;; c2" := (bind c1 (fun _ => c2))
  (at level 61, right associativity).

Definition emit (e : event) : M unit :=
  fun w => (Ok tt, mkWorld (params w) (opt_state w) (training w) (grad_enabled w)
                           (trace w ++ [e])).

Definition set_params (ps : list Param) (w : world) : world :=
  mkWorld ps (opt_state w) (training w) (grad_enabled w) (trace w).

Definition set_training (b : bool) (w : world) : world :=
  mkWorld (params w) (opt_state w) b (grad_enabled w) (trace w).

Definition set_grad_enabled (b : bool) (w : world) : world :=
  mkWorld (params w) (opt_state w) (training w) b (trace w).

(** A tensor the model returned: its value and, when gradients were being
    tracked, what it was computed from. *)
Record out_tensor : Type := mkOut {
  out_value : list (list R);
  out_graph : option (list R * bool * list Sample)
}.

(** A loss: [item] is [loss.item()], [grad_fn] what [loss.backward()]
    adds to the gradient buffers. *)
Record loss_tensor : Type := mkLoss {
  item : R;
  grad_fn : option (nat -> R)
}.

(** [optimizer.zero_grad()] *)
Definition optimizer_zero_grad : M unit :=
  emit EvZeroGrad ;;
  (fun w => (Ok tt, set_params (Optim.zero_grad (params w)) w)).

(** [model(images)] *)
Definition model_call (images : list Sample) : M out_tensor :=
  fun w =>
    let d := map data (params w) in
    bind (emit (EvForward (training w) (grad_enabled w) images)) (fun _ =>
    bind (lift (forward d (training w) images)) (fun v =>
    ret (mkOut v (if grad_enabled w then Some (d, training w, images) else None)))) w.

(** [criterion(log_ps, labels)] with [criterion = nn.NLLLoss()] *)
Definition criterion_call (log_ps : out_tensor) (labels : list nat) : M loss_tensor :=
  emit (EvLoss labels) ;;
  v <- lift (Net.NLLLoss (out_value log_ps) labels) ;;
  ret (mkLoss v match out_graph log_ps with
                | Some (d, t, images) => Some (autograd d t images labels)
                | None => None
                end).

(** [loss.backward()]: the gradient is added to the buffer of every
    entry, a buffer that does not exist yet is created. *)
Definition accumulate_grad (g : nat -> R) (ps : list Param) : list Param :=
  Net.mapi_from (fun i p => mkParam (data p)
                              match grad p with
                              | Some old => Some (old + g i)
                              | None => Some (g i)
                              end) 0%nat ps.

Definition loss_backward (loss : loss_tensor) : M unit :=
  match grad_fn loss with
  | None => raise NoGradFn
  | Some g =>
      (fun w => emit (EvBackward (map grad (params w))) w) ;;
      (fun w => (Ok tt, set_params (accumulate_grad g (params w)) w))
  end.

(** [optimizer.step()] *)
Definition optimizer_step : M unit :=
  emit EvStep ;;
  (fun w => let (st, ps) := opt_step (opt_state w) (params w) in
            (Ok tt, mkWorld ps st (training w) (grad_enabled w) (trace w))).

(** [model.eval()] and [model.train()] *)
Definition model_eval : M unit :=
  emit EvEval ;; (fun w => (Ok tt, set_training false w)).

Definition model_train : M unit :=
  emit EvTrain ;; (fun w => (Ok tt, set_training true w)).

(** [with torch.no_grad(): body]: gradient tracking is off inside and is
    set back on the way out, also when [body] raises. *)
Definition no_grad {A} (body : M A) : M A :=
  fun w =>
    let prev := grad_enabled w in
    let (r, w') := body (set_grad_enabled false w) in
    (r, set_grad_enabled prev w').

Definition print (line : list R) : M unit := emit (EvPrint line).

(** [train_losses.append(v)] and [test_losses.append(v)] *)
Definition train_losses_append (v : R) : M unit := emit (EvAppend true v).

Definition test_losses_append (v : R) : M unit := emit (EvAppend false v).

(** [x / n] for an accumulator [x] and a Python integer [n].  The
    accumulators start as the integer 0, so the cells divide 0 by 0 when
    the loader is empty, and Python raises. *)
Definition py_div (x : R) (n : nat) : M R :=
  match n with
  | O => raise ZeroDivisionError
  | _ => ret (x / INR n)
  end.

(** [for x in l: body], with the variables the body assigns to as [acc]. *)
Fixpoint for_each {A B} (l : list A) (body : B -> A -> M B) (acc : B) : M B :=
  match l with
  | [] => ret acc
  | a :: l' => acc' <- body acc a ;; for_each l' body acc'
  end.

(** The body of every training loop (Part 3, last exercise; Part 5, both
    training cells):
<<
      optimizer.zero_grad()
      log_ps = model(images)
      loss = criterion(log_ps, labels)
      loss.backward()
      optimizer.step()
      running_loss += loss.item()
>> *)
Definition train_batch (running_loss : R) (batch : list Sample * list nat) : M R :=
  let (images, labels) := batch in
  optimizer_zero_grad ;;
  log_ps <- model_call images ;;
  loss <- criterion_call log_ps labels ;;
  loss_backward loss ;;
  optimizer_step ;;
  emit (EvAccumulate (item loss)) ;;
  ret (running_loss + item loss).

(** Part 3, one pass of the last exercise.  The flattening
    [images.view(images.shape[0], -1)] is taken as the first step of
    [forward]; [print(images.shape)] shows the number of rows. *)
Definition part3_training_loop (trainloader : list (list Sample * list nat)) : M R :=
  for_each trainloader
    (fun acc batch => print [INR (length (fst batch))] ;; train_batch acc batch) 0.

Definition part3_epoch (trainloader : list (list Sample * list nat)) : M R :=
  running_loss <- part3_training_loop trainloader ;;
  mean_loss <- py_div running_loss (length trainloader) ;;
  print [mean_loss] ;;
  ret mean_loss.

(** Part 5, the training loop of both training cells:
    [running_loss = 0] and the body for every batch of the loader. *)
Definition training_loop (trainloader : list (list Sample * list nat)) : M R :=
  for_each trainloader train_batch 0.

(** Part 5, first training cell: the validation pass of the exercise.
    [accuracy] is assigned in every iteration. *)
Definition validation_batch_13 (accuracy : option R) (batch : list Sample * list nat)
  : M (option R) :=
  let (images, labels) := batch in
  log_ps <- model_call images ;;
  let ps := torch_exp (out_value log_ps) in
  acc <- lift (batch_accuracy ps labels) ;;
  ret (Some acc).

(** [accuracy0] is the variable [accuracy] as the cell finds it: the cell
    before assigns it when it has been run. *)
Definition validation_pass_13 (accuracy0 : option R)
    (testloader : list (list Sample * list nat)) : M R :=
  accuracy <- no_grad (for_each testloader validation_batch_13 accuracy0) ;;
  match accuracy with
  | None => raise NameError
  | Some a => print [a * 100] ;; ret a
  end.

Definition part5_epoch_13 (accuracy0 : option R)
    (trainloader testloader : list (list Sample * list nat)) : M R :=
  running_loss <- training_loop trainloader ;;
  validation_pass_13 accuracy0 testloader.

(** The cell runs the pass [epochs] times; [accuracy] is carried from one
    pass to the next. *)
Definition part5_cell_13 (accuracy0 : option R)
    (passes : list (list (list Sample * list nat) * list (list Sample * list nat)))
  : M (option R) :=
  for_each passes
    (fun accuracy pass =>
       a <- part5_epoch_13 accuracy (fst pass) (snd pass) ;;
       ret (Some a))
    accuracy0.

(** Part 5, the training cell of the dropout exercise. *)
Definition validation_batch_17 (acc : R * R) (batch : list Sample * list nat)
  : M (R * R) :=
  let (test_loss, accuracy) := acc in
  let (images, labels) := batch in
  log_ps <- model_call images ;;
  loss <- criterion_call log_ps labels ;;
  let ps := torch_exp (out_value log_ps) in
  a <- lift (batch_accuracy ps labels) ;;
  ret (test_loss + item loss, accuracy + a).

(** The evaluation pass proper: everything between the end of the
    training loop and the bookkeeping. *)
Definition validation_pass_17 (testloader : list (list Sample * list nat)) : M (R * R) :=
  r <- no_grad (model_eval ;; for_each testloader validation_batch_17 (0, 0)) ;;
  model_train ;;
  ret r.

(** The number the cell prints as "Test Accuracy":
    [accuracy/len(testloader)] after the pass. *)
Definition reported_accuracy_17 (testloader : list (list Sample * list nat)) : M R :=
  r <- validation_pass_17 testloader ;;
  py_div (snd r) (length testloader).

Definition part5_epoch_17 (trainloader testloader : list (list Sample * list nat))
  : M (R * R * R) :=
  running_loss <- training_loop trainloader ;;
  r <- validation_pass_17 testloader ;;
  let (test_loss, accuracy) := r in
  train_mean <- py_div running_loss (length trainloader) ;;
  train_losses_append train_mean ;;
  test_mean <- py_div test_loss (length testloader) ;;
  test_losses_append test_mean ;;
  reported <- py_div accuracy (length testloader) ;;
  print [train_mean; test_mean; reported] ;;
  ret (train_mean, test_mean, reported).

(** The cells run their pass [epochs] times; the loaders reshuffle, so
    every pass has its own order of the batches.  Of the dropout cell, the
    trace holds every [append] where it happens, and the answer of a run
    that completes is the two lists as the appends have left them. *)
Definition part3_cell (passes : list (list (list Sample * list nat))) : M unit :=
  for_each passes (fun _ trainloader => part3_epoch trainloader ;; ret tt) tt.

Definition part5_cell_17
    (passes : list (list (list Sample * list nat) * list (list Sample * list nat)))
  : M (list R * list R) :=
  for_each passes
    (fun losses pass =>
       r <- part5_epoch_17 (fst pass) (snd pass) ;;
       ret (fst losses ++ [fst (fst r)], snd losses ++ [snd (fst r)]))
    ([], []).

End Loop.

Arguments EvZeroGrad {Sample}.
Arguments EvForward {Sample} is_training tracked images.
Arguments EvLoss {Sample} labels.
Arguments EvBackward {Sample} buffers.
Arguments EvStep {Sample}.
Arguments EvAccumulate {Sample} item.
Arguments EvEval {Sample}.
Arguments EvTrain {Sample}.
Arguments EvPrint {Sample} line.
Arguments EvAppend {Sample} to_train_losses mean_loss.
Arguments mkWorld {Sample OptState} params opt_state training grad_enabled trace.
Arguments params {Sample OptState} w.
Arguments opt_state {Sample OptState} w.
Arguments training {Sample OptState} w.
Arguments grad_enabled {Sample OptState} w.
Arguments trace {Sample OptState} w.
Arguments ret {Sample OptState A} a w.
Arguments bind {Sample OptState A B} c k w.
Arguments raise {Sample OptState A} e w.
Arguments lift {Sample OptState A} r w.
Arguments emit {Sample OptState} e w.
Arguments set_params {Sample OptState} ps w.
Arguments set_training {Sample OptState} b w.
Arguments set_grad_enabled {Sample OptState} b w.
Arguments mkOut {Sample} out_value out_graph.
Arguments out_value {Sample} o.
Arguments out_graph {Sample} o.
Arguments optimizer_zero_grad {Sample OptState} w.
Arguments model_call {Sample} forward {OptState} images w.
Arguments criterion_call {Sample} autograd {OptState} log_ps labels w.
Arguments loss_backward {Sample OptState} loss w.
Arguments optimizer_step {Sample OptState} opt_step w.
Arguments model_eval {Sample OptState} w.
Arguments model_train {Sample OptState} w.
Arguments no_grad {Sample OptState A} body w.
Arguments print {Sample OptState} line w.
Arguments train_losses_append {Sample OptState} v w.
Arguments test_losses_append {Sample OptState} v w.
Arguments py_div {Sample OptState} x n w.
Arguments for_each {Sample OptState A B} l body acc w.
Arguments train_batch {Sample} forward autograd {OptState} opt_step running_loss batch w.
Arguments part3_epoch {Sample} forward autograd {OptState} opt_step trainloader w.
Arguments part3_training_loop {Sample} forward autograd {OptState} opt_step trainloader w.
Arguments training_loop {Sample} forward autograd {OptState} opt_step trainloader w.
Arguments part3_cell {Sample} forward autograd {OptState} opt_step passes w.
Arguments validation_batch_13 {Sample} forward {OptState} accuracy batch w.
Arguments validation_pass_13 {Sample} forward {OptState} accuracy0 testloader w.
Arguments part5_epoch_13 {Sample} forward autograd {OptState} opt_step accuracy0
  trainloader testloader w.
Arguments part5_cell_13 {Sample} forward autograd {OptState} opt_step accuracy0 passes w.
Arguments validation_batch_17 {Sample} forward autograd {OptState} acc batch w.
Arguments validation_pass_17 {Sample} forward autograd {OptState} testloader w.
Arguments reported_accuracy_17 {Sample} forward autograd {OptState} testloader w.
Arguments part5_epoch_17 {Sample} forward autograd {OptState} opt_step
  trainloader testloader w.
Arguments part5_cell_17 {Sample} forward autograd {OptState} opt_step passes w.

(** ** The vocabulary of the properties *)

(** Reading a trace: which call an event is. *)
Inductive call : Type :=
| CZeroGrad | CForward | CLoss | CBackward | CStep | CAccumulate
| CEval | CTrain | CPrint | CAppend.

Definition call_of {Sample} (e : event Sample) : call :=
  match e with
  | EvZeroGrad => CZeroGrad
  | EvForward _ _ _ => CForward
  | EvLoss _ => CLoss
  | EvBackward _ => CBackward
  | EvStep => CStep
  | EvAccumulate _ => CAccumulate
  | EvEval => CEval
  | EvTrain => CTrain
  | EvPrint _ => CPrint
  | EvAppend _ _ => CAppend
  end.

(** The calls of one training batch, (a) to (f). *)
Definition batch_calls : list call :=
  [CZeroGrad; CForward; CLoss; CBackward; CStep; CAccumulate].

(** The calls of a trace, what is printed left out. *)
Definition is_print (c : call) : bool :=
  match c with
  | CPrint => true
  | _ => false
  end.

Definition model_calls {Sample} (evs : list (event Sample)) : list call :=
  filter (fun c => negb (is_print c)) (map call_of evs).

(** The loss values a trace adds to [running_loss]. *)
Fixpoint accumulated {Sample} (evs : list (event Sample)) : list R :=
  match evs with
  | [] => []
  | EvAccumulate v :: evs' => v :: accumulated evs'
  | _ :: evs' => accumulated evs'
  end.

Definition is_prefix {A} (l1 l2 : list A) : Prop := exists rest, l2 = l1 ++ rest.

(** A gradient buffer is empty when it does not exist or holds zero. *)
Definition emptied (g : option R) : Prop := g = None \/ g = Some 0.

(** An event of an evaluation pass that runs in mode [t] with gradient
    tracking [g]: a forward call in that mode, or a loss. *)
Definition pass_event {Sample} (t g : bool) (e : event Sample) : Prop :=
  match e with
  | EvForward t' g' _ => t' = t /\ g' = g
  | EvLoss _ => True
  | _ => False
  end.

(** An event that computes or uses no gradient: a forward call that is
    not tracked, or anything but [zero_grad], [backward] and [step]. *)
Definition no_gradient_work {Sample} (e : event Sample) : Prop :=
  match e with
  | EvForward _ tracked _ => tracked = false
  | EvZeroGrad | EvBackward _ | EvStep => False
  | _ => True
  end.

(** The events of an evaluation batch. *)
Definition pass_events_17 {Sample} (t g : bool) (batch : list Sample * list nat)
  : list (event Sample) :=
  [EvForward t g (fst batch); EvLoss (snd batch)].

Definition pass_events_13 {Sample} (t g : bool) (batch : list Sample * list nat)
  : list (event Sample) :=
  [EvForward t g (fst batch)].

(** A backward pass that found every gradient buffer empty. *)
Definition backward_on_empty {Sample} (e : event Sample) : Prop :=
  match e with
  | EvBackward buffers => Forall emptied buffers
  | _ => True
  end.

(** The state with more events in its trace. *)
Definition logged {Sample OptState} (evs : list (event Sample))
    (w : world Sample OptState) : world Sample OptState :=
  mkWorld (params w) (opt_state w) (training w) (grad_enabled w) (trace w ++ evs).

(** The number of rows whose largest probability sits at the label. *)
Fixpoint hits (ps : list (list R)) (labels : list nat) : nat :=
  match ps, labels with
  | row :: ps', y :: ys =>
      match topk1_row row with
      | Ok (_, k) => if Nat.eqb k y then S (hits ps' ys) else hits ps' ys
      | Raise _ => hits ps' ys
      end
  | _, _ => O
  end.

(** The row of log-probabilities [Part5.class0] gives for every image. *)
Definition class0_row : list R := log_softmax_row (1 :: repeat 0 9).

(** A layer as [nn.Linear(i, o)] creates it. *)
Definition shaped (i o : nat) (l : Net.Linear) : Prop :=
  Net.in_features l = i /\ Net.out_features l = o
  /\ length (Net.weight l) = o
  /\ Forall (fun row => length row = i) (Net.weight l)
  /\ length (Net.bias l) = o.

(** For the model [forward] with the parameter entries [d] in mode [t]:
    the number of samples of a batch whose predicted top class is their
    label, and what makes a batch fit for the evaluation pass (the model
    accepts it and gives one row of at least one class per label, the loss
    accepts the rows and the labels). *)
Definition batch_hits {Sample}
    (forward : list R -> bool -> list Sample -> result (list (list R)))
    (d : list R) (t : bool) (batch : list Sample * list nat) : nat :=
  match forward d t (fst batch) with
  | Ok log_ps => hits (torch_exp log_ps) (snd batch)
  | Raise _ => O
  end.

(** The accuracy of one batch, the mean of these over the batches of a
    loader, and the number of hits in all of them. *)
Definition batch_ratio {Sample}
    (forward : list R -> bool -> list Sample -> result (list (list R)))
    (d : list R) (t : bool) (batch : list Sample * list nat) : R :=
  INR (batch_hits forward d t batch) / INR (length (snd batch)).

Definition mean_of_batch_ratios {Sample}
    (forward : list R -> bool -> list Sample -> result (list (list R)))
    (d : list R) (t : bool) (loader : list (list Sample * list nat)) : R :=
  Rsum (map (batch_ratio forward d t) loader) / INR (length loader).

Definition correct_count {Sample}
    (forward : list R -> bool -> list Sample -> result (list (list R)))
    (d : list R) (t : bool) (loader : list (list Sample * list nat)) : nat :=
  list_sum (map (batch_hits forward d t) loader).

Definition batch_evaluable {Sample}
    (forward : list R -> bool -> list Sample -> result (list (list R)))
    (d : list R) (t : bool) (batch : list Sample * list nat) : Prop :=
  exists log_ps l,
    forward d t (fst batch) = Ok log_ps
    /\ length log_ps = length (snd batch)
    /\ Forall (fun row => row <> []) log_ps
    /\ Net.NLLLoss log_ps (snd batch) = Ok l.

(** A computation keeps a relation between the state before and after. *)
Definition keeps {Sample OptState A} (I : world Sample OptState -> world Sample OptState -> Prop)
    (c : M Sample OptState A) : Prop :=
  forall w, I w (snd (c w)).

(** The trace has grown, and every backward pass added found the gradient
    buffers empty. *)
Definition clean {Sample OptState} (w w' : world Sample OptState) : Prop :=
  exists new, trace w' = trace w ++ new /\ Forall backward_on_empty new.

(** What a training batch leaves behind when it started with
    [running_loss = acc]. *)
Definition batch_spec {Sample OptState} (acc : R) (w : world Sample OptState)
    (out : result R * world Sample OptState) : Prop :=
  training (snd out) = training w
  /\ grad_enabled (snd out) = grad_enabled w
  /\ exists new,
       trace (snd out) = trace w ++ new
       /\ Forall backward_on_empty new
       /\ match fst out with
          | Ok v => model_calls new = batch_calls
                    /\ exists l, accumulated new = [l] /\ v = acc + l
          | Raise _ => is_prefix (model_calls new) batch_calls
                       /\ accumulated new = []
          end.

(** What a training loop over [n] batches leaves behind. *)
Definition loop_spec {Sample OptState} (n : nat) (acc : R) (w : world Sample OptState)
    (out : result R * world Sample OptState) : Prop :=
  training (snd out) = training w
  /\ grad_enabled (snd out) = grad_enabled w
  /\ exists new,
       trace (snd out) = trace w ++ new
       /\ Forall backward_on_empty new
       /\ is_prefix (model_calls new) (concat (repeat batch_calls n))
       /\ match fst out with
          | Ok v => model_calls new = concat (repeat batch_calls n)
                    /\ length (accumulated new) = n
                    /\ v = acc + Rsum (accumulated new)
          | Raise _ => True
          end.

(** ** The networks and optimizers of the notebooks *)

Module Part3.

(** [optimizer = optim.SGD(model.parameters(), lr=0.01)], the optimizer
    of the single training step that is shown first. *)
Definition lr_single_step : R := 1 / 100.

(** [optimizer = optim.SGD(model.parameters(), lr=0.003)], the optimizer
    of the last exercise. *)
Definition lr : R := 3 / 1000.

Definition training_loop {X} forward autograd :=
  @part3_training_loop X forward autograd unit (Optim.SGD_step lr).

Definition epoch {X} forward autograd :=
  @part3_epoch X forward autograd unit (Optim.SGD_step lr).

Definition cell {X} forward autograd :=
  @part3_cell X forward autograd unit (Optim.SGD_step lr).

End Part3.

Module Part5.

(** The [Classifier] of the first cells. *)
Record Classifier : Type := mkClassifier {
  fc1 : Net.Linear;      (* nn.Linear(784, 256) *)
  fc2 : Net.Linear;      (* nn.Linear(256, 128) *)
  fc3 : Net.Linear;      (* nn.Linear(128, 64) *)
  fc4 : Net.Linear       (* nn.Linear(64, 10) *)
}.

Definition forward (m : Classifier) (x : list Image) : result (list (list R)) :=
  let x := view_flat x in
  rbind (Net.Linear_call (fc1 m) x) (fun h => let x := relu h in
  rbind (Net.Linear_call (fc2 m) x) (fun h => let x := relu h in
  rbind (Net.Linear_call (fc3 m) x) (fun h => let x := relu h in
  rbind (Net.Linear_call (fc4 m) x) (fun h =>
  Ok (log_softmax h))))).

(** The [Classifier] of the dropout exercise: the same four layers and
    [self.dropout = nn.Dropout(p=0.2)], called after each of the first
    three.  [keep1], [keep2] and [keep3] are the draws of the three calls. *)
Definition p_drop : R := 2 / 10.

Definition forward_dropout (m : Classifier) (is_training : bool)
    (keep1 keep2 keep3 : Net.mask) (x : list Image) : result (list (list R)) :=
  let dropout := Net.Dropout p_drop is_training in
  let x := view_flat x in
  rbind (Net.Linear_call (fc1 m) x) (fun h => let x := dropout keep1 (relu h) in
  rbind (Net.Linear_call (fc2 m) x) (fun h => let x := dropout keep2 (relu h) in
  rbind (Net.Linear_call (fc3 m) x) (fun h => let x := dropout keep3 (relu h) in
  rbind (Net.Linear_call (fc4 m) x) (fun h =>
  Ok (log_softmax h))))).

(** [model.parameters()] as one list of entries: for every layer its
    weight, row after row, then its bias. *)
Definition entries_of_linear (l : Net.Linear) : list R :=
  concat (Net.weight l) ++ Net.bias l.

Definition entries (m : Classifier) : list R :=
  entries_of_linear (fc1 m) ++ entries_of_linear (fc2 m)
  ++ entries_of_linear (fc3 m) ++ entries_of_linear (fc4 m).

(** The way back: [o] rows of [i] entries, then [o] entries of bias. *)
Fixpoint rows_at (i o : nat) (d : list R) : list (list R) :=
  match o with
  | O => []
  | S o' => firstn i d :: rows_at i o' (skipn i d)
  end.

Fixpoint skip_rows (i o : nat) (d : list R) : list R :=
  match o with
  | O => d
  | S o' => skip_rows i o' (skipn i d)
  end.

Definition linear_at (i o : nat) (d : list R) : Net.Linear :=
  Net.mkLinear i o (rows_at i o d) (firstn o (skip_rows i o d)).

Definition after_linear (i o : nat) (d : list R) : list R :=
  skipn o (skip_rows i o d).

(** The layers as [__init__] creates them, holding the entries [d]. *)
Definition of_entries (d : list R) : Classifier :=
  let d1 := after_linear 784 256 d in
  let d2 := after_linear 256 128 d1 in
  let d3 := after_linear 128 64 d2 in
  mkClassifier (linear_at 784 256 d) (linear_at 256 128 d1)
               (linear_at 128 64 d2) (linear_at 64 10 d3).

(** The model of the first cells as the loops call it. *)
Definition model (d : list R) (is_training : bool) (images : list Image)
  : result (list (list R)) :=
  forward (of_entries d) images.

(** The model of the dropout exercise as the loops call it.  A sample
    comes with the draws of the three dropout calls on it: for every unit,
    whether it is kept. *)
Definition draws : Type := (nat -> bool) * (nat -> bool) * (nat -> bool).

Definition Sample : Type := (Image * draws)%type.

Definition keep_of (sel : draws -> nat -> bool) (batch : list Sample) : Net.mask :=
  fun i j => match nth_error batch i with
             | Some s => sel (snd s) j
             | None => true
             end.

Definition model_dropout (d : list R) (is_training : bool) (batch : list Sample)
  : result (list (list R)) :=
  forward_dropout (of_entries d) is_training
    (keep_of (fun k => fst (fst k)) batch)
    (keep_of (fun k => snd (fst k)) batch)
    (keep_of (fun k => snd k) batch)
    (map fst batch).

(** [optimizer = optim.Adam(model.parameters(), lr=0.003)] *)
Definition lr : R := 3 / 1000.

(** A classifier to run by hand: every weight zero, every bias zero but
    the bias of class 0 in the last layer, which is 1.  It answers class 0
    for every image. *)
Definition class0 : Classifier :=
  mkClassifier (Net.zero_Linear 784 256) (Net.zero_Linear 256 128)
               (Net.zero_Linear 128 64)
               (Net.mkLinear 64 10 (repeat (repeat 0 64) 10) (1 :: repeat 0 9)).

Definition class0_params : list Param :=
  map (fun v => mkParam v None) (entries class0).

(** An image of 28 by 28 pixels, all of them zero, and an image that has
    lost its pixels. *)
Definition grey : Image := repeat (repeat 0 28) 28.

Definition blank : Image := [].

Definition all_kept : draws := (fun _ => true, fun _ => true, fun _ => true).

(** The derivative is never asked for while gradients are switched off;
    where a pass runs only so, it is left out. *)
Definition no_autograd {X} (d : list R) (is_training : bool) (images : list X)
    (labels : list nat) (i : nat) : R := 0.

Definition training_loop {X} forward autograd :=
  @training_loop X forward autograd (nat -> Optim.adam_entry) (Optim.Adam_step lr).

Definition epoch_13 {X} forward autograd :=
  @part5_epoch_13 X forward autograd (nat -> Optim.adam_entry) (Optim.Adam_step lr).

Definition validation_13 {X} forward :=
  @validation_pass_13 X forward (nat -> Optim.adam_entry).

Definition epoch_17 {X} forward autograd :=
  @part5_epoch_17 X forward autograd (nat -> Optim.adam_entry) (Optim.Adam_step lr).

Definition validation_17 {X} forward autograd :=
  @validation_pass_17 X forward autograd (nat -> Optim.adam_entry).

Definition reported_accuracy {X} forward autograd :=
  @reported_accuracy_17 X forward autograd (nat -> Optim.adam_entry).

End Part5.

(** ** A network small enough to run by hand *)

Module Tiny.

(** [nn.Sequential(nn.Linear(1, 2), nn.LogSoftmax(dim=1))] on images of one
    pixel.  The parameter entries are the two weights, then the two
    biases. *)
Definition net (d : list R) : list Net.module :=
  match d with
  | [w0; w1; b0; b1] =>
      [Net.Lin (Net.mkLinear 1 2 [[w0]; [w1]] [b0; b1]); Net.LogSoftmax]
  | _ => [Net.Lin (Net.zero_Linear 1 2); Net.LogSoftmax]
  end.

Definition forward (d : list R) (is_training : bool) (images : list Image)
  : result (list (list R)) :=
  Net.Sequential (net d) (view_flat images).

(** The derivative of [NLLLoss(net(images), labels)], written out: for the
    logit of class [k] of one sample it is the probability of [k] minus 1
    when [k] is the label; a weight multiplies it by the pixel. *)
Definition dlogit (k : nat) (log_p : list R) (y : nat) : R :=
  exp (nth k log_p 0) - b2R (Nat.eqb y k).

Definition autograd (d : list R) (is_training : bool) (images : list Image)
    (labels : list nat) (i : nat) : R :=
  match forward d is_training images with
  | Raise _ => 0
  | Ok log_ps =>
      let per_sample :=
        map (fun s => match s with
                      | (x, log_p, y) =>
                          match i with
                          | 0%nat => nth 0 x 0 * dlogit 0 log_p y
                          | 1%nat => nth 0 x 0 * dlogit 1 log_p y
                          | 2%nat => dlogit 0 log_p y
                          | 3%nat => dlogit 1 log_p y
                          | _ => 0
                          end
                      end)
            (combine (combine (view_flat images) log_ps) labels) in
      Rsum per_sample / INR (length images)
  end.

(** The network with biases 1 and 0: class 0 for every image. *)
Definition params0 : list Param :=
  [mkParam 0 None; mkParam 0 None; mkParam 1 None; mkParam 0 None].

(** A one-pixel image. *)
Definition pixel (v : R) : Image := [[v]].

(** An image with no pixel: the [Linear] layer refuses it. *)
Definition blank : Image := [].

End Tiny.

(** ** More vocabulary, and more cells *)

(** The classifier with dropout as the claim about it words it: a stack of
    hidden layers, each one a [Linear] layer followed by ReLU and by
    dropout with the draws of that layer, and an output layer, [Linear]
    followed by log-softmax, that dropout has no part in. *)
Fixpoint hidden_stack (p : R) (is_training : bool)
    (layers : list (Net.Linear * Net.mask)) (x : list (list R))
  : result (list (list R)) :=
  match layers with
  | [] => Ok x
  | (l, keep) :: layers' =>
      rbind (Net.Linear_call l x) (fun h =>
      hidden_stack p is_training layers' (Net.Dropout p is_training keep (relu h)))
  end.

Definition output_layer (l : Net.Linear) (x : list (list R)) : result (list (list R)) :=
  rbind (Net.Linear_call l x) (fun logits => Ok (log_softmax logits)).

Definition dropout_on_hidden_only (m : Part5.Classifier) (is_training : bool)
    (keep1 keep2 keep3 : Net.mask) (x : list Image) : result (list (list R)) :=
  rbind (hidden_stack Part5.p_drop is_training
           [(Part5.fc1 m, keep1); (Part5.fc2 m, keep2); (Part5.fc3 m, keep3)]
           (view_flat x))
        (output_layer (Part5.fc4 m)).

(** The draws that keep no unit. *)
Definition drop_all : Net.mask := fun _ _ => false.

(** The loss of one batch for the model [forward] with the parameter
    entries [d] in mode [t]. *)
Definition batch_loss {Sample}
    (forward : list R -> bool -> list Sample -> result (list (list R)))
    (d : list R) (t : bool) (batch : list Sample * list nat) : R :=
  match forward d t (fst batch) with
  | Ok log_ps => match Net.NLLLoss log_ps (snd batch) with
                 | Ok l => l
                 | Raise _ => 0
                 end
  | Raise _ => 0
  end.

(** The numbers a trace appends to [train_losses] (for [true]) or to
    [test_losses] (for [false]), in the order it appends them. *)
Fixpoint appended {Sample} (to_train_losses : bool) (evs : list (event Sample)) : list R :=
  match evs with
  | [] => []
  | EvAppend b v :: evs' =>
      if Bool.eqb b to_train_losses
      then v :: appended to_train_losses evs'
      else appended to_train_losses evs'
  | _ :: evs' => appended to_train_losses evs'
  end.

(** The number of samples in the last batch of a loader over [m] samples
    at batch size [n]: the remainder, or a full batch when there is none. *)
Definition last_size (m n : nat) : nat :=
  match (m mod n)%nat with
  | O => n
  | r => r
  end.

(** A test loader with the dropout draws of its samples left out. *)
Definition without_draws (loader : list (list Part5.Sample * list nat))
  : list (list Image * list nat) :=
  map (fun b => (map fst (fst b), snd b)) loader.

(** [transforms.ToTensor()]: a pixel, a byte, becomes a float between 0
    and 1. *)
Definition ToTensor (b : nat) : R := INR b / 255.

(** [transforms.Normalize((0.5,), (0.5,))] on the one channel of the
    images. *)
Definition Normalize (mean std x : R) : R := (x - mean) / std.

(** [transform = transforms.Compose([ToTensor(), Normalize((0.5,), (0.5,))])]
    on an image of pixel rows. *)
Definition transform (pixels : list (list nat)) : Image :=
  map (map (fun b => Normalize (5 / 10) (5 / 10) (ToTensor b))) pixels.

(** Part 3, the cells on autograd. *)

Module Autograd.

(** [y = x**2] *)
Definition y (x : list (list R)) : list (list R) := map (map (fun v => v ^ 2)) x.

(** [z = y.mean()], the mean over all entries. *)
Definition z (x : list (list R)) : result R :=
  torch_mean (FloatTensor (concat (y x))).

(** [x/2], what the cell prints next to [x.grad]. *)
Definition half (x : list (list R)) : list (list R) := map (map (fun v => v / 2)) x.

End Autograd.

(** The entry of a tensor at row [i] and column [j], and the tensor with
    that entry replaced. *)
Definition entry (x : list (list R)) (i j : nat) : R := nth j (nth i x []) 0.

Definition set_entry (x : list (list R)) (i j : nat) (t : R) : list (list R) :=
  Net.mapi_from (fun i' row =>
    Net.mapi_from (fun j' v => if Nat.eqb i' i && Nat.eqb j' j then t else v) 0%nat row)
    0%nat x.

(** The number a computation answers, 0 when it raises. *)
Definition value_of (r : result R) : R :=
  match r with
  | Ok v => v
  | Raise _ => 0
  end.

(** [img.view(1, 784)] *)
Definition view_1_784 (img : Image) : result Image :=
  if Nat.eqb (length (concat img)) 784 then Ok [concat img] else Raise SizeMismatch.

(** The last cell of Part 5, for the first image [images[0]] of a test
    batch:
<<
      model.eval()
      img = img.view(1, 784)
      with torch.no_grad():
          output = model.forward(img)
      ps = torch.exp(output)
      helper.view_classify(img.view(1, 28, 28), ps, version='Fashion')
>>
    [view_classify] draws the image and the probabilities; here it
    prints the probabilities. *)
Definition part5_inference {OptState} (s : Part5.Sample)
  : M Part5.Sample OptState (list (list R)) :=
  bind model_eval (fun _ =>
  bind (lift (view_1_784 (fst s))) (fun img =>
  bind (no_grad (model_call Part5.model_dropout [(img, snd s)])) (fun output =>
  let ps := torch_exp (out_value output) in
  bind (print (concat ps)) (fun _ =>
  ret ps)))).

(** * Properties *)

(** ** Sums, exponentials and lists *)

Lemma rbind_Ok {A B} (a : A) (k : A -> result B) : rbind (Ok a) k = k a.
Proof. reflexivity. Qed.

Lemma Rsum_cons (a : R) (l : list R) : Rsum (a :: l) = a + Rsum l.
Proof. reflexivity. Qed.

Lemma Rsum_repeat (c : R) (n : nat) : Rsum (repeat c n) = INR n * c.
Proof.
  induction n as [|n IH].
  - simpl. ring.
  - rewrite S_INR. cbn [repeat]. rewrite Rsum_cons, IH. ring.
Qed.

Lemma Rsum_app (l1 l2 : list R) : Rsum (l1 ++ l2) = Rsum l1 + Rsum l2.
Proof.
  induction l1 as [|a l1 IH]; cbn [app].
  - cbn. ring.
  - rewrite !Rsum_cons, IH. ring.
Qed.

Lemma Rsum_exp_pos (row : list R) : row <> [] -> 0 < Rsum (map exp row).
Proof.
  destruct row as [|v row]; [congruence|intros _].
  revert v. induction row as [|u row IH]; intro v; cbn [map].
  - rewrite Rsum_cons. cbn. pose proof (exp_pos v). lra.
  - rewrite Rsum_cons. pose proof (exp_pos v). specialize (IH u).
    cbn [map] in IH. lra.
Qed.

Lemma Rsum_map_scale (c : R) (l : list R) :
  Rsum (map (fun v => v * c) l) = Rsum l * c.
Proof.
  induction l as [|a l IH]; cbn [map].
  - cbn. ring.
  - rewrite !Rsum_cons, IH. ring.
Qed.

(** The exponentials of a log-softmax row add up to one. *)
Lemma log_softmax_row_normalised (row : list R) :
  row <> [] -> Rsum (map exp (log_softmax_row row)) = 1.
Proof.
  intro Hne. unfold log_softmax_row.
  pose proof (Rsum_exp_pos row Hne) as Hpos.
  set (s := Rsum (map exp row)) in *.
  rewrite map_map.
  rewrite (map_ext (fun v => exp (v - ln s)) (fun v => exp v * / s)).
  - rewrite <- (map_map exp (fun e => e * / s)).
    rewrite Rsum_map_scale. fold s. field. lra.
  - intro v. unfold Rminus. rewrite exp_plus, exp_Ropp, exp_ln by exact Hpos.
    reflexivity.
Qed.

Lemma map_combine_repeat {A B C} (f : A * B -> C) (a : A) (b : B) (n : nat) :
  map f (combine (repeat a n) (repeat b n)) = repeat (f (a, b)) n.
Proof. induction n as [|n IH]; simpl; [reflexivity|now rewrite IH]. Qed.

Lemma map_repeat {A B} (f : A -> B) (a : A) (n : nat) :
  map f (repeat a n) = repeat (f a) n.
Proof. induction n as [|n IH]; simpl; [reflexivity|now rewrite IH]. Qed.

Lemma dot_zero_l (n : nat) (x : list R) : dot (repeat 0 n) x = 0.
Proof.
  unfold dot. revert x.
  induction n as [|n IH]; intros [|v x]; cbn [repeat combine map]; try reflexivity.
  rewrite Rsum_cons, IH. cbn. ring.
Qed.

Lemma rmap_Ok_all {A B} (f : A -> result B) (g : A -> B) (l : list A) :
  Forall (fun a => f a = Ok (g a)) l -> rmap f l = Ok (map g l).
Proof.
  induction 1 as [|a l Ha _ IH]; simpl; [reflexivity|].
  now rewrite Ha, IH.
Qed.

(** ** The networks *)

Section ZeroWeights.

Lemma zero_Linear_row (i o : nat) (x : list R) :
  length x = i -> Net.Linear_row (Net.zero_Linear i o) x = Ok (repeat 0 o).
Proof.
  intro Hlen. unfold Net.Linear_row, Net.zero_Linear.
  cbn [Net.in_features Net.weight Net.bias].
  rewrite Hlen, Nat.eqb_refl. f_equal.
  rewrite map_combine_repeat. cbn [fst snd]. rewrite dot_zero_l.
  now replace (0 + 0) with 0 by ring.
Qed.

Lemma zero_Linear_call (i o : nat) (x : list (list R)) :
  Forall (fun row => length row = i) x ->
  Net.Linear_call (Net.zero_Linear i o) x = Ok (map (fun _ => repeat 0 o) x).
Proof.
  intro Hx. apply rmap_Ok_all.
  eapply Forall_impl; [|exact Hx]. intros row Hrow. now apply zero_Linear_row.
Qed.

Lemma relu_zero_rows {A} (o : nat) (x : list A) :
  relu (map (fun _ => repeat 0 o) x) = map (fun _ => repeat 0 o) x.
Proof.
  unfold relu. rewrite map_map. apply map_ext. intros _.
  rewrite map_repeat. f_equal. apply Rmax_left. lra.
Qed.

Lemma zero_rows_width {A} (o : nat) (x : list A) :
  Forall (fun row => length row = o) (map (fun _ : A => repeat 0 o) x).
Proof. apply Forall_map, Forall_forall. intros _ _. apply repeat_length. Qed.

(** With all weights and biases zero, every logit is zero. *)
Lemma zero_logits (n_in h1 h2 n_out : nat) (images : list (list R)) :
  Forall (fun row => length row = n_in) images ->
  Net.Sequential
    (Net.logits_model (Net.zero_Linear n_in h1) (Net.zero_Linear h1 h2)
                      (Net.zero_Linear h2 n_out)) images
  = Ok (map (fun _ => repeat 0 n_out) images).
Proof.
  intro Himg. unfold Net.logits_model.
  cbn [Net.Sequential Net.module_call].
  rewrite (zero_Linear_call _ _ _ Himg), rbind_Ok. cbn [rbind].
  rewrite relu_zero_rows.
  rewrite (zero_Linear_call h1 h2) by apply zero_rows_width.
  cbn [rbind]. rewrite map_map, relu_zero_rows.
  rewrite (zero_Linear_call h2 n_out) by apply zero_rows_width.
  cbn [rbind]. now rewrite map_map.
Qed.

Lemma Sequential_app (ms1 ms2 : list Net.module) (x : list (list R)) :
  Net.Sequential (ms1 ++ ms2) x = rbind (Net.Sequential ms1 x) (Net.Sequential ms2).
Proof.
  revert x. induction ms1 as [|m ms1 IH]; intro x; cbn [app Net.Sequential].
  - reflexivity.
  - destruct (Net.module_call m x) as [y|e]; cbn [rbind]; [apply IH|reflexivity].
Qed.

(** The exercise's network is the first network followed by log-softmax. *)
Lemma logsoftmax_model_split (l1 l2 l3 : Net.Linear) (x : list (list R)) :
  Net.Sequential (Net.logsoftmax_model l1 l2 l3) x
  = rbind (Net.Sequential (Net.logits_model l1 l2 l3) x) (fun h => Ok (log_softmax h)).
Proof.
  change (Net.logsoftmax_model l1 l2 l3)
    with (Net.logits_model l1 l2 l3 ++ [Net.LogSoftmax]).
  rewrite Sequential_app.
  destruct (Net.Sequential (Net.logits_model l1 l2 l3) x); reflexivity.
Qed.

Lemma gather_constant_rows {A} (row : list R) (c : R) (xs : list A) (labels : list nat) :
  length xs = length labels ->
  Forall (fun y => nth_error row y = Some c) labels ->
  Net.gather (map (fun _ => row) xs) labels = Ok (repeat c (length labels)).
Proof.
  revert labels. induction xs as [|x xs IH]; intros [|y ys] Hlen Hys;
    cbn [map Net.gather length repeat]; try discriminate; [reflexivity|].
  inversion Hys as [|? ? Hy Hys']; subst.
  rewrite Hy. cbn [of_option rbind].
  rewrite IH by (cbn in Hlen; congruence || assumption). reflexivity.
Qed.

(** The loss of a batch whose rows all carry the same log-probability at
    the label is that log-probability, negated. *)
Lemma NLLLoss_constant_rows {A} (row : list R) (c : R) (xs : list A) (labels : list nat) :
  labels <> [] ->
  length xs = length labels ->
  Forall (fun y => nth_error row y = Some c) labels ->
  Net.NLLLoss (map (fun _ => row) xs) labels = Ok (- c).
Proof.
  intros Hne Hlen Hys. unfold Net.NLLLoss.
  rewrite (gather_constant_rows row c xs labels Hlen Hys). cbn [rbind].
  destruct labels as [|y ys]; [congruence|].
  cbn [length repeat]. f_equal.
  change (c :: repeat c (length ys)) with (repeat c (S (length ys))).
  rewrite Rsum_repeat, repeat_length.
  field. apply not_0_INR. discriminate.
Qed.

Lemma uniform_two_classes (y : nat) :
  (y < 2)%nat ->
  nth_error (log_softmax_row (repeat 0 2)) y = Some (- ln 2).
Proof.
  intro Hy. unfold log_softmax_row. cbn [repeat map].
  rewrite !Rsum_cons. cbn [Rsum fold_right]. rewrite exp_0.
  replace (1 + (1 + 0)) with 2 by ring.
  replace (0 - ln 2) with (- ln 2) by ring.
  destruct y as [|[|y]]; [reflexivity|reflexivity|lia].
Qed.

End ZeroWeights.

(** C8.  A network of Part 3's shape with two output classes whose
    weights and biases are all zero has loss ln 2 on every batch of four
    samples, before any update: both as the log-softmax network under
    [NLLLoss] and as the logits network under [CrossEntropyLoss]. *)
Theorem zero_model_initial_loss_ln2 :
  forall (n_in h1 h2 : nat) (images : list (list R)) (labels : list nat),
    length images = 4%nat ->
    length labels = 4%nat ->
    Forall (fun row => length row = n_in) images ->
    Forall (fun y => (y < 2)%nat) labels ->
    rbind (Net.Sequential
             (Net.logsoftmax_model (Net.zero_Linear n_in h1) (Net.zero_Linear h1 h2)
                                   (Net.zero_Linear h2 2)) images)
          (fun log_ps => Net.NLLLoss log_ps labels) = Ok (ln 2)
    /\ rbind (Net.Sequential
                (Net.logits_model (Net.zero_Linear n_in h1) (Net.zero_Linear h1 h2)
                                  (Net.zero_Linear h2 2)) images)
             (fun logits => Net.CrossEntropyLoss logits labels) = Ok (ln 2).
Proof.
  intros n_in h1 h2 images labels Hi Hl Hw Hy.
  assert (Hloss : Net.NLLLoss (log_softmax (map (fun _ => repeat 0 2) images)) labels
                  = Ok (ln 2)).
  { unfold log_softmax. rewrite map_map.
    rewrite (NLLLoss_constant_rows (log_softmax_row (repeat 0 2)) (- ln 2)).
    - f_equal. ring.
    - destruct labels; [discriminate|congruence].
    - congruence.
    - eapply Forall_impl; [|exact Hy]. intros y. apply uniform_two_classes. }
  split.
  - rewrite logsoftmax_model_split, (zero_logits _ _ _ _ _ Hw). exact Hloss.
  - rewrite (zero_logits _ _ _ _ _ Hw). exact Hloss.
Qed.

Lemma zero_model_initial_loss_ln2_witness :
  rbind (Net.Sequential
           (Net.logsoftmax_model (Net.zero_Linear 1 3) (Net.zero_Linear 3 2)
                                 (Net.zero_Linear 2 2)) [[1]; [2]; [3]; [4]])
        (fun log_ps => Net.NLLLoss log_ps [0; 1; 1; 0]%nat) = Ok (ln 2)
  /\ rbind (Net.Sequential
              (Net.logits_model (Net.zero_Linear 1 3) (Net.zero_Linear 3 2)
                                (Net.zero_Linear 2 2)) [[1]; [2]; [3]; [4]])
           (fun logits => Net.CrossEntropyLoss logits [0; 1; 1; 0]%nat) = Ok (ln 2).
Proof.
  apply (zero_model_initial_loss_ln2 1 3 2 [[1]; [2]; [3]; [4]] [0; 1; 1; 0]%nat).
  - reflexivity.
  - reflexivity.
  - repeat constructor.
  - repeat constructor.
Defined.

(** ** Dropout *)

Lemma Dropout_eval (p : R) (keep : Net.mask) (x : list (list R)) :
  Net.Dropout p false keep x = x.
Proof. reflexivity. Qed.

Lemma log_softmax_rows_normalised (h : list (list R)) :
  Forall (fun row => row = [] \/ Rsum (map exp row) = 1) (log_softmax h).
Proof.
  unfold log_softmax. apply Forall_map, Forall_forall. intros row _.
  destruct row as [|v row]; [left; reflexivity|right].
  apply log_softmax_row_normalised. discriminate.
Qed.

Lemma forward_dropout_eval (m : Part5.Classifier) (keep1 keep2 keep3 : Net.mask)
    (x : list Image) :
  Part5.forward_dropout m false keep1 keep2 keep3 x = Part5.forward m x.
Proof.
  unfold Part5.forward_dropout, Part5.forward.
  destruct (Net.Linear_call (Part5.fc1 m) (view_flat x)) as [h1|e]; [|reflexivity].
  cbn [rbind]. rewrite Dropout_eval.
  destruct (Net.Linear_call (Part5.fc2 m) (relu h1)) as [h2|e]; [|reflexivity].
  cbn [rbind]. rewrite Dropout_eval.
  destruct (Net.Linear_call (Part5.fc3 m) (relu h2)) as [h3|e]; [|reflexivity].
  cbn [rbind]. rewrite Dropout_eval. reflexivity.
Qed.

(** ** The accuracy of one batch *)

Lemma batch_equals_is_byte (ps : list (list R)) (labels : list nat) (t : tensor) :
  batch_equals ps labels = Ok t -> exists l, t = ByteTensor l.
Proof.
  unfold batch_equals, equals_view.
  destruct (topk1 ps) as [top|e]; cbn [rbind]; [|discriminate].
  destruct (Nat.eqb _ _); [|discriminate].
  intro H. inversion H. eauto.
Qed.

(** C9.  The match indicator of a batch is a byte tensor, and [torch.mean]
    of it raises; after [type(torch.FloatTensor)] the mean is the
    fraction of ones (of a batch that is not empty).  The accuracy code
    converts first, so it never raises that error; a failure of the
    steps before the mean is passed on as it is. *)
Theorem mean_of_indicator_needs_conversion :
  forall (ps : list (list R)) (labels : list nat),
    batch_accuracy ps labels <> Raise MeanNotImplemented
    /\ match batch_equals ps labels with
       | Ok equals =>
           torch_mean equals = Raise MeanNotImplemented
           /\ batch_accuracy_unconverted ps labels = Raise MeanNotImplemented
           /\ exists l, equals = ByteTensor l
              /\ batch_accuracy ps labels
                 = match l with
                   | [] => Raise NanValue
                   | _ => Ok (Rsum (map b2R l) / INR (length l))
                   end
       | Raise e =>
           batch_accuracy ps labels = Raise e
           /\ e <> MeanNotImplemented
       end.
Proof.
  intros ps labels.
  assert (Hmatch :
    match batch_equals ps labels with
    | Ok equals =>
        torch_mean equals = Raise MeanNotImplemented
        /\ batch_accuracy_unconverted ps labels = Raise MeanNotImplemented
        /\ exists l, equals = ByteTensor l
           /\ batch_accuracy ps labels
              = match l with
                | [] => Raise NanValue
                | _ => Ok (Rsum (map b2R l) / INR (length l))
                end
    | Raise e => batch_accuracy ps labels = Raise e /\ e <> MeanNotImplemented
    end).
  { unfold batch_accuracy, batch_accuracy_unconverted.
    destruct (batch_equals ps labels) as [t|e] eqn:Heq; cbn [rbind].
    - destruct (batch_equals_is_byte _ _ _ Heq) as [l ->].
      split; [reflexivity|]. split; [reflexivity|].
      exists l. split; [reflexivity|].
      cbn [type_FloatTensor torch_mean].
      destruct l as [|b l]; [reflexivity|].
      cbn [map length]. now rewrite length_map.
    - split; [reflexivity|].
      unfold batch_equals, equals_view in Heq.
      destruct (topk1 ps) as [top|e'] eqn:Htop; cbn [rbind] in Heq.
      + destruct (Nat.eqb _ _); inversion Heq; discriminate.
      + inversion Heq; subst e'.
        unfold topk1 in Htop.
        destruct (rmap topk1_row ps) as [tops|e''] eqn:Hr; cbn [rbind] in Htop;
          [discriminate|]. inversion Htop; subst e''.
        clear -Hr. revert Hr. induction ps as [|row ps IH]; cbn [rmap]; [discriminate|].
        destruct row as [|v row]; cbn [topk1_row rbind].
        * intro H; inversion H; discriminate.
        * destruct (rmap topk1_row ps); cbn [rbind]; [discriminate|].
          intro H; apply IH; exact H. }
  split; [|exact Hmatch].
  destruct (batch_equals ps labels) as [t|e].
  - destruct Hmatch as (_ & _ & l & _ & ->). destruct l; discriminate.
  - destruct Hmatch as [-> Hne]. congruence.
Qed.

(** ** The optimizers *)

Section OptimizerSteps.

Lemma nth_error_mapi_from {A B} (f : nat -> A -> B) (k : nat) (l : list A) (i : nat) :
  nth_error (Net.mapi_from f k l) i = option_map (f (k + i)%nat) (nth_error l i).
Proof.
  revert k i. induction l as [|a l IH]; intros k [|i]; cbn [Net.mapi_from nth_error option_map];
    try reflexivity.
  - now rewrite Nat.add_0_r.
  - rewrite IH. now rewrite Nat.add_succ_comm.
Qed.

Lemma length_mapi_from {A B} (f : nat -> A -> B) (k : nat) (l : list A) :
  length (Net.mapi_from f k l) = length l.
Proof. revert k. induction l as [|a l IH]; intro k; cbn; [reflexivity|now rewrite IH]. Qed.

Lemma SGD_step_nth (lr : R) (params : list Param) (i : nat) (p : Param) (g : R) :
  nth_error params i = Some p -> grad p = Some g ->
  nth_error (snd (Optim.SGD_step lr tt params)) i = Some (set_data p (data p - lr * g)).
Proof.
  intros Hp Hg. unfold Optim.SGD_step. cbn [snd].
  rewrite nth_error_map, Hp. cbn [option_map]. now rewrite Hg.
Qed.

Lemma Adam_step_nth (lr : R) (st : nat -> Optim.adam_entry) (params : list Param)
    (i : nat) (p : Param) (g : R) :
  nth_error params i = Some p -> grad p = Some g ->
  nth_error (snd (Optim.Adam_step lr st params)) i
  = Some (Optim.adam_update lr (Optim.adam_moments (st i) g) p)
  /\ fst (Optim.Adam_step lr st params) i = Optim.adam_moments (st i) g.
Proof.
  intros Hp Hg. unfold Optim.Adam_step. cbn [fst snd]. split.
  - rewrite nth_error_mapi_from, Hp. cbn [option_map Nat.add]. now rewrite Hg.
  - now rewrite Hp, Hg.
Qed.

Lemma pow_below_one (b : R) (n : nat) : 0 <= b < 1 -> 0 <= b ^ n <= 1 /\ b ^ S n < 1.
Proof.
  intro Hb. induction n as [|n [IH1 IH2]].
  - cbn. lra.
  - split.
    + cbn [pow]. cbn [pow] in IH2. nra.
    + cbn [pow] in *. nra.
Qed.

(** The denominators of Adam's update are not zero. *)
Lemma adam_denominators (e : Optim.adam_entry) (g : R) :
  1 - Optim.beta1 ^ Optim.step (Optim.adam_moments e g) <> 0
  /\ 0 < sqrt (Optim.exp_avg_sq (Optim.adam_moments e g)
              / (1 - Optim.beta2 ^ Optim.step (Optim.adam_moments e g))) + Optim.eps.
Proof.
  split.
  - cbn [Optim.adam_moments Optim.step].
    assert (H : 0 <= Optim.beta1 < 1) by (unfold Optim.beta1; lra).
    destruct (pow_below_one _ (Optim.step e) H) as [_ Hlt]. lra.
  - match goal with |- 0 < sqrt ?x + _ => pose proof (sqrt_pos x) as Hs end.
    assert (He : 0 < Optim.eps) by (unfold Optim.eps; lra).
    lra.
Qed.

Lemma adam_direction_zero_iff (e : Optim.adam_entry) (g : R) :
  Optim.adam_direction (Optim.adam_moments e g) = 0
  <-> Optim.exp_avg (Optim.adam_moments e g) = 0.
Proof.
  destruct (adam_denominators e g) as [Hb Hd].
  unfold Optim.adam_direction.
  set (m := Optim.exp_avg (Optim.adam_moments e g)) in *.
  set (b := 1 - Optim.beta1 ^ Optim.step (Optim.adam_moments e g)) in *.
  set (d := sqrt _ + Optim.eps) in *.
  split; intro H.
  - assert (Hm : m = (m / b / d) * (b * d)) by (field; split; lra).
    rewrite Hm, H. ring.
  - rewrite H. unfold Rdiv. ring.
Qed.

Lemma adam_first_moment_first_step (g : R) :
  Optim.exp_avg (Optim.adam_moments Optim.adam_zero g) = g / 10.
Proof.
  cbn [Optim.adam_moments Optim.exp_avg Optim.adam_zero]. unfold Optim.beta1. field.
Qed.

End OptimizerSteps.

(** C7, as the optimizers have it.  A parameter entry whose buffer holds
    the gradient [g] moves, in one step, by the learning rate times an
    amount the learning rate has no part in.  For SGD the amount is [- g]:
    the entry changes by exactly [- lr * g], which is not zero when [g] is
    not.  For Adam the amount is the bias-corrected first moment over the
    root of the second: the entry changes exactly when the first moment
    just updated is not zero, which is so on the first step of a gradient
    that is not zero. *)
Theorem optimizer_step_moves_parameter :
  forall (params : list Param) (i : nat) (p : Param) (g : R),
    nth_error params i = Some p ->
    grad p = Some g ->
    (forall lr,
        exists p', nth_error (snd (Optim.SGD_step lr tt params)) i = Some p'
                   /\ data p' - data p = lr * (- g))
    /\ (g <> 0 ->
        forall lr, lr = Part3.lr_single_step \/ lr = Part3.lr ->
        exists p', nth_error (snd (Optim.SGD_step lr tt params)) i = Some p'
                   /\ data p' <> data p)
    /\ (forall lr st,
        exists p', nth_error (snd (Optim.Adam_step lr st params)) i = Some p'
                   /\ data p' - data p
                      = lr * (- Optim.adam_direction (Optim.adam_moments (st i) g))
                   /\ (data p' <> data p
                       <-> lr <> 0 /\ Optim.exp_avg (Optim.adam_moments (st i) g) <> 0))
    /\ (g <> 0 ->
        exists p', nth_error (snd (Optim.Adam_step Part5.lr Optim.Adam_init params)) i
                   = Some p'
                   /\ data p' <> data p).
Proof.
  intros params i p g Hp Hg.
  assert (HAdam : forall lr st,
    exists p', nth_error (snd (Optim.Adam_step lr st params)) i = Some p'
               /\ data p' - data p
                  = lr * (- Optim.adam_direction (Optim.adam_moments (st i) g))
               /\ (data p' <> data p
                   <-> lr <> 0 /\ Optim.exp_avg (Optim.adam_moments (st i) g) <> 0)).
  { intros lr st.
    destruct (Adam_step_nth lr st params i p g Hp Hg) as [Hn _].
    eexists. split; [exact Hn|].
    unfold Optim.adam_update, set_data. cbn [data].
    pose proof (adam_direction_zero_iff (st i) g) as Hz.
    set (dir := Optim.adam_direction (Optim.adam_moments (st i) g)) in *.
    split; [ring|]. split.
    - intro Hne. split.
      + intro Hlr. apply Hne. rewrite Hlr. ring.
      + intro Hm. apply Hne. apply Hz in Hm. rewrite Hm. ring.
    - intros [Hlr Hm] Heq.
      assert (Hprod : lr * dir = 0) by lra.
      apply Rmult_integral in Hprod. destruct Hprod as [H|H]; [tauto|].
      apply Hz in H. tauto. }
  split; [|split; [|split]].
  - intro lr. eexists. split; [apply (SGD_step_nth lr params i p g Hp Hg)|].
    unfold set_data. cbn [data]. ring.
  - intros Hgne lr Hlr. eexists. split; [apply (SGD_step_nth lr params i p g Hp Hg)|].
    unfold set_data. cbn [data]. intro Heq.
    assert (Hprod : lr * g = 0) by lra.
    apply Rmult_integral in Hprod.
    destruct Hprod as [H0|H0]; [|contradiction].
    destruct Hlr as [->| ->]; unfold Part3.lr_single_step, Part3.lr in H0; lra.
  - exact HAdam.
  - intro Hgne. destruct (HAdam Part5.lr Optim.Adam_init) as (p' & Hn & _ & Hiff).
    exists p'. split; [exact Hn|]. apply Hiff. split.
    + unfold Part5.lr. lra.
    + unfold Optim.Adam_init. rewrite adam_first_moment_first_step. lra.
Qed.

Lemma optimizer_step_moves_parameter_witness :
  (exists p', nth_error (snd (Optim.SGD_step Part3.lr tt [mkParam 1 (Some 2)])) 0 = Some p'
              /\ data p' <> data (mkParam 1 (Some 2)))
  /\ (exists p', nth_error (snd (Optim.Adam_step Part5.lr Optim.Adam_init
                                                 [mkParam 1 (Some 2)])) 0 = Some p'
                 /\ data p' <> data (mkParam 1 (Some 2))).
Proof.
  destruct (optimizer_step_moves_parameter [mkParam 1 (Some 2)] 0 (mkParam 1 (Some 2)) 2
              eq_refl eq_refl) as (_ & Hsgd & _ & Hadam).
  split; [apply Hsgd; [lra|right; reflexivity]|apply Hadam; lra].
Defined.

(** C7, as stated, fails for Adam.  The first batch leaves the gradient 1
    in the buffer of an entry, the second batch (after [zero_grad] and the
    backward pass) the gradient -9/10.  Adam's second step finds the first
    moment back at zero and leaves the entry where it was, although the
    gradient in its buffer is not zero. *)
Lemma adam_step_leaves_parameter_with_gradient :
  let after1 := Optim.Adam_step Part5.lr Optim.Adam_init [mkParam 0 (Some 1)] in
  let batch2 := accumulate_grad (fun _ => - (9 / 10)) (Optim.zero_grad (snd after1)) in
  let after2 := Optim.Adam_step Part5.lr (fst after1) batch2 in
  (exists g, map grad batch2 = [Some g] /\ g <> 0)
  /\ map data (snd after2) = map data batch2.
Proof.
  cbv zeta. split.
  - eexists. split; [reflexivity|]. lra.
  - cbn [Optim.Adam_step snd fst Net.mapi_from Optim.zero_grad map accumulate_grad
         grad data nth_error Optim.Adam_init Optim.adam_update set_data].
    f_equal.
    match goal with
    | |- ?d - _ * Optim.adam_direction ?e = _ =>
        assert (Hdir : Optim.adam_direction e = 0)
    end.
    { apply adam_direction_zero_iff.
      cbn [Optim.adam_moments Optim.exp_avg].
      unfold Optim.Adam_init, Optim.adam_zero, Optim.beta1.
      cbn [Optim.exp_avg]. field. }
    rewrite Hdir. ring.
Qed.

(** ** Running the loops *)

Section LoopProperties.

Context {Sample : Type}.
Variable forward : list R -> bool -> list Sample -> result (list (list R)).
Variable autograd : list R -> bool -> list Sample -> list nat -> nat -> R.
Context {OptState : Type}.
Variable opt_step : OptState -> list Param -> OptState * list Param.

Local Notation "'W'" := (world Sample OptState).

Lemma data_zero_grad (ps : list Param) : map data (Optim.zero_grad ps) = map data ps.
Proof. unfold Optim.zero_grad. rewrite map_map. reflexivity. Qed.

Lemma zero_grad_emptied (ps : list Param) :
  Forall emptied (map grad (Optim.zero_grad ps)).
Proof.
  unfold Optim.zero_grad. rewrite map_map. apply Forall_map, Forall_forall.
  intros p _. cbn [grad]. destruct (grad p); [right|left]; reflexivity.
Qed.

(** What one training batch does, outcome by outcome. *)
Lemma train_batch_run (rl : R) (images : list Sample) (labels : list nat) (w : W) :
  let d := map data (params w) in
  let zeroed := Optim.zero_grad (params w) in
  let t0 := trace w ++ [EvZeroGrad; EvForward (training w) (grad_enabled w) images] in
  train_batch forward autograd opt_step rl (images, labels) w =
  match forward d (training w) images with
  | Raise e =>
      (Raise e, mkWorld zeroed (opt_state w) (training w) (grad_enabled w) t0)
  | Ok out =>
      match Net.NLLLoss out labels with
      | Raise e =>
          (Raise e, mkWorld zeroed (opt_state w) (training w) (grad_enabled w)
                            (t0 ++ [EvLoss labels]))
      | Ok l =>
          if grad_enabled w
          then
            let stepped :=
              opt_step (opt_state w)
                       (accumulate_grad (autograd d (training w) images labels) zeroed) in
            (Ok (rl + l),
             mkWorld (snd stepped) (fst stepped) (training w) true
                     (t0 ++ [EvLoss labels; EvBackward (map grad zeroed); EvStep;
                             EvAccumulate l]))
          else
            (Raise NoGradFn,
             mkWorld zeroed (opt_state w) (training w) (grad_enabled w)
                     (t0 ++ [EvLoss labels]))
      end
  end.
Proof.
  cbv zeta.
  unfold train_batch, optimizer_zero_grad, model_call, criterion_call, loss_backward,
    optimizer_step, bind, emit, lift, ret, raise, set_params.
  cbn [params opt_state training grad_enabled trace out_value out_graph item grad_fn].
  rewrite data_zero_grad.
  destruct (forward (map data (params w)) (training w) images) as [out|e].
  2:{ now rewrite <- app_assoc. }
  destruct (grad_enabled w) eqn:Hg;
    cbn [out_value out_graph];
    destruct (Net.NLLLoss out labels) as [l|e];
    cbn [item grad_fn params opt_state training grad_enabled trace].
  - destruct (opt_step _ _) as [st ps].
    cbn [fst snd params opt_state training grad_enabled trace].
    repeat rewrite <- app_assoc. reflexivity.
  - repeat rewrite <- app_assoc. reflexivity.
  - repeat rewrite <- app_assoc. reflexivity.
  - repeat rewrite <- app_assoc. reflexivity.
Qed.

Lemma logged_nil (w : W) : logged [] w = w.
Proof. destruct w. unfold logged. cbn. now rewrite app_nil_r. Qed.

Lemma logged_logged (e1 e2 : list (event Sample)) (w : W) :
  logged e2 (logged e1 w) = logged (e1 ++ e2) w.
Proof. unfold logged. cbn. now rewrite app_assoc. Qed.

(** What one batch of the validation loops does. *)
Lemma validation_batch_17_run (tl acc : R) (images : list Sample) (labels : list nat)
    (w : W) :
  let fw := EvForward (training w) (grad_enabled w) images in
  validation_batch_17 forward autograd (tl, acc) (images, labels) w =
  match forward (map data (params w)) (training w) images with
  | Raise e => (Raise e, logged [fw] w)
  | Ok out =>
      match Net.NLLLoss out labels with
      | Raise e => (Raise e, logged [fw; EvLoss labels] w)
      | Ok l =>
          match batch_accuracy (torch_exp out) labels with
          | Raise e => (Raise e, logged [fw; EvLoss labels] w)
          | Ok a => (Ok (tl + l, acc + a), logged [fw; EvLoss labels] w)
          end
      end
  end.
Proof.
  cbv zeta.
  unfold validation_batch_17, model_call, criterion_call, bind, emit, lift, ret, logged.
  cbn [params opt_state training grad_enabled trace out_value out_graph item grad_fn].
  destruct (forward _ _ _) as [out|e]; [|reflexivity].
  cbn [out_value]. destruct (Net.NLLLoss out labels) as [l|e];
    cbn [item params opt_state training grad_enabled trace];
    [|now rewrite <- app_assoc].
  destruct (batch_accuracy _ _);
    cbn [params opt_state training grad_enabled trace]; now rewrite <- app_assoc.
Qed.

Lemma validation_batch_13_run (acc0 : option R) (images : list Sample)
    (labels : list nat) (w : W) :
  let fw := EvForward (training w) (grad_enabled w) images in
  validation_batch_13 forward acc0 (images, labels) w =
  match forward (map data (params w)) (training w) images with
  | Raise e => (Raise e, logged [fw] w)
  | Ok out =>
      match batch_accuracy (torch_exp out) labels with
      | Raise e => (Raise e, logged [fw] w)
      | Ok a => (Ok (Some a), logged [fw] w)
      end
  end.
Proof.
  cbv zeta.
  unfold validation_batch_13, model_call, bind, emit, lift, ret, logged.
  cbn [params opt_state training grad_enabled trace out_value out_graph].
  destruct (forward _ _ _) as [out|e]; [|reflexivity].
  cbn [out_value]. destruct (batch_accuracy _ _); reflexivity.
Qed.

(** *** Relations every step of a loop keeps *)

Section Keeping.

Variable I : W -> W -> Prop.
Hypothesis I_refl : forall w, I w w.
Hypothesis I_trans : forall w1 w2 w3, I w1 w2 -> I w2 w3 -> I w1 w3.

Lemma keeps_ret {A} (a : A) : keeps I (ret a).
Proof. intro w. apply I_refl. Qed.

Lemma keeps_raise {A} (e : exn) : keeps I (@raise Sample OptState A e).
Proof. intro w. apply I_refl. Qed.

Lemma keeps_lift {A} (r : result A) : keeps I (lift r).
Proof. intro w. apply I_refl. Qed.

Lemma keeps_bind {A B} (c : M Sample OptState A) (k : A -> M Sample OptState B) :
  keeps I c -> (forall a, keeps I (k a)) -> keeps I (bind c k).
Proof.
  intros Hc Hk w. unfold bind. specialize (Hc w).
  destruct (c w) as [[a|e] w1]; cbn [snd] in *.
  - eapply I_trans; [exact Hc|apply Hk].
  - exact Hc.
Qed.

Lemma keeps_for_each {A B} (l : list A) (body : B -> A -> M Sample OptState B) :
  (forall acc a, keeps I (body acc a)) ->
  forall acc, keeps I (for_each l body acc).
Proof.
  intro Hbody. induction l as [|a l IH]; intro acc; cbn [for_each].
  - apply keeps_ret.
  - apply keeps_bind; [apply Hbody|]. intro acc'. apply IH.
Qed.

End Keeping.

(** *** The validation loops *)

Lemma validation_loop_17_run (loader : list (list Sample * list nat)) :
  forall (acc : R * R) (w w' : W) (r : result (R * R)),
    for_each loader (validation_batch_17 forward autograd) acc w = (r, w') ->
    exists evs,
      w' = logged evs w
      /\ Forall (pass_event (training w) (grad_enabled w)) evs
      /\ (forall v, r = Ok v ->
          evs = flat_map (pass_events_17 (training w) (grad_enabled w)) loader).
Proof.
  induction loader as [|[images labels] loader IH]; intros [tl a] w w' r Hrun.
  - cbn [for_each] in Hrun. unfold ret in Hrun. inversion Hrun; subst.
    exists []. rewrite logged_nil. repeat split. constructor.
  - cbn [for_each] in Hrun. unfold bind in Hrun.
    rewrite validation_batch_17_run in Hrun.
    destruct (forward _ _ _) as [out|e].
    2:{ inversion Hrun; subst. eexists. split; [reflexivity|].
        split; [repeat constructor|discriminate]. }
    destruct (Net.NLLLoss out labels) as [l|e].
    2:{ inversion Hrun; subst. eexists. split; [reflexivity|].
        split; [repeat constructor|discriminate]. }
    destruct (batch_accuracy _ _) as [b|e].
    2:{ inversion Hrun; subst. eexists. split; [reflexivity|].
        split; [repeat constructor|discriminate]. }
    destruct (IH _ _ _ _ Hrun) as (evs & Hw & Hev & Hok).
    cbn [training grad_enabled logged] in Hev, Hok.
    eexists. split; [rewrite Hw; apply logged_logged|]. split.
    + apply Forall_app. split; [repeat constructor|exact Hev].
    + intros v Hv. cbn [flat_map]. rewrite (Hok v Hv). reflexivity.
Qed.

Lemma validation_loop_13_run (loader : list (list Sample * list nat)) :
  forall (acc : option R) (w w' : W) (r : result (option R)),
    for_each loader (validation_batch_13 forward) acc w = (r, w') ->
    exists evs,
      w' = logged evs w
      /\ Forall (pass_event (training w) (grad_enabled w)) evs
      /\ (forall v, r = Ok v ->
          evs = flat_map (pass_events_13 (training w) (grad_enabled w)) loader).
Proof.
  induction loader as [|[images labels] loader IH]; intros acc w w' r Hrun.
  - cbn [for_each] in Hrun. unfold ret in Hrun. inversion Hrun; subst.
    exists []. rewrite logged_nil. repeat split. constructor.
  - cbn [for_each] in Hrun. unfold bind in Hrun.
    rewrite validation_batch_13_run in Hrun.
    destruct (forward _ _ _) as [out|e].
    2:{ inversion Hrun; subst. eexists. split; [reflexivity|].
        split; [repeat constructor|discriminate]. }
    destruct (batch_accuracy _ _) as [b|e].
    2:{ inversion Hrun; subst. eexists. split; [reflexivity|].
        split; [repeat constructor|discriminate]. }
    destruct (IH _ _ _ _ Hrun) as (evs & Hw & Hev & Hok).
    cbn [training grad_enabled logged] in Hev, Hok.
    eexists. split; [rewrite Hw; apply logged_logged|]. split.
    + apply Forall_app. split; [repeat constructor|exact Hev].
    + intros v Hv. cbn [flat_map]. rewrite (Hok v Hv). reflexivity.
Qed.

(** The evaluation pass of the dropout cell, outcome by outcome: the
    model is put in evaluation mode, the batches are run without gradient
    tracking, and [model.train()] is reached when none of them raised. *)
Lemma validation_pass_17_run (testloader : list (list Sample * list nat)) (w : W) :
  let inside := mkWorld (params w) (opt_state w) false false (trace w ++ [EvEval]) in
  let run := for_each testloader (validation_batch_17 forward autograd) (0, 0) inside in
  exists middle,
    Forall (pass_event false false) middle
    /\ (forall r, fst run = Ok r -> middle = flat_map (pass_events_17 false false) testloader)
    /\ validation_pass_17 forward autograd testloader w
       = match fst run with
         | Ok r => (Ok r, mkWorld (params w) (opt_state w) true (grad_enabled w)
                                  (trace w ++ [EvEval] ++ middle ++ [EvTrain]))
         | Raise e => (Raise e, mkWorld (params w) (opt_state w) false (grad_enabled w)
                                        (trace w ++ [EvEval] ++ middle))
         end.
Proof.
  cbv zeta.
  destruct (for_each testloader _ _ _) as [r w3] eqn:Hrun.
  destruct (validation_loop_17_run _ _ _ _ _ Hrun) as (middle & Hw & Hev & Hok).
  cbn [training grad_enabled] in Hev, Hok.
  exists middle. split; [exact Hev|]. split; [exact Hok|].
  unfold validation_pass_17, no_grad.
  unfold bind at 1. unfold bind at 1.
  unfold model_eval at 1. unfold bind at 1, emit at 1, set_training, set_grad_enabled.
  cbn [params opt_state training grad_enabled trace].
  rewrite Hrun. cbn [fst]. subst w3. destruct r as [r|e].
  - unfold model_train, bind, emit, ret, set_training, logged.
    cbn [params opt_state training grad_enabled trace].
    now rewrite <- !app_assoc.
  - unfold logged. cbn [params opt_state training grad_enabled trace].
    now rewrite <- !app_assoc.
Qed.

(** The validation pass of the first training cell. *)
Lemma validation_pass_13_run (accuracy0 : option R)
    (testloader : list (list Sample * list nat)) (w : W) :
  let inside := mkWorld (params w) (opt_state w) (training w) false (trace w) in
  let run := for_each testloader (validation_batch_13 forward) accuracy0 inside in
  exists middle,
    Forall (pass_event (training w) false) middle
    /\ (forall r, fst run = Ok r ->
        middle = flat_map (pass_events_13 (training w) false) testloader)
    /\ validation_pass_13 forward accuracy0 testloader w
       = match fst run with
         | Ok (Some a) =>
             (Ok a, mkWorld (params w) (opt_state w) (training w) (grad_enabled w)
                            (trace w ++ middle ++ [EvPrint [a * 100]]))
         | Ok None =>
             (Raise NameError,
              mkWorld (params w) (opt_state w) (training w) (grad_enabled w)
                      (trace w ++ middle))
         | Raise e =>
             (Raise e, mkWorld (params w) (opt_state w) (training w) (grad_enabled w)
                               (trace w ++ middle))
         end.
Proof.
  cbv zeta.
  destruct (for_each testloader _ _ _) as [r w3] eqn:Hrun.
  destruct (validation_loop_13_run _ _ _ _ _ Hrun) as (middle & Hw & Hev & Hok).
  cbn [training grad_enabled] in Hev, Hok.
  exists middle. split; [exact Hev|]. split; [exact Hok|].
  unfold validation_pass_13, no_grad.
  unfold bind at 1. unfold set_grad_enabled.
  rewrite Hrun. cbn [fst]. subst w3. destruct r as [[a|]|e].
  - unfold print, bind, emit, ret, logged.
    cbn [params opt_state training grad_enabled trace].
    now rewrite <- !app_assoc.
  - unfold raise, logged. cbn [params opt_state training grad_enabled trace].
    reflexivity.
  - unfold logged. cbn [params opt_state training grad_enabled trace]. reflexivity.
Qed.

Lemma pass_event_no_gradient_work (t : bool) (e : event Sample) :
  pass_event t false e -> no_gradient_work e.
Proof. destruct e; cbn; tauto. Qed.

Lemma pass_events_no_gradient_work (t : bool) (evs : list (event Sample)) :
  Forall (pass_event t false) evs -> Forall no_gradient_work evs.
Proof. apply Forall_impl. apply pass_event_no_gradient_work. Qed.

Lemma validation_pass_17_frame (testloader : list (list Sample * list nat)) (w : W) :
  let w' := snd (validation_pass_17 forward autograd testloader w) in
  params w' = params w /\ opt_state w' = opt_state w
  /\ grad_enabled w' = grad_enabled w
  /\ exists new, trace w' = trace w ++ new /\ Forall no_gradient_work new.
Proof.
  cbv zeta.
  destruct (validation_pass_17_run testloader w) as (middle & Hev & _ & Heq).
  cbv zeta in Heq. rewrite Heq.
  apply pass_events_no_gradient_work in Hev.
  destruct (fst _) as [r|e]; cbn [snd params opt_state grad_enabled trace];
    repeat split; eexists; (split; [reflexivity|]).
  - apply Forall_app. split; [repeat constructor|].
    apply Forall_app. split; [exact Hev|repeat constructor].
  - apply Forall_app. split; [repeat constructor|exact Hev].
Qed.

Lemma validation_pass_13_frame (accuracy0 : option R)
    (testloader : list (list Sample * list nat)) (w : W) :
  let w' := snd (validation_pass_13 forward accuracy0 testloader w) in
  params w' = params w /\ opt_state w' = opt_state w
  /\ grad_enabled w' = grad_enabled w
  /\ exists new, trace w' = trace w ++ new /\ Forall no_gradient_work new.
Proof.
  cbv zeta.
  destruct (validation_pass_13_run accuracy0 testloader w) as (middle & Hev & _ & Heq).
  cbv zeta in Heq. rewrite Heq.
  apply pass_events_no_gradient_work in Hev.
  destruct (fst _) as [[a|]|e]; cbn [snd params opt_state grad_enabled trace];
    repeat split; eexists; (split; [reflexivity|]); try exact Hev.
  apply Forall_app. split; [exact Hev|repeat constructor].
Qed.

(** C5.  Whatever the model and the test batches, and however the pass
    ends, an evaluation pass (the one of the first training cell and the
    one of the dropout cell) leaves every parameter entry and every
    gradient buffer as it found them, and the optimizer too.  Every model
    call of the pass runs with gradient tracking off, nothing is zeroed,
    no backward pass and no optimizer step is made, and tracking is
    switched back to what it was. *)
Theorem evaluation_pass_leaves_parameters :
  forall (testloader : list (list Sample * list nat)) (accuracy0 : option R) (w : W),
    (let w' := snd (validation_pass_17 forward autograd testloader w) in
     params w' = params w /\ opt_state w' = opt_state w
     /\ grad_enabled w' = grad_enabled w
     /\ exists new, trace w' = trace w ++ new /\ Forall no_gradient_work new)
    /\ (let w' := snd (validation_pass_13 forward accuracy0 testloader w) in
        params w' = params w /\ opt_state w' = opt_state w
        /\ grad_enabled w' = grad_enabled w
        /\ exists new, trace w' = trace w ++ new /\ Forall no_gradient_work new).
Proof.
  intros testloader accuracy0 w. split.
  - apply validation_pass_17_frame.
  - apply validation_pass_13_frame.
Qed.

(** C6, as the dropout cell has it.  The pass calls [model.eval()] before
    the first test batch and runs every batch in evaluation mode.  When no
    batch raises, every batch is run and [model.train()] follows the last
    one; when a batch raises, the exception leaves the cell with the model
    still in evaluation mode. *)
Theorem evaluation_mode_around_pass :
  forall (testloader : list (list Sample * list nat)) (w : W),
    exists middle,
      Forall (pass_event false false) middle
      /\ match validation_pass_17 forward autograd testloader w with
         | (Ok _, w') =>
             trace w' = trace w ++ [EvEval] ++ middle ++ [EvTrain]
             /\ middle = flat_map (pass_events_17 false false) testloader
             /\ training w' = true
         | (Raise _, w') =>
             trace w' = trace w ++ [EvEval] ++ middle
             /\ training w' = false
         end.
Proof.
  intros testloader w.
  destruct (validation_pass_17_run testloader w) as (middle & Hev & Hok & Heq).
  cbv zeta in Heq, Hok. exists middle. split; [exact Hev|].
  rewrite Heq. destruct (fst _) as [r|e] eqn:Hr; cbn [trace training].
  - repeat split. apply (Hok r eq_refl).
  - split; reflexivity.
Qed.

(** *** The training loops *)

Lemma model_calls_app (e1 e2 : list (event Sample)) :
  model_calls (e1 ++ e2) = model_calls e1 ++ model_calls e2.
Proof. unfold model_calls. now rewrite map_app, filter_app. Qed.

Lemma accumulated_app (e1 e2 : list (event Sample)) :
  accumulated (e1 ++ e2) = accumulated e1 ++ accumulated e2.
Proof.
  induction e1 as [|e e1 IH]; [reflexivity|].
  destruct e; cbn [app accumulated]; rewrite IH; reflexivity.
Qed.

Lemma is_prefix_refl {A} (l : list A) : is_prefix l l.
Proof. exists []. now rewrite app_nil_r. Qed.

Lemma is_prefix_app_r {A} (l1 l2 l3 : list A) : is_prefix l1 l2 -> is_prefix l1 (l2 ++ l3).
Proof. intros [rest ->]. exists (rest ++ l3). now rewrite app_assoc. Qed.

Lemma is_prefix_app_l {A} (l l1 l2 : list A) : is_prefix l1 l2 -> is_prefix (l ++ l1) (l ++ l2).
Proof. intros [rest ->]. exists rest. now rewrite app_assoc. Qed.

Lemma train_batch_spec (acc : R) (batch : list Sample * list nat) (w : W) :
  batch_spec acc w (train_batch forward autograd opt_step acc batch w).
Proof.
  destruct batch as [images labels]. rewrite train_batch_run. cbv zeta.
  unfold batch_spec.
  destruct (forward _ _ _) as [out|e].
  2:{ cbn [fst snd training grad_enabled trace]. repeat split.
      eexists. split; [reflexivity|]. split; [repeat constructor|].
      split; [|reflexivity]. now exists [CLoss; CBackward; CStep; CAccumulate]. }
  destruct (Net.NLLLoss out labels) as [l|e].
  2:{ cbn [fst snd training grad_enabled trace]. repeat split.
      eexists. split; [now rewrite <- app_assoc|]. split; [repeat constructor|].
      split; [|reflexivity]. now exists [CBackward; CStep; CAccumulate]. }
  destruct (grad_enabled w) eqn:Hg.
  - cbn [fst snd training grad_enabled trace]. repeat split.
    eexists. split; [now rewrite <- app_assoc|]. split.
    + repeat constructor. cbn [backward_on_empty]. apply zero_grad_emptied.
    + split; [reflexivity|]. exists l. split; reflexivity.
  - cbn [fst snd training grad_enabled trace]. repeat split.
    eexists. split; [now rewrite <- app_assoc|]. split; [repeat constructor|].
    split; [|reflexivity]. now exists [CBackward; CStep; CAccumulate].
Qed.

(** Printing before a batch changes nothing of this. *)
Lemma printed_batch_spec (line : list R) (acc : R) (batch : list Sample * list nat)
    (w : W) :
  batch_spec acc w
    (bind (print line) (fun _ => train_batch forward autograd opt_step acc batch) w).
Proof.
  unfold bind, print, emit.
  pose proof (train_batch_spec acc batch
                (mkWorld (params w) (opt_state w) (training w) (grad_enabled w)
                         (trace w ++ [EvPrint line]))) as H.
  destruct (train_batch _ _ _ _ _ _) as [r w'].
  unfold batch_spec in *. cbn [fst snd training grad_enabled trace] in *.
  destruct H as (Ht & Hg & new & Htr & Hcl & Hr).
  repeat split; [exact Ht|exact Hg|].
  exists (EvPrint line :: new). split; [rewrite Htr; now rewrite <- app_assoc|].
  split; [constructor; [exact I|exact Hcl]|].
  exact Hr.
Qed.

Section AnyTrainingLoop.

Variable body : R -> list Sample * list nat -> M Sample OptState R.
Hypothesis body_spec : forall acc batch w, batch_spec acc w (body acc batch w).

Lemma for_each_loop_spec (loader : list (list Sample * list nat)) :
  forall (acc : R) (w : W), loop_spec (length loader) acc w (for_each loader body acc w).
Proof.
  induction loader as [|batch loader IH]; intros acc w.
  - cbn [for_each length repeat concat]. unfold ret, loop_spec.
    cbn [fst snd]. split; [reflexivity|]. split; [reflexivity|]. exists [].
    rewrite app_nil_r. split; [reflexivity|]. split; [constructor|].
    split; [apply is_prefix_refl|]. split; [reflexivity|]. split; [reflexivity|].
    cbn. ring.
  - cbn [for_each length repeat concat]. unfold bind.
    pose proof (body_spec acc batch w) as Hb.
    destruct (body acc batch w) as [[v|e] w1]; unfold batch_spec in Hb;
      cbn [fst snd] in Hb; destruct Hb as (Ht & Hg & new1 & Htr & Hcl & Hr).
    + destruct Hr as (Hcalls & l & Hacc & Hv).
      pose proof (IH v w1) as Hl.
      destruct (for_each loader body v w1) as [r w2]; unfold loop_spec in *.
      cbn [fst snd] in *.
      destruct Hl as (Ht2 & Hg2 & new2 & Htr2 & Hcl2 & Hpre & Hr2).
      repeat split; [congruence|congruence|].
      exists (new1 ++ new2). split; [rewrite Htr2, Htr; now rewrite app_assoc|].
      split; [apply Forall_app; now split|].
      rewrite model_calls_app, accumulated_app, Hcalls, Hacc.
      split; [now apply is_prefix_app_l|].
      destruct r as [v2|e2]; [|exact I].
      destruct Hr2 as (Hc2 & Hlen & Hv2).
      split; [now rewrite Hc2|]. split; [cbn [app length]; now rewrite Hlen|].
      cbn [app]. rewrite Rsum_cons, Hv2, Hv. ring.
    + unfold loop_spec. cbn [fst snd]. repeat split; [exact Ht|exact Hg|].
      exists new1. split; [exact Htr|]. split; [exact Hcl|].
      split; [|exact I]. apply is_prefix_app_r. apply Hr.
Qed.

End AnyTrainingLoop.

Lemma training_loop_spec (trainloader : list (list Sample * list nat)) (w : W) :
  loop_spec (length trainloader) 0 w
    (training_loop forward autograd opt_step trainloader w).
Proof. apply for_each_loop_spec. intros. apply train_batch_spec. Qed.

Lemma part3_training_loop_spec (trainloader : list (list Sample * list nat)) (w : W) :
  loop_spec (length trainloader) 0 w
    (part3_training_loop forward autograd opt_step trainloader w).
Proof.
  unfold part3_training_loop.
  apply (for_each_loop_spec
           (fun acc batch =>
              bind (print [INR (length (fst batch))])
                   (fun _ => train_batch forward autograd opt_step acc batch))).
  intros. apply printed_batch_spec.
Qed.

(** C4, as the loops have it.  A training batch that completes has made
    exactly these calls, in this order: [zero_grad], the model on the
    images of the batch, the loss against its labels, [backward], the
    optimizer's [step], and the addition of the loss value to
    [running_loss]; a batch that raises has made a beginning of them and
    has not stepped.  A loop over the loader makes them batch after batch
    (Part 3 prints a line before each), and what it returns is the sum of
    the loss values.  What it changes: the parameter entries and their
    gradient buffers, and the state of the optimizer, as [step] leaves
    them; the mode of the model and the tracking switch stay as they
    were. *)
Theorem training_loop_order_and_effects :
  forall (trainloader : list (list Sample * list nat)) (w : W),
    (forall acc images labels w0,
        match train_batch forward autograd opt_step acc (images, labels) w0 with
        | (Ok v, w1) =>
            exists out l,
              forward (map data (params w0)) (training w0) images = Ok out
              /\ Net.NLLLoss out labels = Ok l
              /\ trace w1
                 = trace w0
                   ++ [EvZeroGrad;
                       EvForward (training w0) (grad_enabled w0) images;
                       EvLoss labels;
                       EvBackward (map grad (Optim.zero_grad (params w0)));
                       EvStep;
                       EvAccumulate l]
              /\ v = acc + l
              /\ (opt_state w1, params w1)
                 = opt_step (opt_state w0)
                     (accumulate_grad
                        (autograd (map data (params w0)) (training w0) images labels)
                        (Optim.zero_grad (params w0)))
        | (Raise _, w1) =>
            opt_state w1 = opt_state w0
            /\ params w1 = Optim.zero_grad (params w0)
            /\ exists new, trace w1 = trace w0 ++ new
                           /\ is_prefix (map call_of new) [CZeroGrad; CForward; CLoss]
        end)
    /\ loop_spec (length trainloader) 0 w
         (training_loop forward autograd opt_step trainloader w)
    /\ loop_spec (length trainloader) 0 w
         (part3_training_loop forward autograd opt_step trainloader w).
Proof.
  intros trainloader w. split; [|split].
  - intros acc images labels w0. rewrite train_batch_run. cbv zeta.
    destruct (forward _ _ _) as [out|e].
    2:{ cbn [opt_state params trace]. repeat split.
        eexists. split; [reflexivity|]. now exists [CLoss]. }
    destruct (Net.NLLLoss out labels) as [l|e] eqn:Hl.
    2:{ cbn [opt_state params trace]. repeat split.
        eexists. split; [now rewrite <- app_assoc|]. apply is_prefix_refl. }
    destruct (grad_enabled w0) eqn:Hg.
    + exists out, l. cbn [opt_state params trace].
      split; [reflexivity|]. split; [exact Hl|].
      split; [now rewrite <- app_assoc|]. split; [reflexivity|].
      now destruct (opt_step _ _).
    + cbn [opt_state params trace]. repeat split.
      eexists. split; [now rewrite <- app_assoc|]. apply is_prefix_refl.
  - apply training_loop_spec.
  - apply part3_training_loop_spec.
Qed.

(** *** Every cell keeps the gradient buffers clean *)

Lemma clean_refl (w : W) : clean w w.
Proof. exists []. split; [now rewrite app_nil_r|constructor]. Qed.

Lemma clean_trans (w1 w2 w3 : W) : clean w1 w2 -> clean w2 w3 -> clean w1 w3.
Proof.
  intros (n1 & H1 & F1) (n2 & H2 & F2). exists (n1 ++ n2). split.
  - rewrite H2, H1. now rewrite app_assoc.
  - apply Forall_app. now split.
Qed.

Lemma no_gradient_work_clean (evs : list (event Sample)) :
  Forall no_gradient_work evs -> Forall backward_on_empty evs.
Proof. apply Forall_impl. intros e. destruct e; cbn; tauto. Qed.

Lemma loop_spec_clean (n : nat) (acc : R) (w : W) (out : result R * W) :
  loop_spec n acc w out -> clean w (snd out).
Proof. intros (_ & _ & new & Htr & Hcl & _). now exists new. Qed.

Lemma keeps_clean_training_loop (trainloader : list (list Sample * list nat)) :
  keeps (@clean Sample OptState) (training_loop forward autograd opt_step trainloader).
Proof. intro w. eapply loop_spec_clean. apply training_loop_spec. Qed.

Lemma keeps_clean_part3_training_loop (trainloader : list (list Sample * list nat)) :
  keeps (@clean Sample OptState) (part3_training_loop forward autograd opt_step trainloader).
Proof. intro w. eapply loop_spec_clean. apply part3_training_loop_spec. Qed.

Lemma keeps_clean_validation_17 (testloader : list (list Sample * list nat)) :
  keeps (@clean Sample OptState) (validation_pass_17 forward autograd testloader).
Proof.
  intro w. destruct (validation_pass_17_frame testloader w) as (_ & _ & _ & new & Htr & Hw).
  exists new. split; [exact Htr|now apply no_gradient_work_clean].
Qed.

Lemma keeps_clean_validation_13 (accuracy0 : option R)
    (testloader : list (list Sample * list nat)) :
  keeps (@clean Sample OptState) (validation_pass_13 forward accuracy0 testloader).
Proof.
  intro w.
  destruct (validation_pass_13_frame accuracy0 testloader w) as (_ & _ & _ & new & Htr & Hw).
  exists new. split; [exact Htr|now apply no_gradient_work_clean].
Qed.

Lemma keeps_clean_print (line : list R) : keeps (@clean Sample OptState) (@print Sample OptState line).
Proof.
  intro w. exists [EvPrint line]. split; [reflexivity|repeat constructor].
Qed.

Lemma keeps_clean_append (b : bool) (v : R) :
  keeps (@clean Sample OptState) (@emit Sample OptState (EvAppend b v)).
Proof.
  intro w. exists [EvAppend b v]. split; [reflexivity|repeat constructor].
Qed.

Lemma keeps_clean_py_div (x : R) (n : nat) : keeps (@clean Sample OptState) (@py_div Sample OptState x n).
Proof. intro w. destruct n; apply clean_refl. Qed.

Local Ltac keep_clean :=
  repeat first
    [ apply keeps_clean_training_loop
    | apply keeps_clean_part3_training_loop
    | apply keeps_clean_validation_17
    | apply keeps_clean_validation_13
    | apply keeps_clean_print
    | apply keeps_clean_append
    | apply keeps_clean_py_div
    | apply (keeps_ret (@clean Sample OptState) clean_refl)
    | apply (keeps_bind (@clean Sample OptState) clean_trans); [|intro]
    | apply (keeps_for_each (@clean Sample OptState) clean_refl clean_trans); intros
    | match goal with
      | |- keeps _ (let (_, _) := ?p in _) => destruct p
      end ].

Lemma gradient_is_the_batch_s (g : nat -> R) (ps : list Param) (i : nat) (p : Param) :
  nth_error (accumulate_grad g (Optim.zero_grad ps)) i = Some p ->
  grad p = Some (g i).
Proof.
  unfold accumulate_grad, Optim.zero_grad.
  rewrite nth_error_mapi_from, nth_error_map. cbn [Nat.add].
  destruct (nth_error ps i) as [q|]; cbn [option_map]; [|discriminate].
  intro H. inversion H. cbn [grad data].
  destruct (grad q); [f_equal; ring|reflexivity].
Qed.

(** C3.  In every training cell (Part 3's last exercise and both training
    cells of Part 5, over all their passes, validation included) every
    backward pass finds the gradient buffer of every parameter entry
    empty: [zero_grad] has run since the backward pass before it.  So
    what a backward pass leaves in a buffer is the gradient of its own
    batch and nothing of the batch before. *)
Theorem gradients_emptied_before_each_backward :
  forall (passes3 : list (list (list Sample * list nat)))
         (passes5 : list (list (list Sample * list nat) * list (list Sample * list nat)))
         (accuracy0 : option R) (w : W),
    clean w (snd (part3_cell forward autograd opt_step passes3 w))
    /\ clean w (snd (part5_cell_13 forward autograd opt_step accuracy0 passes5 w))
    /\ clean w (snd (part5_cell_17 forward autograd opt_step passes5 w))
    /\ forall g ps i p,
         nth_error (accumulate_grad g (Optim.zero_grad ps)) i = Some p ->
         grad p = Some (g i).
Proof.
  intros passes3 passes5 accuracy0 w. split; [|split; [|split]].
  - revert w. change (keeps (@clean Sample OptState) (part3_cell forward autograd opt_step passes3)).
    unfold part3_cell, part3_epoch. keep_clean.
  - revert w.
    change (keeps (@clean Sample OptState) (part5_cell_13 forward autograd opt_step accuracy0 passes5)).
    unfold part5_cell_13, part5_epoch_13. keep_clean.
  - revert w. change (keeps (@clean Sample OptState) (part5_cell_17 forward autograd opt_step passes5)).
    unfold part5_cell_17, part5_epoch_17. keep_clean.
  - apply gradient_is_the_batch_s.
Qed.

End LoopProperties.

(** ** Accuracy *)

Section BatchAccuracy.

Lemma hits_le (ps : list (list R)) (labels : list nat) :
  (hits ps labels <= length labels)%nat.
Proof.
  revert labels. induction ps as [|row ps IH]; intros [|y ys]; cbn [hits length]; try lia.
  specialize (IH ys).
  destruct (topk1_row row) as [[v k]|e]; [destruct (Nat.eqb k y)|]; lia.
Qed.

(** The indicator of a batch has one entry per label, and as many ones as
    there are hits. *)
Lemma batch_equals_hits (ps : list (list R)) (labels : list nat) :
  length ps = length labels ->
  Forall (fun row => row <> []) ps ->
  exists equals,
    batch_equals ps labels = Ok (ByteTensor equals)
    /\ length equals = length labels
    /\ Rsum (map b2R equals) = INR (hits ps labels).
Proof.
  intros Hlen Hne. unfold batch_equals, topk1.
  assert (Htops : exists tops,
             rmap topk1_row ps = Ok tops
             /\ length tops = length ps
             /\ Rsum (map b2R (map (fun p => Nat.eqb (fst p) (snd p))
                                    (combine (map snd tops) labels)))
                = INR (hits ps labels)).
  { clear -Hlen Hne. revert labels Hlen.
    induction Hne as [|row ps Hrow _ IH]; intros [|y ys] Hlen; try discriminate.
    - exists []. repeat split.
    - cbn [length] in Hlen. destruct (IH ys) as (tops & Hr & Hl & Hs); [lia|].
      destruct row as [|v row]; [congruence|].
      cbn [rmap topk1_row rbind hits]. rewrite Hr. cbn [rbind].
      destruct (argmax_from v 0 1 row) as [top k] eqn:Ha.
      exists ((top, k) :: tops). split; [reflexivity|]. split; [cbn; now rewrite Hl|].
      cbn [map snd combine fst]. rewrite Rsum_cons, Hs.
      destruct (Nat.eqb k y); cbn [b2R]; [rewrite S_INR|]; ring. }
  destruct Htops as (tops & Hr & Hl & Hs). rewrite Hr. cbn [rbind snd].
  unfold equals_view. rewrite length_map, Hl, Hlen, Nat.eqb_refl.
  eexists. split; [reflexivity|]. split; [|exact Hs].
  rewrite length_map, length_combine, length_map, Hl, Hlen. apply Nat.min_id.
Qed.

(** The accuracy of a batch is its hits over its size. *)
Lemma batch_accuracy_hits (ps : list (list R)) (labels : list nat) :
  labels <> [] ->
  length ps = length labels ->
  Forall (fun row => row <> []) ps ->
  batch_accuracy ps labels = Ok (INR (hits ps labels) / INR (length labels)).
Proof.
  intros Hnil Hlen Hne.
  destruct (batch_equals_hits ps labels Hlen Hne) as (equals & Heq & Hl & Hs).
  unfold batch_accuracy. rewrite Heq. cbn [rbind type_FloatTensor torch_mean].
  destruct equals as [|b equals].
  - destruct labels; [congruence|discriminate].
  - cbn [map]. rewrite <- Hs, <- Hl. cbn [map length]. now rewrite length_map.
Qed.

Lemma torch_exp_rows (log_ps : list (list R)) :
  length (torch_exp log_ps) = length log_ps
  /\ (Forall (fun row => row <> []) log_ps ->
      Forall (fun row => row <> []) (torch_exp log_ps)).
Proof.
  unfold torch_exp. split; [apply length_map|].
  intro H. apply Forall_map. eapply Forall_impl; [|exact H].
  intros [|v row] Hr; [congruence|discriminate].
Qed.

Lemma unit_ratio (h n : nat) :
  (h <= n)%nat -> (0 < n)%nat -> 0 <= INR h / INR n <= 1.
Proof.
  intros Hle Hpos.
  assert (Hn : 0 < INR n) by (apply lt_0_INR; exact Hpos).
  assert (Hh : 0 <= INR h) by apply pos_INR.
  assert (Hhn : INR h <= INR n) by (apply le_INR; exact Hle).
  assert (Hi : 0 < / INR n) by (apply Rinv_0_lt_compat; exact Hn).
  unfold Rdiv. split.
  - apply Rmult_le_pos; lra.
  - replace 1 with (INR n * / INR n) by (field; lra).
    apply Rmult_le_compat_r; lra.
Qed.

(** The mean of numbers between 0 and 1 lies between 0 and 1. *)
Lemma mean_in_unit_interval (xs : list R) :
  xs <> [] -> Forall (fun x => 0 <= x <= 1) xs ->
  0 <= Rsum xs / INR (length xs) <= 1.
Proof.
  intros Hne Hall.
  assert (Hsum : 0 <= Rsum xs <= INR (length xs)).
  { clear Hne. induction Hall as [|x xs Hx _ IH].
    - cbn. lra.
    - rewrite Rsum_cons. cbn [length]. rewrite S_INR. lra. }
  assert (Hn : 0 < INR (length xs)).
  { apply lt_0_INR. destruct xs; [congruence|cbn; lia]. }
  assert (Hi : 0 < / INR (length xs)) by (apply Rinv_0_lt_compat; exact Hn).
  unfold Rdiv. split.
  - apply Rmult_le_pos; lra.
  - replace 1 with (INR (length xs) * / INR (length xs)) by (field; lra).
    apply Rmult_le_compat_r; lra.
Qed.

Lemma INR_list_sum (ns : list nat) : INR (list_sum ns) = Rsum (map INR ns).
Proof.
  induction ns as [|n ns IH]; [reflexivity|].
  change (list_sum (n :: ns)) with (n + list_sum ns)%nat.
  cbn [map]. now rewrite plus_INR, Rsum_cons, IH.
Qed.

End BatchAccuracy.

(** ** The data loader *)

Section Loader.

Context {A : Type}.

Lemma chunks_nil (fuel n : nat) : @chunks A fuel n [] = [].
Proof. destruct fuel; reflexivity. Qed.

Lemma chunks_spec (n : nat) :
  (0 < n)%nat ->
  forall (fuel : nat) (l : list A),
    (length l <= fuel)%nat ->
    concat (chunks fuel n l) = l
    /\ Forall (fun c => c <> []) (chunks fuel n l)
    /\ (l <> [] -> chunks fuel n l <> [])
    /\ (Nat.divide n (length l) -> Forall (fun c => length c = n) (chunks fuel n l)).
Proof.
  intro Hn. induction fuel as [|fuel IH]; intros l Hl.
  - destruct l; [|cbn in Hl; lia]. cbn. repeat split; try constructor. congruence.
  - destruct l as [|a l].
    + cbn. repeat split; try constructor. congruence.
    + cbn [chunks].
      assert (Hskip : (length (skipn n (a :: l)) <= fuel)%nat).
      { rewrite length_skipn. cbn [length] in *. lia. }
      destruct (IH _ Hskip) as (Hc & Hne & _ & Hdiv).
      split; [cbn [concat]; rewrite Hc; apply firstn_skipn|].
      split; [constructor; [|exact Hne]|].
      { destruct n; [lia|]. discriminate. }
      split; [discriminate|].
      intros [z Hz]. cbn [length] in Hz.
      assert (Hz1 : (1 <= z)%nat) by (destruct z; [cbn in Hz; lia|lia]).
      assert (Hge : (n <= length (a :: l))%nat).
      { cbn [length]. rewrite Hz. nia. }
      constructor.
      * rewrite length_firstn. lia.
      * apply Hdiv. exists (z - 1)%nat. rewrite length_skipn. cbn [length].
        rewrite Hz. nia.
Qed.

End Loader.

Lemma DataLoader_spec {X} (testset : list (X * nat)) (bs : nat) :
  (0 < bs)%nat ->
  let loader := DataLoader testset bs in
  Forall (fun b => snd b <> []) loader
  /\ (testset <> [] -> loader <> [])
  /\ list_sum (map (fun b => length (snd b)) loader) = length testset
  /\ (Nat.divide bs (length testset) -> Forall (fun b => length (snd b) = bs) loader).
Proof.
  intros Hbs. cbv zeta. unfold DataLoader.
  destruct (chunks_spec bs Hbs (length testset) testset (le_n _))
    as (Hc & Hne & Hnil & Hdiv).
  set (cs := chunks (length testset) bs testset) in *.
  split; [|split; [|split]].
  - apply Forall_map. eapply Forall_impl; [|exact Hne].
    intros [|c cs'] Hcne; [congruence|discriminate].
  - intros Ht Hmap. apply Hnil in Ht. destruct cs; [congruence|discriminate].
  - rewrite map_map. rewrite <- Hc. rewrite length_concat.
    f_equal. apply map_ext. intro c. cbn [snd]. apply length_map.
  - intro Hd. apply Forall_map. eapply Forall_impl; [|exact (Hdiv Hd)].
    intros c Hlen. cbn [snd]. now rewrite length_map.
Qed.

Lemma chunks_single {A} (n : nat) (l : list A) :
  l <> [] -> (length l <= n)%nat -> chunks (length l) n l = [l].
Proof.
  intros Hne Hle. destruct l as [|a l]; [congruence|].
  cbn [length chunks]. rewrite firstn_all2 by exact Hle.
  rewrite skipn_all2 by exact Hle. now rewrite chunks_nil.
Qed.

(** ** The accuracy an evaluation pass reports *)

Section AccuracyOfPass.

Context {Sample : Type}.
Variable forward : list R -> bool -> list Sample -> result (list (list R)).
Variable autograd : list R -> bool -> list Sample -> list nat -> nat -> R.
Context {OptState : Type}.

Local Notation "'W'" := (world Sample OptState).

Lemma batch_ratio_in_unit_interval (d : list R) (t : bool)
    (batch : list Sample * list nat) :
  snd batch <> [] -> 0 <= batch_ratio forward d t batch <= 1.
Proof.
  intro Hne. unfold batch_ratio, batch_hits. apply unit_ratio.
  - destruct (forward d t (fst batch)); [apply hits_le|lia].
  - destruct (snd batch); [congruence|cbn; lia].
Qed.

Lemma validation_loop_17_value (loader : list (list Sample * list nat)) :
  forall (tl a : R) (w : W),
    Forall (fun b => snd b <> []) loader ->
    Forall (batch_evaluable forward (map data (params w)) (training w)) loader ->
    exists tl' v w',
      for_each loader (validation_batch_17 forward autograd) (tl, a) w
      = (Ok (tl', v), w')
      /\ v = a + Rsum (map (batch_ratio forward (map data (params w)) (training w))
                           loader).
Proof.
  induction loader as [|[images labels] loader IH]; intros tl a w Hne Hev.
  - cbn [for_each]. unfold ret. do 3 eexists. split; [reflexivity|]. cbn. ring.
  - inversion Hne as [|? ? Hl Hne']; subst.
    inversion Hev as [|? ? Hb Hev']; subst.
    destruct Hb as (log_ps & l & Hf & Hlen & Hrows & Hloss). cbn [fst snd] in *.
    cbn [for_each]. unfold bind. rewrite validation_batch_17_run. cbv zeta.
    rewrite Hf, Hloss.
    destruct (torch_exp_rows log_ps) as [Hel Her].
    rewrite (batch_accuracy_hits (torch_exp log_ps) labels Hl)
      by (try apply Her; congruence).
    match goal with
    | |- context [for_each loader _ ?acc ?w1] =>
        destruct (IH (fst acc) (snd acc) w1 Hne' Hev') as (tl' & v & w' & Hrun & Hv)
    end.
    cbn [fst snd] in Hrun. rewrite Hrun.
    do 3 eexists. split; [reflexivity|].
    rewrite Hv. cbn [map logged params training]. rewrite Rsum_cons.
    unfold batch_ratio at 2, batch_hits. cbn [fst snd]. rewrite Hf. ring.
Qed.

Lemma equal_batches_ratio (d : list R) (t : bool) (n : nat)
    (loader : list (list Sample * list nat)) :
  Forall (fun b => length (snd b) = n) loader ->
  Rsum (map (batch_ratio forward d t) loader)
  = INR (correct_count forward d t loader) / INR n
  /\ list_sum (map (fun b => length (snd b)) loader) = (length loader * n)%nat.
Proof.
  unfold correct_count. induction 1 as [|b loader Hb _ [IH1 IH2]].
  - cbn. split; [unfold Rdiv; ring|reflexivity].
  - cbn [map length]. rewrite Rsum_cons, IH1. split.
    + change (list_sum (?x :: ?l)) with (x + list_sum l)%nat.
      rewrite plus_INR. unfold batch_ratio at 1. rewrite Hb. unfold Rdiv. ring.
    + change (list_sum (?x :: ?l)) with (x + list_sum l)%nat.
      rewrite IH2, Hb. reflexivity.
Qed.

(** What the dropout cell reports as accuracy, for a loader that is not
    empty. *)
Lemma reported_accuracy_17_value (testloader : list (list Sample * list nat)) (w : W) :
  testloader <> [] ->
  Forall (fun b => snd b <> []) testloader ->
  Forall (batch_evaluable forward (map data (params w)) false) testloader ->
  exists acc w',
    reported_accuracy_17 forward autograd testloader w = (Ok acc, w')
    /\ acc = mean_of_batch_ratios forward (map data (params w)) false testloader
    /\ 0 <= acc <= 1
    /\ forall n,
         Forall (fun b => length (snd b) = n) testloader ->
         acc = INR (correct_count forward (map data (params w)) false testloader)
               / INR (list_sum (map (fun b => length (snd b)) testloader)).
Proof.
  intros Hnil Hne Hev.
  destruct (validation_pass_17_run forward autograd testloader w)
    as (middle & _ & _ & Hpass).
  cbv zeta in Hpass.
  destruct (validation_loop_17_value testloader 0 0
              (mkWorld (params w) (opt_state w) false false (trace w ++ [EvEval]))
              Hne Hev) as (tl' & v & w3 & Hrun & Hv).
  cbn [params training] in Hv. rewrite Hrun in Hpass. cbn [fst] in Hpass.
  unfold reported_accuracy_17, bind. rewrite Hpass. cbn [snd].
  destruct testloader as [|b0 testloader0] eqn:Hloader; [congruence|].
  rewrite <- Hloader in *.
  assert (Hlen : length testloader = S (length testloader0)) by now rewrite Hloader.
  rewrite Hlen. unfold py_div, ret.
  do 2 eexists. split; [reflexivity|].
  assert (Hacc : v / INR (S (length testloader0))
                 = mean_of_batch_ratios forward (map data (params w)) false testloader).
  { unfold mean_of_batch_ratios. rewrite Hlen, Hv. unfold Rdiv. ring. }
  rewrite Hacc. split; [reflexivity|]. split.
  - unfold mean_of_batch_ratios.
    rewrite <- (length_map (batch_ratio forward (map data (params w)) false) testloader).
    apply mean_in_unit_interval.
    + rewrite Hloader. discriminate.
    + apply Forall_map. eapply Forall_impl; [|exact Hne].
      intros b Hb. now apply batch_ratio_in_unit_interval.
  - intros n Hn.
    destruct (equal_batches_ratio (map data (params w)) false n testloader Hn)
      as [Hsum Htot].
    unfold mean_of_batch_ratios. rewrite Hsum, Htot, mult_INR.
    assert (Hn0 : INR n <> 0).
    { apply not_0_INR. intro Hz. subst n.
      rewrite Hloader in Hn, Hne. inversion Hn; inversion Hne; subst.
      destruct (snd b0); [congruence|discriminate]. }
    assert (Hl0 : INR (length testloader) <> 0).
    { apply not_0_INR. rewrite Hlen. discriminate. }
    field. split; assumption.
Qed.

Lemma last_cons_default {A} (l : list A) (a d : A) : last (a :: l) d = last l a.
Proof.
  revert a d. induction l as [|b l IH]; intros a d; [reflexivity|].
  change (last (a :: b :: l) d) with (last (b :: l) d).
  now rewrite !IH.
Qed.

(** What the first training cell reports: the accuracy of the batch the
    loader gave last. *)
Lemma validation_loop_13_value (loader : list (list Sample * list nat)) :
  forall (acc0 : option R) (w : W),
    Forall (fun b => snd b <> []) loader ->
    Forall (batch_evaluable forward (map data (params w)) (training w)) loader ->
    exists w',
      for_each loader (validation_batch_13 forward) acc0 w
      = (Ok (last (map (fun b => Some (batch_ratio forward (map data (params w))
                                                   (training w) b)) loader) acc0), w').
Proof.
  induction loader as [|[images labels] loader IH]; intros acc0 w Hne Hev.
  - cbn [for_each]. unfold ret. eexists. reflexivity.
  - inversion Hne as [|? ? Hl Hne']; subst.
    inversion Hev as [|? ? Hb Hev']; subst.
    destruct Hb as (log_ps & l & Hf & Hlen & Hrows & Hloss). cbn [fst snd] in *.
    cbn [for_each]. unfold bind. rewrite validation_batch_13_run. cbv zeta.
    rewrite Hf.
    destruct (torch_exp_rows log_ps) as [Hel Her].
    rewrite (batch_accuracy_hits (torch_exp log_ps) labels Hl)
      by (try apply Her; congruence).
    match goal with
    | |- context [for_each loader _ ?acc ?w1] =>
        destruct (IH acc w1 Hne' Hev') as (w' & Hrun)
    end.
    rewrite Hrun. cbn [logged params training]. exists w'.
    cbn [map]. rewrite last_cons_default.
    replace (batch_ratio forward (map data (params w)) (training w) (images, labels))
      with (INR (hits (torch_exp log_ps) labels) / INR (length labels));
      [reflexivity|].
    unfold batch_ratio, batch_hits. cbn [fst snd]. now rewrite Hf.
Qed.

Lemma validation_pass_13_value (accuracy0 : option R)
    (front : list (list Sample * list nat)) (b : list Sample * list nat) (w : W) :
  Forall (fun b => snd b <> []) (front ++ [b]) ->
  Forall (batch_evaluable forward (map data (params w)) (training w)) (front ++ [b]) ->
  exists w',
    validation_pass_13 forward accuracy0 (front ++ [b]) w
    = (Ok (batch_ratio forward (map data (params w)) (training w) b), w').
Proof.
  intros Hne Hev.
  destruct (validation_pass_13_run forward accuracy0 (front ++ [b]) w)
    as (middle & _ & _ & Hpass).
  cbv zeta in Hpass.
  destruct (validation_loop_13_value (front ++ [b]) accuracy0
              (mkWorld (params w) (opt_state w) (training w) false (trace w))
              Hne Hev) as (w3 & Hrun).
  cbn [params training] in Hrun. rewrite Hrun in Hpass. cbn [fst] in Hpass.
  rewrite map_app in Hpass. cbn [map] in Hpass. rewrite last_last in Hpass.
  rewrite Hpass. eexists. reflexivity.
Qed.

Lemma bind_ext_l {A B} (c1 c2 : M Sample OptState A) (k : A -> M Sample OptState B) :
  (forall w, c1 w = c2 w) -> forall w, bind c1 k w = bind c2 k w.
Proof. intros H w. unfold bind. now rewrite H. Qed.

Lemma bind_ext_r {A B} (c : M Sample OptState A) (k1 k2 : A -> M Sample OptState B) :
  (forall a w, k1 a w = k2 a w) -> forall w, bind c k1 w = bind c k2 w.
Proof. intros H w. unfold bind. destruct (c w) as [[a|e] w']; [apply H|reflexivity]. Qed.

Lemma no_grad_ext {A} (b1 b2 : M Sample OptState A) :
  (forall w, b1 w = b2 w) -> forall w, no_grad b1 w = no_grad b2 w.
Proof. intros H w. unfold no_grad. now rewrite H. Qed.

(** The evaluation pass never asks for a derivative: whatever [autograd]
    is, it runs the same. *)
Lemma validation_pass_17_ignores_autograd
    (autograd' : list R -> bool -> list Sample -> list nat -> nat -> R)
    (testloader : list (list Sample * list nat)) (w : W) :
  validation_pass_17 forward autograd testloader w
  = validation_pass_17 forward autograd' testloader w.
Proof.
  assert (Hloop : forall loader acc (w0 : W),
             for_each loader (validation_batch_17 forward autograd) acc w0
             = for_each loader (validation_batch_17 forward autograd') acc w0).
  { induction loader as [|[images labels] loader IH]; intros [tl a] w0;
      cbn [for_each]; [reflexivity|].
    unfold bind. rewrite !validation_batch_17_run. cbv zeta.
    destruct (forward _ _ _); [|reflexivity].
    destruct (Net.NLLLoss _ _); [|reflexivity].
    destruct (batch_accuracy _ _); [apply IH|reflexivity]. }
  unfold validation_pass_17.
  apply bind_ext_l. intro w0. apply no_grad_ext. intro w1.
  apply bind_ext_r. intros _ w2. apply Hloop.
Qed.

(** The third number the dropout cell prints is the accuracy reported
    for the state the training loop has left. *)
Lemma part5_epoch_17_reports (opt_step : OptState -> list Param -> OptState * list Param)
    (trainloader testloader : list (list Sample * list nat))
    (w w1 w2 : W) (running_loss acc : R) :
  trainloader <> [] ->
  training_loop forward autograd opt_step trainloader w = (Ok running_loss, w1) ->
  reported_accuracy_17 forward autograd testloader w1 = (Ok acc, w2) ->
  exists train_mean test_mean w3,
    part5_epoch_17 forward autograd opt_step trainloader testloader w
    = (Ok (train_mean, test_mean, acc), w3).
Proof.
  intros Hne Htrain Hrep.
  unfold part5_epoch_17. unfold bind at 1. rewrite Htrain.
  unfold reported_accuracy_17 in Hrep. unfold bind in Hrep. unfold bind at 1.
  destruct (validation_pass_17 forward autograd testloader w1) as [[[tl a]|e] w'];
    [|discriminate].
  cbn [snd] in Hrep.
  destruct trainloader as [|b0 trainloader]; [congruence|].
  destruct testloader as [|t0 testloader]; [discriminate|].
  unfold py_div, bind, print, emit, ret in *. cbn [length] in *.
  inversion Hrep; subst. do 3 eexists. reflexivity.
Qed.

(** With no test batch at all the cell divides 0 by 0. *)
Lemma reported_accuracy_17_empty (w : W) :
  fst (reported_accuracy_17 forward autograd [] w) = Raise ZeroDivisionError.
Proof. reflexivity. Qed.

(** What the dropout cell reports as accuracy.  For a test set that is
    not empty, cut into batches of [bs] samples each of which the model
    and the loss accept, the pass reports a number between 0 and 1: the
    mean, over the batches, of the share of samples of the batch whose
    predicted top class is their label.  When all batches have the same size (the batch
    size divides the size of the test set, or the test set fits into one
    batch) that number is the number of such samples in the whole test set
    over the size of the test set.  The accuracy of a single batch, as
    the cell before the training cells computes it, is always that
    fraction. *)
Theorem reported_accuracy_is_mean_of_batch_accuracies :
  forall (testset : list (Sample * nat)) (bs : nat) (w : W),
    (0 < bs)%nat ->
    testset <> [] ->
    Forall (batch_evaluable forward (map data (params w)) false)
           (DataLoader testset bs) ->
    exists acc w',
      reported_accuracy_17 forward autograd (DataLoader testset bs) w = (Ok acc, w')
      /\ 0 <= acc <= 1
      /\ acc = mean_of_batch_ratios forward (map data (params w)) false
                                    (DataLoader testset bs)
      /\ (Nat.divide bs (length testset) \/ (length testset <= bs)%nat ->
          acc = INR (correct_count forward (map data (params w)) false
                                   (DataLoader testset bs))
                / INR (length testset))
      /\ (forall ps labels,
            labels <> [] -> length ps = length labels ->
            Forall (fun row => row <> []) ps ->
            batch_accuracy ps labels = Ok (INR (hits ps labels) / INR (length labels))).
Proof.
  intros testset bs w Hbs Hne Hev.
  destruct (DataLoader_spec testset bs Hbs) as (Hbatches & Hnil & Htotal & Hdiv).
  destruct (reported_accuracy_17_value (DataLoader testset bs) w (Hnil Hne) Hbatches Hev)
    as (acc & w' & Hrun & Hmean & Hunit & Hequal).
  exists acc, w'. split; [exact Hrun|]. split; [exact Hunit|]. split; [exact Hmean|].
  split; [|apply batch_accuracy_hits].
  intros [Hd|Hone].
  - rewrite <- Htotal. apply (Hequal bs). now apply Hdiv.
  - rewrite <- Htotal. apply (Hequal (length testset)).
    unfold DataLoader. rewrite (chunks_single bs testset Hne Hone).
    constructor; [|constructor]. cbn [snd]. apply length_map.
Qed.

End AccuracyOfPass.

(** ** The cells run by hand *)

Section ByHand.

(** An image without pixels is refused by the first layer, whatever the
    parameters. *)
Lemma model_dropout_blank (d : list R) (t : bool) (k : Part5.draws) :
  Part5.model_dropout d t [(Part5.blank, k)] = Raise SizeMismatch.
Proof. reflexivity. Qed.

(** *** Parameters as a list of entries, and back *)

Lemma rows_at_concat (i : nat) (w : list (list R)) (rest : list R) :
  Forall (fun row => length row = i) w ->
  Part5.rows_at i (length w) (concat w ++ rest) = w
  /\ Part5.skip_rows i (length w) (concat w ++ rest) = rest.
Proof.
  induction 1 as [|row w Hrow _ [IH1 IH2]]; [split; reflexivity|].
  cbn [length concat Part5.rows_at Part5.skip_rows].
  rewrite <- app_assoc.
  rewrite firstn_app, skipn_app, Hrow, Nat.sub_diag.
  rewrite firstn_all2, skipn_all2 by lia.
  cbn [firstn skipn app]. rewrite app_nil_r, IH1, IH2. split; reflexivity.
Qed.

Lemma linear_at_entries (i o : nat) (l : Net.Linear) (rest : list R) :
  shaped i o l ->
  Part5.linear_at i o (Part5.entries_of_linear l ++ rest) = l
  /\ Part5.after_linear i o (Part5.entries_of_linear l ++ rest) = rest.
Proof.
  intros (Hi & Ho & Hw & Hrows & Hb).
  unfold Part5.linear_at, Part5.after_linear, Part5.entries_of_linear.
  rewrite <- app_assoc.
  destruct (rows_at_concat i (Net.weight l) (Net.bias l ++ rest) Hrows) as [Hr Hs].
  rewrite Hw in Hr, Hs. rewrite Hr, Hs.
  rewrite firstn_app, skipn_app, Hb, Nat.sub_diag.
  rewrite firstn_all2, skipn_all2 by lia.
  cbn [firstn skipn app]. rewrite app_nil_r.
  destruct l; cbn in *; subst. split; reflexivity.
Qed.

(** Reading the entries of a classifier back gives the classifier. *)
Lemma of_entries_entries (m : Part5.Classifier) :
  shaped 784 256 (Part5.fc1 m) -> shaped 256 128 (Part5.fc2 m) ->
  shaped 128 64 (Part5.fc3 m) -> shaped 64 10 (Part5.fc4 m) ->
  Part5.of_entries (Part5.entries m) = m.
Proof.
  intros H1 H2 H3 H4. unfold Part5.of_entries, Part5.entries.
  destruct (linear_at_entries _ _ _
              (Part5.entries_of_linear (Part5.fc2 m)
               ++ Part5.entries_of_linear (Part5.fc3 m)
               ++ Part5.entries_of_linear (Part5.fc4 m)) H1) as [-> ->].
  destruct (linear_at_entries _ _ _
              (Part5.entries_of_linear (Part5.fc3 m)
               ++ Part5.entries_of_linear (Part5.fc4 m)) H2) as [-> ->].
  destruct (linear_at_entries _ _ _ (Part5.entries_of_linear (Part5.fc4 m)) H3)
    as [-> ->].
  rewrite <- (app_nil_r (Part5.entries_of_linear (Part5.fc4 m))).
  destruct (linear_at_entries _ _ _ [] H4) as [-> _].
  destruct m; reflexivity.
Qed.

Lemma shaped_zero_weights (i o : nat) (b : list R) :
  length b = o -> shaped i o (Net.mkLinear i o (repeat (repeat 0 i) o) b).
Proof.
  intro Hb. unfold shaped. cbn [Net.in_features Net.out_features Net.weight Net.bias].
  repeat split; try assumption.
  - apply repeat_length.
  - apply Forall_forall. intros row Hin. apply repeat_spec in Hin. subst.
    apply repeat_length.
Qed.

Lemma class0_entries : Part5.of_entries (map data Part5.class0_params) = Part5.class0.
Proof.
  unfold Part5.class0_params. rewrite map_map. cbn [data]. rewrite map_id.
  apply of_entries_entries; apply shaped_zero_weights; try apply repeat_length.
  reflexivity.
Qed.

(** *** The classifier that answers class 0 *)

Lemma map_combine_zero_rows (i : nat) (x b : list R) :
  map (fun wb => dot (fst wb) x + snd wb) (combine (repeat (repeat 0 i) (length b)) b) = b.
Proof.
  induction b as [|v b IH]; [reflexivity|].
  cbn [length repeat combine map fst snd]. rewrite IH, dot_zero_l.
  f_equal. ring.
Qed.

Lemma bias_only_Linear_call (i : nat) (b : list R) (x : list (list R)) :
  Forall (fun row => length row = i) x ->
  Net.Linear_call (Net.mkLinear i (length b) (repeat (repeat 0 i) (length b)) b) x
  = Ok (map (fun _ => b) x).
Proof.
  intro Hx. apply rmap_Ok_all. eapply Forall_impl; [|exact Hx].
  intros row Hrow. unfold Net.Linear_row.
  cbn [Net.in_features Net.weight Net.bias].
  now rewrite Hrow, Nat.eqb_refl, map_combine_zero_rows.
Qed.

Lemma forward_class0 (images : list Image) :
  Forall (fun img => length (concat img) = 784%nat) images ->
  Part5.forward Part5.class0 images = Ok (map (fun _ => class0_row) images).
Proof.
  intro Himg. unfold Part5.forward, Part5.class0.
  cbn [Part5.fc1 Part5.fc2 Part5.fc3 Part5.fc4].
  assert (Hflat : Forall (fun row => length row = 784%nat) (view_flat images))
    by (apply Forall_map; exact Himg).
  rewrite (zero_Linear_call 784 256 _ Hflat). cbn [rbind].
  rewrite relu_zero_rows.
  rewrite (zero_Linear_call 256 128) by apply zero_rows_width.
  cbn [rbind]. rewrite map_map, relu_zero_rows.
  rewrite (zero_Linear_call 128 64) by apply zero_rows_width.
  cbn [rbind]. rewrite map_map, relu_zero_rows.
  change 10%nat with (length (1 :: repeat 0 9)).
  rewrite (bias_only_Linear_call 64 (1 :: repeat 0 9)) by apply zero_rows_width.
  cbn [rbind]. unfold log_softmax, view_flat. now rewrite !map_map.
Qed.

Lemma class0_model (t : bool) (images : list Image) :
  Forall (fun img => length (concat img) = 784%nat) images ->
  Part5.model (map data Part5.class0_params) t images
  = Ok (map (fun _ => class0_row) images).
Proof. intro H. unfold Part5.model. rewrite class0_entries. now apply forward_class0. Qed.

Lemma class0_model_dropout (batch : list Part5.Sample) :
  Forall (fun s => length (concat (fst s)) = 784%nat) batch ->
  Part5.model_dropout (map data Part5.class0_params) false batch
  = Ok (map (fun _ => class0_row) batch).
Proof.
  intro H. unfold Part5.model_dropout.
  rewrite class0_entries, forward_dropout_eval, forward_class0.
  - now rewrite map_map.
  - apply Forall_map. exact H.
Qed.

(** *** The top class of a row *)

Lemma argmax_from_stays (best : R) (bi i : nat) (row : list R) :
  Forall (fun v => ~ best < v) row -> argmax_from best bi i row = (best, bi).
Proof.
  intro H. revert i. induction H as [|v row Hv _ IH]; intro i; cbn [argmax_from].
  - reflexivity.
  - destruct (Rlt_dec best v); [contradiction|apply IH].
Qed.

Lemma argmax_from_map (f : R -> R) (best : R) (bi i : nat) (row : list R) :
  (forall a b, a < b <-> f a < f b) ->
  argmax_from (f best) bi i (map f row)
  = (f (fst (argmax_from best bi i row)), snd (argmax_from best bi i row)).
Proof.
  intro Hf. revert best bi i. induction row as [|v row IH]; intros best bi i;
    cbn [map argmax_from]; [reflexivity|].
  destruct (Rlt_dec best v) as [Hlt|Hge], (Rlt_dec (f best) (f v)) as [Hlt'|Hge'];
    try apply IH.
  - exfalso. apply Hge'. apply (proj1 (Hf best v)). exact Hlt.
  - exfalso. apply Hge. apply (proj2 (Hf best v)). exact Hlt'.
Qed.

(** The exponential of a log-softmax row has its largest entry where the
    row of logits has it. *)
Lemma topk1_exp_log_softmax (v : R) (row : list R) :
  topk1_row (map exp (log_softmax_row (v :: row)))
  = Ok (exp (fst (argmax_from v 0 1 row) - ln (Rsum (map exp (v :: row)))),
        snd (argmax_from v 0 1 row)).
Proof.
  unfold log_softmax_row. rewrite map_map. cbn [map topk1_row].
  set (lse := ln (Rsum (exp v :: map exp row))).
  rewrite (argmax_from_map (fun u => exp (u - lse))); [reflexivity|].
  intros a b. split; intro H.
  - apply exp_increasing. lra.
  - apply exp_lt_inv in H. lra.
Qed.

(** [topk1_row] answers the largest entry and the first index that
    holds it. *)
Lemma argmax_from_first_maximal (rest pre : list R) (best : R) (bi : nat) :
  nth_error pre bi = Some best ->
  (forall j u, nth_error pre j = Some u -> u <= best) ->
  (forall j u, (j < bi)%nat -> nth_error pre j = Some u -> u < best) ->
  nth_error (pre ++ rest) (snd (argmax_from best bi (length pre) rest))
  = Some (fst (argmax_from best bi (length pre) rest))
  /\ (forall j u, nth_error (pre ++ rest) j = Some u ->
                  u <= fst (argmax_from best bi (length pre) rest))
  /\ (forall j u, (j < snd (argmax_from best bi (length pre) rest))%nat ->
                  nth_error (pre ++ rest) j = Some u ->
                  u < fst (argmax_from best bi (length pre) rest)).
Proof.
  revert pre best bi. induction rest as [|x rest IH]; intros pre best bi Hbest Hle Hlt.
  - cbn [argmax_from fst snd]. rewrite app_nil_r. auto.
  - cbn [argmax_from].
    assert (Hbi : (bi < length pre)%nat)
      by (apply nth_error_Some; rewrite Hbest; discriminate).
    replace (S (length pre)) with (length (pre ++ [x]))
      by (rewrite length_app; cbn; lia).
    replace (pre ++ x :: rest) with ((pre ++ [x]) ++ rest)
      by (rewrite <- app_assoc; reflexivity).
    destruct (Rlt_dec best x) as [Hbx|Hbx]; apply IH.
    + rewrite nth_error_app2, Nat.sub_diag by lia. reflexivity.
    + intros j u Hj. destruct (Nat.lt_ge_cases j (length pre)) as [Hin|Hout].
      * rewrite nth_error_app1 in Hj by exact Hin. specialize (Hle j u Hj). lra.
      * rewrite nth_error_app2 in Hj by exact Hout.
        destruct (j - length pre)%nat as [|n]; cbn in Hj.
        -- inversion Hj. lra.
        -- destruct n; discriminate.
    + intros j u Hjlt Hj. rewrite nth_error_app1 in Hj by exact Hjlt.
      specialize (Hle j u Hj). lra.
    + rewrite nth_error_app1 by exact Hbi. exact Hbest.
    + intros j u Hj. destruct (Nat.lt_ge_cases j (length pre)) as [Hin|Hout].
      * rewrite nth_error_app1 in Hj by exact Hin. exact (Hle j u Hj).
      * rewrite nth_error_app2 in Hj by exact Hout.
        destruct (j - length pre)%nat as [|n]; cbn in Hj.
        -- inversion Hj. lra.
        -- destruct n; discriminate.
    + intros j u Hjlt Hj. rewrite nth_error_app1 in Hj by lia.
      exact (Hlt j u Hjlt Hj).
Qed.

Lemma topk1_row_first_maximal (row : list R) (v : R) (k : nat) :
  topk1_row row = Ok (v, k) ->
  nth_error row k = Some v
  /\ (forall j u, nth_error row j = Some u -> u <= v)
  /\ (forall j u, (j < k)%nat -> nth_error row j = Some u -> u < v).
Proof.
  destruct row as [|v0 rest]; cbn [topk1_row]; [discriminate|].
  intro H. inversion H as [Hk]. clear H.
  destruct (argmax_from_first_maximal rest [v0] v0 0) as (H1 & H2 & H3).
  - reflexivity.
  - intros [|[|j]] u Hj; inversion Hj. lra.
  - intros j u Hj. lia.
  - cbn [length app] in H1, H2, H3. rewrite Hk in H1, H2, H3.
    cbn [fst snd] in H1, H2, H3. auto.
Qed.

Lemma class0_top : exists p, topk1_row (map exp class0_row) = Ok (p, 0%nat).
Proof.
  unfold class0_row. rewrite topk1_exp_log_softmax.
  rewrite argmax_from_stays; [eexists; reflexivity|].
  apply Forall_forall. intros u Hu. apply repeat_spec in Hu. subst. lra.
Qed.

Lemma hits_constant_rows {X} (row : list R) (p : R) (k : nat) (xs : list X)
    (labels : list nat) :
  topk1_row row = Ok (p, k) ->
  length xs = length labels ->
  hits (map (fun _ => row) xs) labels = count_occ Nat.eq_dec labels k.
Proof.
  intro Htop. revert labels. induction xs as [|x xs IH]; intros [|y ys] Hlen;
    try discriminate; [reflexivity|].
  cbn [map hits count_occ]. rewrite Htop. cbn in Hlen.
  rewrite (IH ys) by congruence.
  destruct (Nat.eq_dec y k) as [Heq|Hne'], (Nat.eqb_spec k y) as [Heq'|Hne];
    congruence || reflexivity.
Qed.

Lemma gather_ok (k : nat) (rows : list (list R)) (labels : list nat) :
  Forall (fun row => length row = k) rows ->
  length rows = length labels ->
  Forall (fun y => (y < k)%nat) labels ->
  exists picked, Net.gather rows labels = Ok picked /\ length picked = length labels.
Proof.
  intro Hrows. revert labels. induction Hrows as [|row rows Hrow _ IH];
    intros [|y ys] Hlen Hys; try discriminate.
  - exists []. split; reflexivity.
  - inversion Hys as [|? ? Hy Hys']; subst. cbn in Hlen.
    destruct (IH ys) as (picked & Hg & Hl); [congruence|exact Hys'|].
    destruct (nth_error row y) as [v|] eqn:Hnth.
    + exists (v :: picked). cbn [Net.gather]. rewrite Hnth, Hg. cbn.
      split; [reflexivity|now rewrite Hl].
    + apply nth_error_None in Hnth. lia.
Qed.

Lemma NLLLoss_ok (k : nat) (rows : list (list R)) (labels : list nat) :
  labels <> [] ->
  Forall (fun row => length row = k) rows ->
  length rows = length labels ->
  Forall (fun y => (y < k)%nat) labels ->
  exists l, Net.NLLLoss rows labels = Ok l.
Proof.
  intros Hne Hrows Hlen Hys.
  destruct (gather_ok k rows labels Hrows Hlen Hys) as (picked & Hg & Hl).
  unfold Net.NLLLoss. rewrite Hg. cbn [rbind].
  destruct picked as [|v picked]; [|eexists; reflexivity].
  destruct labels; [congruence|discriminate].
Qed.

(** A model that gives [class0_row] for every sample of a batch it
    accepts evaluates every such batch, and its hits are the labels 0. *)
Section ConstantModel.

Context {X : Type}.
Variable fw : list R -> bool -> list X -> result (list (list R)).
Variables (d : list R) (t : bool) (good : X -> Prop).
Hypothesis fw_constant :
  forall xs, Forall good xs -> fw d t xs = Ok (map (fun _ => class0_row) xs).

Lemma constant_batch_hits (xs : list X) (labels : list nat) :
  Forall good xs -> length xs = length labels ->
  batch_hits fw d t (xs, labels) = count_occ Nat.eq_dec labels 0%nat.
Proof.
  intros Hgood Hlen. unfold batch_hits. cbn [fst snd]. rewrite (fw_constant xs Hgood).
  unfold torch_exp. rewrite map_map.
  destruct class0_top as [p Hp].
  now apply (hits_constant_rows (map exp class0_row) p).
Qed.

Lemma constant_batch_evaluable (xs : list X) (labels : list nat) :
  labels <> [] -> Forall good xs -> length xs = length labels ->
  Forall (fun y => (y < 10)%nat) labels ->
  batch_evaluable fw d t (xs, labels).
Proof.
  intros Hne Hgood Hlen Hys. unfold batch_evaluable. cbn [fst snd].
  rewrite (fw_constant xs Hgood).
  assert (Hwidth : Forall (fun row => length row = 10%nat)
                          (map (fun _ : X => class0_row) xs)).
  { apply Forall_map, Forall_forall. intros _ _. reflexivity. }
  destruct (NLLLoss_ok 10 _ labels Hne Hwidth) as [l Hl];
    [now rewrite length_map|exact Hys|].
  exists (map (fun _ => class0_row) xs), l.
  split; [reflexivity|]. split; [now rewrite length_map|]. split; [|exact Hl].
  apply Forall_map, Forall_forall. intros _ _. discriminate.
Qed.

End ConstantModel.

End ByHand.

(** C6, as stated, fails on the exceptional exit.  The dropout classifier
    is given a test batch whose image has lost its pixels: the first layer
    raises, the exception leaves the pass, and the model is still in
    evaluation mode; [model.train()] was never called. *)
Lemma evaluation_mode_stays_after_exception :
  let w0 := mkWorld Part5.class0_params Optim.Adam_init true true [] in
  let testloader := DataLoader [((Part5.blank, Part5.all_kept), 0%nat)] batch_size in
  let out := Part5.validation_17 Part5.model_dropout Part5.no_autograd testloader w0 in
  fst out = Raise SizeMismatch
  /\ training (snd out) = false
  /\ trace (snd out) = [EvEval; EvForward false false [(Part5.blank, Part5.all_kept)]].
Proof.
  cbv zeta.
  change (DataLoader [((Part5.blank, Part5.all_kept), 0%nat)] batch_size)
    with [([(Part5.blank, Part5.all_kept)], [0%nat])].
  unfold Part5.validation_17, validation_pass_17, no_grad.
  unfold bind at 1. unfold bind at 1. unfold model_eval at 1.
  unfold bind at 1, emit at 1, set_training, set_grad_enabled.
  cbn [params opt_state training grad_enabled trace for_each].
  unfold bind at 1. rewrite validation_batch_17_run. cbv zeta.
  cbn [params opt_state training grad_enabled trace].
  rewrite model_dropout_blank.
  cbn [fst snd logged params opt_state training grad_enabled trace app].
  repeat split.
Qed.

(** C4, as stated, fails on "only the parameters change".  One batch of
    the Adam loop of Part 5 on the one-pixel network: the loop completes,
    and the optimizer's own step count for the first entry, which is no
    parameter of the model, has gone from 0 to 1. *)
Lemma training_loop_changes_optimizer_state :
  let w0 := mkWorld Tiny.params0 Optim.Adam_init true true [] in
  let out := Part5.training_loop Tiny.forward Tiny.autograd
               [([Tiny.pixel 0], [0%nat])] w0 in
  (exists running_loss, fst out = Ok running_loss)
  /\ Optim.step (opt_state w0 0%nat) = 0%nat
  /\ Optim.step (opt_state (snd out) 0%nat) = 1%nat.
Proof.
  cbv zeta. unfold Part5.training_loop, training_loop.
  cbn [for_each]. unfold bind at 1. rewrite train_batch_run. cbv zeta.
  cbn [params opt_state training grad_enabled trace].
  assert (Hf : exists out, Tiny.forward (map data Tiny.params0) true [Tiny.pixel 0] = Ok [out]
                           /\ exists v, nth_error out 0 = Some v).
  { eexists. split; [reflexivity|]. eexists. reflexivity. }
  destruct Hf as (out & -> & v & Hv).
  unfold Net.NLLLoss. cbn [Net.gather]. rewrite Hv.
  cbn [of_option rbind length].
  unfold ret. cbn [fst snd opt_state Optim.Adam_step].
  split; [eexists; reflexivity|]. split; reflexivity.
Qed.

(** *** Sixty-four samples and one more *)

Lemma loader_64_and_1 {X} (s s' : X * nat) :
  DataLoader (repeat s 64 ++ [s']) batch_size
  = [(repeat (fst s) 64, repeat (snd s) 64); ([fst s'], [snd s'])].
Proof. reflexivity. Qed.

Lemma grey_shape : length (concat Part5.grey) = 784%nat.
Proof. reflexivity. Qed.

Lemma INR_ratio_same (n : nat) : n <> 0%nat -> INR n / INR n = 1.
Proof. intro H. field. now apply not_0_INR. Qed.

Lemma grey_samples_good (k : Part5.draws) (n : nat) :
  Forall (fun s : Part5.Sample => length (concat (fst s)) = 784%nat)
         (repeat (Part5.grey, k) n).
Proof.
  apply Forall_forall. intros s Hs. apply repeat_spec in Hs. subst. exact grey_shape.
Qed.

Lemma grey_images_good (n : nat) :
  Forall (fun img : Image => length (concat img) = 784%nat) (repeat Part5.grey n).
Proof.
  apply Forall_forall. intros s Hs. apply repeat_spec in Hs. subst. exact grey_shape.
Qed.

Lemma labels_below_10 (y n : nat) : (y < 10)%nat -> Forall (fun z => (z < 10)%nat) (repeat y n).
Proof. intro H. apply Forall_forall. intros z Hz. apply repeat_spec in Hz. now subst. Qed.

(** C1 at a failing input.  The notebook defines accuracy as the
    percentage of classes the network predicted correctly and prints the
    number as "Test Accuracy"; the cell adds up the means of the batches
    and divides by the number of batches.  The classifier that answers
    class 0 is given 65 test images at the batch size of the notebook: 64
    with label 0, then one with label 1.  The first batch is all right,
    the second all wrong; the cell reports 1/2, and 64 of the 65 samples
    were predicted right. *)
Theorem accuracy_of_uneven_batches_is_not_the_fraction :
  let x := (Part5.grey, Part5.all_kept) in
  let testset := repeat (x, 0%nat) 64 ++ [(x, 1%nat)] in
  let w0 := mkWorld Part5.class0_params Optim.Adam_init true true [] in
  let testloader := DataLoader testset batch_size in
  exists acc w',
    Part5.reported_accuracy Part5.model_dropout Part5.no_autograd testloader w0
    = (Ok acc, w')
    /\ acc = 1 / 2
    /\ correct_count Part5.model_dropout (map data (params w0)) false testloader = 64%nat
    /\ length testset = 65%nat
    /\ acc <> 64 / 65.
Proof.
  cbv zeta. rewrite loader_64_and_1. cbn [fst snd params].
  set (x := (Part5.grey, Part5.all_kept)).
  set (d := map data Part5.class0_params).
  assert (H1 : batch_hits Part5.model_dropout d false (repeat x 64, repeat 0%nat 64)
               = 64%nat).
  { rewrite (constant_batch_hits Part5.model_dropout d false _ class0_model_dropout).
    - reflexivity.
    - apply grey_samples_good.
    - rewrite !repeat_length. reflexivity. }
  assert (H2 : batch_hits Part5.model_dropout d false ([x], [1%nat]) = 0%nat).
  { rewrite (constant_batch_hits Part5.model_dropout d false _ class0_model_dropout).
    - reflexivity.
    - apply (grey_samples_good Part5.all_kept 1).
    - reflexivity. }
  destruct (reported_accuracy_17_value Part5.model_dropout Part5.no_autograd
              [(repeat x 64, repeat 0%nat 64); ([x], [1%nat])]
              (mkWorld Part5.class0_params Optim.Adam_init true true []))
    as (acc & w' & Hrun & Hmean & _ & _).
  - discriminate.
  - repeat constructor; discriminate.
  - cbn [params]. fold d. constructor; [|constructor; [|constructor]].
    + apply (constant_batch_evaluable Part5.model_dropout d false _ class0_model_dropout).
      * discriminate.
      * apply grey_samples_good.
      * rewrite !repeat_length. reflexivity.
      * apply labels_below_10. lia.
    + apply (constant_batch_evaluable Part5.model_dropout d false _ class0_model_dropout).
      * discriminate.
      * apply (grey_samples_good Part5.all_kept 1).
      * reflexivity.
      * repeat constructor.
  - cbn [params] in Hmean. fold d in Hmean.
    assert (Hacc : acc = 1 / 2).
    { rewrite Hmean. unfold mean_of_batch_ratios, batch_ratio.
      cbn [map length snd]. rewrite H1, H2, repeat_length.
      rewrite !Rsum_cons. rewrite INR_ratio_same by discriminate.
      cbn [Rsum fold_right INR]. field. }
    exists acc, w'. split; [exact Hrun|]. split; [exact Hacc|].
    split; [|split].
    + unfold correct_count. cbn [map list_sum fold_right]. rewrite H1, H2. reflexivity.
    + reflexivity.
    + rewrite Hacc. lra.
Qed.

(** A test set of three samples in batches of two is one the dropout cell
    evaluates. *)
Lemma reported_accuracy_is_mean_of_batch_accuracies_witness :
  let x := (Part5.grey, Part5.all_kept) in
  let testset := [(x, 0%nat); (x, 1%nat); (x, 0%nat)] in
  let w0 := mkWorld Part5.class0_params Optim.Adam_init true true [] in
  exists acc w',
    reported_accuracy_17 Part5.model_dropout Part5.no_autograd
                         (DataLoader testset 2) w0 = (Ok acc, w')
    /\ 0 <= acc <= 1.
Proof.
  cbv zeta.
  set (x := (Part5.grey, Part5.all_kept)).
  set (d := map data Part5.class0_params).
  destruct (reported_accuracy_is_mean_of_batch_accuracies
              Part5.model_dropout Part5.no_autograd
              [(x, 0%nat); (x, 1%nat); (x, 0%nat)] 2
              (mkWorld Part5.class0_params Optim.Adam_init true true []))
    as (acc & w' & Hrun & Hunit & _).
  - lia.
  - discriminate.
  - change (DataLoader [(x, 0%nat); (x, 1%nat); (x, 0%nat)] 2)
      with [([x; x], [0%nat; 1%nat]); ([x], [0%nat])].
    cbn [params]. fold d. constructor; [|constructor; [|constructor]].
    + apply (constant_batch_evaluable Part5.model_dropout d false _ class0_model_dropout).
      * discriminate.
      * apply (grey_samples_good Part5.all_kept 2).
      * reflexivity.
      * repeat constructor.
    + apply (constant_batch_evaluable Part5.model_dropout d false _ class0_model_dropout).
      * discriminate.
      * apply (grey_samples_good Part5.all_kept 1).
      * reflexivity.
      * repeat constructor.
  - exists acc, w'. split; assumption.
Defined.

(** C2 at a failing input.  The first training cell of Part 5 assigns
    [accuracy] in every iteration.  On 65 test images, the first 64 with a
    label the classifier misses and the last with the label it answers,
    the cell reports 1 (it prints 100%): the accuracy of the last batch,
    which holds one sample.  The mean over the two batches is 1/2, and one
    sample of the 65 was predicted right. *)
Theorem first_validation_cell_reports_last_batch :
  let testset := repeat (Part5.grey, 1%nat) 64 ++ [(Part5.grey, 0%nat)] in
  let w0 := mkWorld Part5.class0_params Optim.Adam_init true true [] in
  let testloader := DataLoader testset batch_size in
  (exists w', Part5.validation_13 Part5.model None testloader w0 = (Ok 1, w'))
  /\ mean_of_batch_ratios Part5.model (map data (params w0)) true testloader = 1 / 2
  /\ correct_count Part5.model (map data (params w0)) true testloader = 1%nat
  /\ length testset = 65%nat.
Proof.
  cbv zeta. rewrite loader_64_and_1. cbn [fst snd params].
  set (d := map data Part5.class0_params).
  assert (Hmodel : forall xs : list Image,
             Forall (fun img => length (concat img) = 784%nat) xs ->
             Part5.model d true xs = Ok (map (fun _ => class0_row) xs))
    by apply class0_model.
  assert (H1 : batch_hits Part5.model d true (repeat Part5.grey 64, repeat 1%nat 64)
               = 0%nat).
  { rewrite (constant_batch_hits Part5.model d true _ Hmodel).
    - reflexivity.
    - apply grey_images_good.
    - rewrite !repeat_length. reflexivity. }
  assert (H2 : batch_hits Part5.model d true ([Part5.grey], [0%nat]) = 1%nat).
  { rewrite (constant_batch_hits Part5.model d true _ Hmodel).
    - reflexivity.
    - apply (grey_images_good 1).
    - reflexivity. }
  split; [|split; [|split]].
  - destruct (validation_pass_13_value Part5.model None
                [(repeat Part5.grey 64, repeat 1%nat 64)] ([Part5.grey], [0%nat])
                (mkWorld Part5.class0_params Optim.Adam_init true true []))
      as (w' & Hrun).
    + repeat constructor; discriminate.
    + cbn [params training app]. fold d. constructor; [|constructor; [|constructor]].
      * apply (constant_batch_evaluable Part5.model d true _ Hmodel).
        -- discriminate.
        -- apply grey_images_good.
        -- rewrite !repeat_length. reflexivity.
        -- apply labels_below_10. lia.
      * apply (constant_batch_evaluable Part5.model d true _ Hmodel).
        -- discriminate.
        -- apply (grey_images_good 1).
        -- reflexivity.
        -- repeat constructor.
    + exists w'. unfold Part5.validation_13. cbn [app] in Hrun. rewrite Hrun.
      cbn [params training]. fold d. unfold batch_ratio. rewrite H2.
      cbn [snd length]. now rewrite INR_ratio_same by discriminate.
  - unfold mean_of_batch_ratios, batch_ratio. cbn [map length snd].
    rewrite H1, H2, repeat_length. rewrite !Rsum_cons.
    rewrite INR_ratio_same by discriminate.
    cbn [Rsum fold_right INR]. field.
  - unfold correct_count. cbn [map list_sum fold_right]. rewrite H1, H2. reflexivity.
  - reflexivity.
Qed.

(** * Further properties of the cells *)

(** ** Shapes and probabilities *)

Section Shapes.

Lemma rmap_length {A B} (f : A -> result B) (l : list A) (out : list B) :
  rmap f l = Ok out -> length out = length l.
Proof.
  revert out. induction l as [|a l IH]; intros out; cbn [rmap].
  - intro H. inversion H. reflexivity.
  - destruct (f a) as [b|e]; cbn [rbind]; [|discriminate].
    destruct (rmap f l) as [bs|e]; cbn [rbind]; [|discriminate].
    intro H. inversion H. cbn [length]. now rewrite (IH bs).
Qed.

Lemma rmap_all {A B} (f : A -> result B) (P : A -> Prop) (Q : B -> Prop) (l : list A) :
  (forall a, P a -> exists b, f a = Ok b /\ Q b) ->
  Forall P l ->
  exists out, rmap f l = Ok out /\ length out = length l /\ Forall Q out.
Proof.
  intros Hf. induction 1 as [|a l Ha _ (out & Hr & Hl & Hq)].
  - exists []. repeat split. constructor.
  - destruct (Hf a Ha) as (b & Hb & Hqb).
    exists (b :: out). cbn [rmap]. rewrite Hb, Hr. cbn [rbind length].
    split; [reflexivity|]. split; [now rewrite Hl|now constructor].
Qed.

Lemma rmap_refuses {A B} (f : A -> result B) (P : A -> Prop) (e : exn) (l : list A) :
  (forall a, P a \/ f a = Raise e) ->
  (forall a, P a -> exists b, f a = Ok b) ->
  ~ Forall P l -> rmap f l = Raise e.
Proof.
  intros Hdec Hok. induction l as [|a l IH]; intro Hnot.
  - exfalso. apply Hnot. constructor.
  - cbn [rmap]. destruct (Hdec a) as [Ha|Ha].
    + destruct (Hok a Ha) as [b Hb]. rewrite Hb. cbn [rbind].
      rewrite IH; [reflexivity|]. intro Hl. apply Hnot. now constructor.
    + now rewrite Ha.
Qed.

Lemma Linear_row_shape (i o : nat) (l : Net.Linear) (x : list R) :
  shaped i o l -> length x = i ->
  exists row, Net.Linear_row l x = Ok row /\ length row = o.
Proof.
  intros (Hi & Ho & Hw & Hrows & Hb) Hx. unfold Net.Linear_row.
  rewrite Hx, Hi, Nat.eqb_refl. eexists. split; [reflexivity|].
  rewrite length_map, length_combine, Hw, Hb. apply Nat.min_id.
Qed.

Lemma Linear_row_refuses (i o : nat) (l : Net.Linear) (x : list R) :
  shaped i o l -> length x <> i -> Net.Linear_row l x = Raise SizeMismatch.
Proof.
  intros (Hi & _) Hx. unfold Net.Linear_row. rewrite Hi.
  destruct (Nat.eqb_spec (length x) i); [contradiction|reflexivity].
Qed.

Lemma Linear_call_shape (i o : nat) (l : Net.Linear) (x : list (list R)) :
  shaped i o l -> Forall (fun row => length row = i) x ->
  exists out, Net.Linear_call l x = Ok out
              /\ length out = length x
              /\ Forall (fun row => length row = o) out.
Proof.
  intros Hl Hx. unfold Net.Linear_call.
  apply (rmap_all _ (fun row => length row = i)); [|exact Hx].
  intros row Hrow. now apply (Linear_row_shape i o).
Qed.

Lemma Linear_call_refuses (i o : nat) (l : Net.Linear) (x : list (list R)) :
  shaped i o l -> ~ Forall (fun row => length row = i) x ->
  Net.Linear_call l x = Raise SizeMismatch.
Proof.
  intros Hl Hx. unfold Net.Linear_call.
  apply (rmap_refuses _ (fun row => length row = i)); [| |exact Hx].
  - intro row. destruct (Nat.eq_dec (length row) i) as [H|H]; [now left|right].
    now apply (Linear_row_refuses i o).
  - intros row Hrow. destruct (Linear_row_shape i o l row Hl Hrow) as (r & Hr & _).
    now exists r.
Qed.

Lemma relu_shape (o : nat) (x : list (list R)) :
  Forall (fun row => length row = o) x ->
  Forall (fun row => length row = o) (relu x).
Proof.
  intro H. unfold relu. apply Forall_map. eapply Forall_impl; [|exact H].
  intros row Hrow. now rewrite length_map.
Qed.

Lemma mapi_from_Forall {A B} (f : nat -> A -> B) (P : A -> Prop) (Q : B -> Prop)
    (l : list A) :
  (forall i a, P a -> Q (f i a)) ->
  Forall P l -> forall k, Forall Q (Net.mapi_from f k l).
Proof.
  intros Hf. induction 1 as [|a l Ha _ IH]; intro k; cbn [Net.mapi_from]; constructor.
  - now apply Hf.
  - apply IH.
Qed.

Lemma Dropout_shape (p : R) (t : bool) (keep : Net.mask) (o : nat) (x : list (list R)) :
  Forall (fun row => length row = o) x ->
  Forall (fun row => length row = o) (Net.Dropout p t keep x).
Proof.
  intro H. unfold Net.Dropout. destruct t; [|exact H].
  apply (mapi_from_Forall _ (fun row => length row = o)); [|exact H].
  intros i row Hrow. now rewrite length_mapi_from.
Qed.

Lemma Dropout_length (p : R) (t : bool) (keep : Net.mask) (x : list (list R)) :
  length (Net.Dropout p t keep (relu x)) = length x.
Proof.
  unfold Net.Dropout, relu. destruct t; [rewrite length_mapi_from|]; apply length_map.
Qed.

(** Log-probabilities are not positive: the probabilities lie in (0, 1]. *)
Lemma exp_le_Rsum_exp (v : R) (row : list R) :
  In v row -> exp v <= Rsum (map exp row).
Proof.
  induction row as [|u row IH]; [intros []|].
  cbn [map]. rewrite Rsum_cons. intros [->|Hin].
  - destruct row as [|u' row].
    + cbn. lra.
    + pose proof (Rsum_exp_pos (u' :: row)) as Hp.
      assert (0 < Rsum (map exp (u' :: row))) by (apply Hp; discriminate). lra.
  - specialize (IH Hin). pose proof (exp_pos u). lra.
Qed.

Lemma log_softmax_row_probabilities (row : list R) :
  Forall (fun p => 0 < p <= 1) (map exp (log_softmax_row row)).
Proof.
  unfold log_softmax_row. rewrite map_map. apply Forall_map, Forall_forall.
  intros v Hin. split; [apply exp_pos|].
  assert (Hne : row <> []) by (destruct row; [destruct Hin|discriminate]).
  pose proof (Rsum_exp_pos row Hne) as Hpos.
  pose proof (exp_le_Rsum_exp v row Hin) as Hle.
  set (s := Rsum (map exp row)) in *.
  unfold Rminus. rewrite exp_plus, exp_Ropp, exp_ln by exact Hpos.
  apply (Rmult_le_reg_r s); [exact Hpos|].
  replace (exp v * / s * s) with (exp v) by (field; lra). lra.
Qed.

Lemma log_softmax_probabilities (o : nat) (h : list (list R)) :
  (0 < o)%nat ->
  Forall (fun row => length row = o) h ->
  Forall (fun row => length row = o /\ Rsum row = 1 /\ Forall (fun p => 0 < p <= 1) row)
         (torch_exp (log_softmax h)).
Proof.
  intros Ho H. unfold torch_exp, log_softmax. rewrite map_map.
  apply Forall_map. eapply Forall_impl; [|exact H].
  intros row Hrow. split; [|split].
  - unfold log_softmax_row. now rewrite !length_map.
  - apply log_softmax_row_normalised. destruct row; [cbn in Hrow; lia|discriminate].
  - apply log_softmax_row_probabilities.
Qed.

End Shapes.

(** X1.  The networks of Part 3 on a batch of flattened images: both accept
    the batch exactly when every row has 784 entries; the exercise's
    network then answers the log-softmax of the logits the first network
    answers, one row of ten log-probabilities per image. *)
Theorem sequential_networks_give_ten_classes_per_image :
  forall (l1 l2 l3 : Net.Linear) (images : list (list R)),
    shaped 784 128 l1 -> shaped 128 64 l2 -> shaped 64 10 l3 ->
    (Forall (fun row => length row = 784%nat) images ->
     exists logits,
       Net.Sequential (Net.logits_model l1 l2 l3) images = Ok logits
       /\ Net.Sequential (Net.logsoftmax_model l1 l2 l3) images = Ok (log_softmax logits)
       /\ length logits = length images
       /\ Forall (fun row => length row = 10%nat) logits
       /\ Forall (fun ps_row => length ps_row = 10%nat
                                /\ Rsum ps_row = 1
                                /\ Forall (fun p => 0 < p <= 1) ps_row)
                 (torch_exp (log_softmax logits)))
    /\ (~ Forall (fun row => length row = 784%nat) images ->
        Net.Sequential (Net.logits_model l1 l2 l3) images = Raise SizeMismatch
        /\ Net.Sequential (Net.logsoftmax_model l1 l2 l3) images = Raise SizeMismatch).
Proof.
  intros l1 l2 l3 images H1 H2 H3. split.
  - intro Himg.
    assert (Hlogits : exists logits,
               Net.Sequential (Net.logits_model l1 l2 l3) images = Ok logits
               /\ length logits = length images
               /\ Forall (fun row => length row = 10%nat) logits).
    { unfold Net.logits_model. cbn [Net.Sequential Net.module_call].
      destruct (Linear_call_shape _ _ _ _ H1 Himg) as (h1 & -> & Hl1 & Hw1).
      cbn [rbind].
      destruct (Linear_call_shape _ _ _ (relu h1) H2) as (h2 & -> & Hl2 & Hw2);
        [now apply relu_shape|].
      cbn [rbind].
      destruct (Linear_call_shape _ _ _ (relu h2) H3) as (h3 & -> & Hl3 & Hw3);
        [now apply relu_shape|].
      cbn [rbind]. exists h3. split; [reflexivity|]. split; [|exact Hw3].
      unfold relu in *. rewrite length_map in Hl2, Hl3. congruence. }
    destruct Hlogits as (logits & Hrun & Hlen & Hw).
    exists logits. split; [exact Hrun|]. split.
    { rewrite logsoftmax_model_split, Hrun. reflexivity. }
    split; [exact Hlen|]. split; [exact Hw|].
    apply log_softmax_probabilities; [lia|exact Hw].
  - intro Himg.
    assert (Hlogits : Net.Sequential (Net.logits_model l1 l2 l3) images = Raise SizeMismatch).
    { unfold Net.logits_model. cbn [Net.Sequential Net.module_call].
      now rewrite (Linear_call_refuses 784 128). }
    split; [exact Hlogits|]. now rewrite logsoftmax_model_split, Hlogits.
Qed.

Lemma sequential_networks_give_ten_classes_per_image_witness :
  exists logits,
    Net.Sequential (Net.logits_model (Net.zero_Linear 784 128) (Net.zero_Linear 128 64)
                                     (Net.zero_Linear 64 10))
                   [repeat 1 784] = Ok logits
    /\ length logits = 1%nat.
Proof.
  destruct (sequential_networks_give_ten_classes_per_image
              (Net.zero_Linear 784 128) (Net.zero_Linear 128 64) (Net.zero_Linear 64 10)
              [repeat 1 784]
              (shaped_zero_weights 784 128 (repeat 0 128) (repeat_length 0 128))
              (shaped_zero_weights 128 64 (repeat 0 64) (repeat_length 0 64))
              (shaped_zero_weights 64 10 (repeat 0 10) (repeat_length 0 10))) as [Hok _].
  destruct Hok as (logits & Hrun & _ & Hlen & _).
  - constructor; [apply repeat_length|constructor].
  - exists logits. split; assumption.
Defined.

(** ** The loss *)

Section Losses.

Lemma log_softmax_row_sign (row : list R) (u : R) :
  In u (log_softmax_row row) -> u <= 0.
Proof.
  unfold log_softmax_row. intro Hin. apply in_map_iff in Hin.
  destruct Hin as (v & <- & Hv).
  assert (Hne : row <> []) by (destruct row; [destruct Hv|discriminate]).
  pose proof (Rsum_exp_pos row Hne) as Hpos.
  pose proof (exp_le_Rsum_exp v row Hv) as Hle.
  set (s := Rsum (map exp row)) in *.
  destruct Hle as [Hlt|Heq].
  - apply (ln_increasing _ _ (exp_pos v)) in Hlt. rewrite ln_exp in Hlt. lra.
  - rewrite <- Heq, ln_exp. lra.
Qed.

Lemma gather_picks (rows : list (list R)) (labels : list nat) (picked : list R) :
  Net.gather rows labels = Ok picked ->
  length picked = length labels
  /\ Forall (fun v => exists row, In row rows /\ In v row) picked.
Proof.
  revert labels picked. induction rows as [|row rows IH]; intros [|y ys] picked;
    cbn [Net.gather]; try discriminate.
  - intro H. inversion H. split; [reflexivity|constructor].
  - destruct (nth_error row y) as [v|] eqn:Hnth; cbn [of_option rbind]; [|discriminate].
    destruct (Net.gather rows ys) as [vs|e] eqn:Hg; cbn [rbind]; [|discriminate].
    intro H. inversion H. subst picked.
    destruct (IH ys vs Hg) as [Hl Hall]. split; [cbn; now rewrite Hl|].
    constructor.
    + exists row. split; [now left|]. eapply nth_error_In; exact Hnth.
    + eapply Forall_impl; [|exact Hall].
      intros u (r & Hr & Hu). exists r. split; [now right|exact Hu].
Qed.

Lemma Rsum_sign (xs : list R) :
  Forall (fun x => x <= 0) xs -> Rsum xs <= 0.
Proof.
  induction 1 as [|x xs Hx _ IH]; [cbn; lra|]. rewrite Rsum_cons. lra.
Qed.

Lemma gather_out_of_bounds (k : nat) (rows : list (list R)) (labels : list nat) :
  Forall (fun row => length row = k) rows ->
  length rows = length labels ->
  Exists (fun y => (k <= y)%nat) labels ->
  Net.gather rows labels = Raise TargetOutOfBounds.
Proof.
  intro Hrows. revert labels. induction Hrows as [|row rows Hrow _ IH];
    intros [|y ys] Hlen Hex; try discriminate.
  - inversion Hex.
  - cbn [Net.gather]. cbn in Hlen.
    destruct (nth_error row y) as [v|] eqn:Hnth; cbn [of_option rbind]; [|reflexivity].
    assert (Hy : (y < k)%nat).
    { rewrite <- Hrow. apply nth_error_Some. rewrite Hnth. discriminate. }
    inversion Hex as [? ? Hbad|? ? Hrest]; subst; [lia|].
    rewrite IH; [reflexivity|congruence|exact Hrest].
Qed.

Lemma gather_size_mismatch (k : nat) (rows : list (list R)) (labels : list nat) :
  Forall (fun row => length row = k) rows ->
  length rows <> length labels ->
  Forall (fun y => (y < k)%nat) labels ->
  Net.gather rows labels = Raise SizeMismatch.
Proof.
  intro Hrows. revert labels. induction Hrows as [|row rows Hrow _ IH];
    intros [|y ys] Hlen Hys; try reflexivity.
  - exfalso. apply Hlen. reflexivity.
  - cbn [Net.gather]. inversion Hys as [|? ? Hy Hys']; subst.
    destruct (nth_error row y) as [v|] eqn:Hnth; cbn [of_option rbind].
    + rewrite IH; [reflexivity| |exact Hys']. cbn in Hlen. congruence.
    + apply nth_error_None in Hnth. lia.
Qed.

Lemma uniform_classes (k y : nat) :
  (y < k)%nat ->
  nth_error (log_softmax_row (repeat 0 k)) y = Some (- ln (INR k)).
Proof.
  intro Hy. unfold log_softmax_row. rewrite !map_repeat, Rsum_repeat, exp_0.
  rewrite nth_error_repeat by exact Hy. f_equal.
  replace (INR k * 1) with (INR k) by ring. ring.
Qed.

End Losses.

(** X2.  The loss of a batch of log-probabilities.  For logits of [k]
    classes and as many labels below [k] as there are rows, no entry of
    the log-softmax is positive, and [NLLLoss] of the log-softmax (which
    is [CrossEntropyLoss] of the logits) is defined and not negative. *)
Theorem loss_of_log_probabilities_is_not_negative :
  forall (k : nat) (logits : list (list R)) (labels : list nat),
    labels <> [] ->
    Forall (fun row => length row = k) logits ->
    length logits = length labels ->
    Forall (fun y => (y < k)%nat) labels ->
    Forall (Forall (fun u => u <= 0)) (log_softmax logits)
    /\ exists l,
         Net.NLLLoss (log_softmax logits) labels = Ok l
         /\ Net.CrossEntropyLoss logits labels = Ok l
         /\ 0 <= l.
Proof.
  intros k logits labels Hne Hrows Hlen Hys.
  assert (Hsigns : Forall (Forall (fun u => u <= 0)) (log_softmax logits)).
  { unfold log_softmax. apply Forall_map, Forall_forall. intros row _.
    apply Forall_forall. intros u. apply log_softmax_row_sign. }
  split; [exact Hsigns|].
  assert (Hrows' : Forall (fun row => length row = k) (log_softmax logits)).
  { unfold log_softmax. apply Forall_map. eapply Forall_impl; [|exact Hrows].
    intros row Hrow. unfold log_softmax_row. now rewrite length_map. }
  assert (Hlen' : length (log_softmax logits) = length labels)
    by (unfold log_softmax; now rewrite length_map).
  destruct (gather_ok k _ labels Hrows' Hlen' Hys) as (picked & Hg & Hl).
  destruct (gather_picks _ _ _ Hg) as [_ Hin].
  assert (Hsign : Forall (fun v => v <= 0) picked).
  { eapply Forall_impl; [|exact Hin]. intros v (row & Hrow & Hv).
    rewrite Forall_forall in Hsigns. specialize (Hsigns row Hrow).
    rewrite Forall_forall in Hsigns. now apply Hsigns. }
  assert (Hpne : picked <> []).
  { destruct picked; [|discriminate]. destruct labels; [congruence|discriminate]. }
  assert (Hn : 0 < INR (length picked)).
  { apply lt_0_INR. destruct picked; [congruence|cbn; lia]. }
  assert (Hi : 0 < / INR (length picked)) by (apply Rinv_0_lt_compat; exact Hn).
  exists (- Rsum picked / INR (length picked)).
  assert (Hrun : Net.NLLLoss (log_softmax logits) labels
                 = Ok (- Rsum picked / INR (length picked))).
  { unfold Net.NLLLoss. rewrite Hg. cbn [rbind].
    destruct picked; [congruence|reflexivity]. }
  split; [exact Hrun|]. split; [exact Hrun|].
  pose proof (Rsum_sign picked Hsign).
  unfold Rdiv. apply Rmult_le_pos; lra.
Qed.

Lemma loss_of_log_probabilities_is_not_negative_witness :
  exists l,
    Net.NLLLoss (log_softmax [[1; 2; 3]; [0; 0; 5]]) [2%nat; 0%nat] = Ok l
    /\ Net.CrossEntropyLoss [[1; 2; 3]; [0; 0; 5]] [2%nat; 0%nat] = Ok l
    /\ 0 <= l.
Proof.
  refine (proj2 (loss_of_log_probabilities_is_not_negative
                   3 [[1; 2; 3]; [0; 0; 5]] [2%nat; 0%nat] _ _ _ _)).
  - discriminate.
  - repeat constructor.
  - reflexivity.
  - repeat constructor.
Defined.

(** X3.  What the loss refuses.  With one row of [k] log-probabilities per
    sample: a label that is [k] or more raises "target out of bounds" when
    there is one label per row, and a number of labels other than the
    number of rows raises a size mismatch when all labels are below [k];
    [CrossEntropyLoss] refuses the same batches. *)
Theorem loss_refuses_labels_that_do_not_fit :
  forall (k : nat) (rows : list (list R)) (labels : list nat),
    Forall (fun row => length row = k) rows ->
    (length rows = length labels ->
     Exists (fun y => (k <= y)%nat) labels ->
     Net.NLLLoss rows labels = Raise TargetOutOfBounds
     /\ Net.CrossEntropyLoss rows labels = Raise TargetOutOfBounds)
    /\ (length rows <> length labels ->
        Forall (fun y => (y < k)%nat) labels ->
        Net.NLLLoss rows labels = Raise SizeMismatch
        /\ Net.CrossEntropyLoss rows labels = Raise SizeMismatch).
Proof.
  intros k rows labels Hrows.
  assert (Hrows' : Forall (fun row => length row = k) (log_softmax rows)).
  { unfold log_softmax. apply Forall_map. eapply Forall_impl; [|exact Hrows].
    intros row Hrow. unfold log_softmax_row. now rewrite length_map. }
  assert (Hlen' : length (log_softmax rows) = length rows)
    by (unfold log_softmax; now rewrite length_map).
  split.
  - intros Hlen Hex. unfold Net.CrossEntropyLoss, Net.NLLLoss.
    rewrite (gather_out_of_bounds k rows labels Hrows Hlen Hex).
    rewrite (gather_out_of_bounds k _ labels Hrows') by (congruence || exact Hex).
    split; reflexivity.
  - intros Hlen Hys. unfold Net.CrossEntropyLoss, Net.NLLLoss.
    rewrite (gather_size_mismatch k rows labels Hrows Hlen Hys).
    rewrite (gather_size_mismatch k _ labels Hrows') by (congruence || exact Hys).
    split; reflexivity.
Qed.

Lemma loss_refuses_labels_that_do_not_fit_witness :
  Net.NLLLoss [[0; 0]; [0; 0]] [1%nat; 2%nat] = Raise TargetOutOfBounds
  /\ Net.NLLLoss [[0; 0]; [0; 0]] [1%nat] = Raise SizeMismatch.
Proof.
  split.
  - apply (loss_refuses_labels_that_do_not_fit 2 [[0; 0]; [0; 0]] [1%nat; 2%nat]).
    + repeat constructor.
    + reflexivity.
    + right. left. lia.
  - apply (loss_refuses_labels_that_do_not_fit 2 [[0; 0]; [0; 0]] [1%nat]).
    + repeat constructor.
    + discriminate.
    + repeat constructor.
Defined.

(** X4.  Before any training: a network of Part 3's shape whose weights
    and biases are all zero gives every class the same probability, and
    its loss on any batch that is not empty is the logarithm of the number
    of classes, ln 10 for the ten classes of the notebooks (the cells
    print 2.30.. for their freshly created networks). *)
Theorem zero_model_initial_loss_is_ln_of_class_count :
  forall (n_in h1 h2 k : nat) (images : list (list R)) (labels : list nat),
    labels <> [] ->
    length images = length labels ->
    Forall (fun row => length row = n_in) images ->
    Forall (fun y => (y < k)%nat) labels ->
    rbind (Net.Sequential
             (Net.logsoftmax_model (Net.zero_Linear n_in h1) (Net.zero_Linear h1 h2)
                                   (Net.zero_Linear h2 k)) images)
          (fun log_ps => Net.NLLLoss log_ps labels) = Ok (ln (INR k))
    /\ rbind (Net.Sequential
                (Net.logits_model (Net.zero_Linear n_in h1) (Net.zero_Linear h1 h2)
                                  (Net.zero_Linear h2 k)) images)
             (fun logits => Net.CrossEntropyLoss logits labels) = Ok (ln (INR k)).
Proof.
  intros n_in h1 h2 k images labels Hne Hlen Hw Hy.
  assert (Hloss : Net.NLLLoss (log_softmax (map (fun _ => repeat 0 k) images)) labels
                  = Ok (ln (INR k))).
  { unfold log_softmax. rewrite map_map.
    rewrite (NLLLoss_constant_rows (log_softmax_row (repeat 0 k)) (- ln (INR k))).
    - f_equal. ring.
    - exact Hne.
    - exact Hlen.
    - eapply Forall_impl; [|exact Hy]. intros y. apply uniform_classes. }
  split.
  - rewrite logsoftmax_model_split, (zero_logits _ _ _ _ _ Hw). exact Hloss.
  - rewrite (zero_logits _ _ _ _ _ Hw). exact Hloss.
Qed.

Lemma zero_model_initial_loss_is_ln_of_class_count_witness :
  rbind (Net.Sequential
           (Net.logsoftmax_model (Net.zero_Linear 784 128) (Net.zero_Linear 128 64)
                                 (Net.zero_Linear 64 10)) [repeat 1 784; repeat 0 784])
        (fun log_ps => Net.NLLLoss log_ps [3%nat; 9%nat]) = Ok (ln (INR 10)).
Proof.
  refine (proj1 (zero_model_initial_loss_is_ln_of_class_count 784 128 64 10
                   [repeat 1 784; repeat 0 784] [3%nat; 9%nat] _ _ _ _)).
  - discriminate.
  - reflexivity.
  - constructor; [apply repeat_length|constructor; [apply repeat_length|constructor]].
  - repeat constructor.
Defined.

(** ** Autograd *)

Section Demo.

Lemma derivable_mean_of_squares (f : R -> R) (K a : R) :
  (forall t, f t = (t ^ 2 + K) / 4) ->
  derivable_pt_lim f a (a / 2).
Proof.
  intros Hf eps Heps.
  assert (Hd : 0 < 4 * eps) by lra.
  exists (mkposreal _ Hd). intros h Hh Hlt. cbn [pos] in Hlt.
  rewrite !Hf.
  replace (((a + h) ^ 2 + K) / 4 - (a ^ 2 + K) / 4) with (h * (a / 2 + h / 4)) by field.
  replace (h * (a / 2 + h / 4) / h - a / 2) with (h / 4) by (field; exact Hh).
  unfold Rdiv. rewrite Rabs_mult, (Rabs_pos_eq (/ 4)) by lra. lra.
Qed.

End Demo.

(** X5.  The autograd cells of Part 3: [x] a tensor of two rows and two
    columns, [y = x**2], [z = y.mean()].  [z] is the sum of the four
    squares over four, and its derivative in every entry of [x] is half
    that entry: the gradient [z.backward()] computes is [x/2], the two
    tensors the cell prints one below the other. *)
Theorem gradient_of_the_mean_of_squares_is_half_x :
  forall a b c d : R,
    let x := [[a; b]; [c; d]] in
    Autograd.z x = Ok ((a ^ 2 + b ^ 2 + c ^ 2 + d ^ 2) / 4)
    /\ Autograd.half x = [[a / 2; b / 2]; [c / 2; d / 2]]
    /\ forall i j,
         (i < 2)%nat -> (j < 2)%nat ->
         derivable_pt_lim (fun t => value_of (Autograd.z (set_entry x i j t)))
                          (entry x i j) (entry (Autograd.half x) i j).
Proof.
  intros a b c d. cbv zeta. split; [|split; [reflexivity|]].
  - unfold Autograd.z, Autograd.y. cbn [map concat app torch_mean length].
    f_equal. rewrite !Rsum_cons. cbn [Rsum fold_right INR]. field.
  - assert (H4 : INR 4 = 4) by (cbn [INR]; lra).
    intros [|[|i]] [|[|j]] Hi Hj; try lia;
      cbn [entry Autograd.half map nth].
    + apply (derivable_mean_of_squares _ (b ^ 2 + c ^ 2 + d ^ 2)). intro t.
      unfold Autograd.z, Autograd.y, set_entry.
      cbn [Net.mapi_from Nat.eqb andb map concat app torch_mean length value_of].
      rewrite !Rsum_cons, H4. cbn [Rsum fold_right]. field.
    + apply (derivable_mean_of_squares _ (a ^ 2 + c ^ 2 + d ^ 2)). intro t.
      unfold Autograd.z, Autograd.y, set_entry.
      cbn [Net.mapi_from Nat.eqb andb map concat app torch_mean length value_of].
      rewrite !Rsum_cons, H4. cbn [Rsum fold_right]. field.
    + apply (derivable_mean_of_squares _ (a ^ 2 + b ^ 2 + d ^ 2)). intro t.
      unfold Autograd.z, Autograd.y, set_entry.
      cbn [Net.mapi_from Nat.eqb andb map concat app torch_mean length value_of].
      rewrite !Rsum_cons, H4. cbn [Rsum fold_right]. field.
    + apply (derivable_mean_of_squares _ (a ^ 2 + b ^ 2 + c ^ 2)). intro t.
      unfold Autograd.z, Autograd.y, set_entry.
      cbn [Net.mapi_from Nat.eqb andb map concat app torch_mean length value_of].
      rewrite !Rsum_cons, H4. cbn [Rsum fold_right]. field.
Qed.

(** ** Backward passes and optimizer steps *)

Section Steps.

Lemma accumulate_grad_nth (g : nat -> R) (ps : list Param) (i : nat) (p : Param) :
  nth_error ps i = Some p ->
  nth_error (accumulate_grad g ps) i
  = Some (mkParam (data p) (Some match grad p with
                                 | Some old => old + g i
                                 | None => g i
                                 end)).
Proof.
  intro Hp. unfold accumulate_grad. rewrite nth_error_mapi_from, Hp.
  cbn [option_map Nat.add]. now destruct (grad p).
Qed.

Lemma zero_grad_nth (ps : list Param) (i : nat) (p : Param) :
  nth_error ps i = Some p ->
  nth_error (Optim.zero_grad ps) i
  = Some (mkParam (data p) match grad p with
                           | Some _ => Some 0
                           | None => None
                           end).
Proof. intro Hp. unfold Optim.zero_grad. now rewrite nth_error_map, Hp. Qed.

End Steps.

(** X7.  One training step with Part 3's optimizer is a step of gradient
    descent.  Whatever the gradient buffers held before, a batch that
    goes through leaves every parameter entry at its old value minus the
    learning rate times the derivative of this batch's loss in the entry,
    taken at the old values, and leaves that derivative in the buffer; the
    running loss has grown by the loss of the batch.  A batch that raises
    leaves every entry at its old value, the buffers emptied. *)
Theorem sgd_training_step_is_gradient_descent :
  forall (Sample : Type)
         (forward : list R -> bool -> list Sample -> result (list (list R)))
         (autograd : list R -> bool -> list Sample -> list nat -> nat -> R)
         (lr running_loss : R) (images : list Sample) (labels : list nat)
         (w : world Sample unit),
    let d := map data (params w) in
    let g := autograd d (training w) images labels in
    let out := train_batch forward autograd (Optim.SGD_step lr) running_loss
                           (images, labels) w in
    match fst out with
    | Ok v =>
        (exists log_ps l,
            forward d (training w) images = Ok log_ps
            /\ Net.NLLLoss log_ps labels = Ok l
            /\ v = running_loss + l)
        /\ length (params (snd out)) = length (params w)
        /\ forall i p,
             nth_error (params w) i = Some p ->
             exists p',
               nth_error (params (snd out)) i = Some p'
               /\ data p' = data p - lr * g i
               /\ grad p' = Some (g i)
    | Raise _ =>
        map data (params (snd out)) = map data (params w)
        /\ Forall emptied (map grad (params (snd out)))
    end.
Proof.
  intros Sample forward autograd lr running_loss images labels w. cbv zeta.
  rewrite train_batch_run. cbv zeta.
  destruct (forward (map data (params w)) (training w) images) as [log_ps|e] eqn:Hf.
  2:{ cbn [fst snd params]. split; [apply data_zero_grad|apply zero_grad_emptied]. }
  destruct (Net.NLLLoss log_ps labels) as [l|e] eqn:Hl.
  2:{ cbn [fst snd params]. split; [apply data_zero_grad|apply zero_grad_emptied]. }
  destruct (grad_enabled w).
  2:{ cbn [fst snd params]. split; [apply data_zero_grad|apply zero_grad_emptied]. }
  cbn [fst snd params]. split; [|split].
  - exists log_ps, l. split; [reflexivity|]. split; [exact Hl|reflexivity].
  - unfold Optim.SGD_step. cbn [snd]. unfold accumulate_grad, Optim.zero_grad.
    now rewrite length_map, length_mapi_from, length_map.
  - intros i p Hp.
    set (g := autograd (map data (params w)) (training w) images labels).
    pose proof (accumulate_grad_nth g _ i _ (zero_grad_nth _ i p Hp)) as Hacc.
    cbn [data grad] in Hacc.
    assert (Hg : nth_error (accumulate_grad g (Optim.zero_grad (params w))) i
                 = Some (mkParam (data p) (Some (g i)))).
    { rewrite Hacc. do 3 f_equal. destruct (grad p); ring. }
    eexists. split; [apply (SGD_step_nth lr _ i _ (g i) Hg); reflexivity|].
    split; reflexivity.
Qed.

Section AdamFirstStep.

Lemma adam_first_direction (g : R) :
  Optim.adam_direction (Optim.adam_moments Optim.adam_zero g)
  = g / (Rabs g + Optim.eps).
Proof.
  unfold Optim.adam_direction.
  cbn [Optim.adam_moments Optim.adam_zero Optim.exp_avg Optim.exp_avg_sq Optim.step pow].
  replace ((Optim.beta1 * 0 + (1 - Optim.beta1) * g) / (1 - Optim.beta1 * 1)) with g
    by (unfold Optim.beta1; field).
  replace ((Optim.beta2 * 0 + (1 - Optim.beta2) * (g * g)) / (1 - Optim.beta2 * 1))
    with (Rsqr g) by (unfold Optim.beta2, Rsqr; field).
  now rewrite sqrt_Rsqr_abs.
Qed.

Lemma first_direction_at_most_one (g : R) :
  Rabs (g / (Rabs g + Optim.eps)) <= 1.
Proof.
  pose proof (Rabs_pos g) as Ha.
  assert (He : 0 < Optim.eps) by (unfold Optim.eps; lra).
  unfold Rdiv. rewrite Rabs_mult, Rabs_inv.
  rewrite (Rabs_pos_eq (Rabs g + Optim.eps)) by lra.
  apply (Rmult_le_reg_r (Rabs g + Optim.eps)); [lra|].
  replace (Rabs g * / (Rabs g + Optim.eps) * (Rabs g + Optim.eps)) with (Rabs g)
    by (field; lra).
  lra.
Qed.

End AdamFirstStep.

(** X8.  The first step of Part 5's optimizer, in real arithmetic (the
    float the optimizer stores agrees with it up to rounding).  An entry
    that Adam steps for the first time, with the gradient [g] in its
    buffer, is moved by the amount [- lr * g / (|g| + eps)]: the amount
    goes against the sign of the gradient, and its size is at most the
    learning rate however large the gradient is. *)
Theorem adam_first_step_is_at_most_the_learning_rate :
  forall (lr : R) (params : list Param) (i : nat) (p : Param) (g : R),
    nth_error params i = Some p ->
    grad p = Some g ->
    0 < lr ->
    let amount := lr * (g / (Rabs g + Optim.eps)) in
    (exists p',
        nth_error (snd (Optim.Adam_step lr Optim.Adam_init params)) i = Some p'
        /\ data p' = data p - amount)
    /\ Rabs amount <= lr
    /\ (0 < g -> 0 < amount)
    /\ (g < 0 -> amount < 0)
    /\ (g = 0 -> amount = 0).
Proof.
  intros lr params i p g Hp Hg Hlr. cbv zeta.
  destruct (Adam_step_nth lr Optim.Adam_init params i p g Hp Hg) as [Hn _].
  pose proof (first_direction_at_most_one g) as Hle.
  pose proof (Rabs_pos g) as Ha.
  assert (He : 0 < Optim.eps) by (unfold Optim.eps; lra).
  assert (Hden : 0 < / (Rabs g + Optim.eps)) by (apply Rinv_0_lt_compat; lra).
  split; [|split; [|split; [|split]]].
  - eexists. split; [exact Hn|].
    unfold Optim.adam_update, set_data, Optim.Adam_init. cbn [data].
    now rewrite adam_first_direction.
  - rewrite Rabs_mult, (Rabs_pos_eq lr) by lra.
    replace lr with (lr * 1) at 2 by ring.
    apply Rmult_le_compat_l; [lra|exact Hle].
  - intro Hpos. apply Rmult_lt_0_compat; [exact Hlr|].
    unfold Rdiv. apply Rmult_lt_0_compat; lra.
  - intro Hneg.
    assert (0 < (- g) * / (Rabs g + Optim.eps)) by (apply Rmult_lt_0_compat; lra).
    assert (0 < lr * ((- g) * / (Rabs g + Optim.eps)))
      by (apply Rmult_lt_0_compat; lra).
    unfold Rdiv. lra.
  - intros ->. unfold Rdiv. ring.
Qed.

Lemma adam_first_step_is_at_most_the_learning_rate_witness :
  (exists p',
      nth_error (snd (Optim.Adam_step Part5.lr Optim.Adam_init [mkParam 1 (Some 200)])) 0
      = Some p'
      /\ data p' = 1 - Part5.lr * (200 / (Rabs 200 + Optim.eps)))
  /\ Rabs (Part5.lr * (200 / (Rabs 200 + Optim.eps))) <= Part5.lr.
Proof.
  destruct (adam_first_step_is_at_most_the_learning_rate
              Part5.lr [mkParam 1 (Some 200)] 0 (mkParam 1 (Some 200)) 200
              eq_refl eq_refl) as (Hstep & Hsize & _).
  - unfold Part5.lr. lra.
  - split; [exact Hstep|exact Hsize].
Defined.

(** ** The batches of a loader *)

Section Batches.

Context {A : Type}.

Lemma ceil_step (m n : nat) :
  (0 < n)%nat -> (0 < m)%nat ->
  ((m + n - 1) / n = S ((m - n + n - 1) / n))%nat.
Proof.
  intros Hn Hm. destruct (Nat.le_gt_cases m n) as [Hle|Hgt].
  - replace (m - n)%nat with 0%nat by lia. cbn [Nat.add].
    rewrite (Nat.div_small (n - 1) n) by lia.
    symmetry. apply (Nat.div_unique _ _ 1%nat (m - 1)%nat); lia.
  - replace (m + n - 1)%nat with ((m - n + n - 1) + 1 * n)%nat by lia.
    rewrite Nat.div_add by lia. lia.
Qed.

Lemma last_size_step (m n : nat) :
  (0 < n)%nat -> (n < m)%nat -> last_size (m - n) n = last_size m n.
Proof.
  intros Hn Hm. unfold last_size.
  replace (m mod n)%nat with ((m - n) mod n)%nat; [reflexivity|].
  replace m with ((m - n) + 1 * n)%nat at 2 by lia.
  now rewrite Nat.Div0.mod_add.
Qed.

Lemma last_size_small (m n : nat) :
  (0 < m)%nat -> (m <= n)%nat -> last_size m n = m.
Proof.
  intros Hm Hle. unfold last_size.
  destruct (Nat.eq_dec m n) as [->|Hne].
  - rewrite Nat.Div0.mod_same. reflexivity.
  - rewrite Nat.mod_small by lia. destruct m; [lia|reflexivity].
Qed.

Lemma chunks_sizes (n : nat) :
  (0 < n)%nat ->
  forall (fuel : nat) (l : list A),
    (length l <= fuel)%nat ->
    length (chunks fuel n l) = ((length l + n - 1) / n)%nat
    /\ Forall (fun c => (0 < length c <= n)%nat) (chunks fuel n l)
    /\ Forall (fun c => length c = n) (removelast (chunks fuel n l))
    /\ (l <> [] -> length (last (chunks fuel n l) []) = last_size (length l) n).
Proof.
  intro Hn. induction fuel as [|fuel IH]; intros l Hl.
  - destruct l; [|cbn in Hl; lia]. cbn [chunks length removelast].
    rewrite Nat.div_small by lia. repeat split; try constructor. congruence.
  - destruct l as [|a l].
    + cbn [chunks length removelast]. rewrite Nat.div_small by lia.
      repeat split; try constructor. congruence.
    + cbn [chunks].
      assert (Hskip : (length (skipn n (a :: l)) <= fuel)%nat).
      { rewrite length_skipn. cbn [length] in *. lia. }
      destruct (IH _ Hskip) as (Hcount & Hsizes & Hfull & Hlast).
      rewrite length_skipn in Hcount, Hlast.
      remember (a :: l) as l0 eqn:Hl0.
      assert (Hm : (0 < length l0)%nat) by (subst l0; cbn; lia).
      split; [|split; [|split]].
      * cbn [length]. rewrite Hcount. symmetry. now apply ceil_step.
      * constructor; [|exact Hsizes]. rewrite length_firstn. lia.
      * destruct (chunks fuel n (skipn n l0)) as [|c cs] eqn:Hc.
        -- constructor.
        -- change (removelast (firstn n l0 :: c :: cs))
             with (firstn n l0 :: removelast (c :: cs)).
           constructor; [|exact Hfull].
           rewrite length_firstn.
           destruct (Nat.le_gt_cases (length l0) n) as [Hle|Hgt]; [|lia].
           rewrite skipn_all2 in Hc by exact Hle.
           rewrite chunks_nil in Hc. discriminate.
      * intros _.
        destruct (Nat.le_gt_cases (length l0) n) as [Hle|Hgt].
        -- rewrite skipn_all2 by exact Hle. rewrite chunks_nil.
           cbn [last]. rewrite firstn_all2 by exact Hle.
           symmetry. now apply last_size_small.
        -- rewrite last_cons_default.
           assert (Hne : skipn n l0 <> []).
           { intro H0. apply (f_equal (@length A)) in H0.
             rewrite length_skipn in H0. cbn in H0. lia. }
           destruct (chunks fuel n (skipn n l0)) as [|c cs] eqn:Hc.
           { cbn in Hcount. symmetry in Hcount.
             apply Nat.div_small_iff in Hcount; lia. }
           specialize (Hlast Hne).
           rewrite last_cons_default in Hlast. rewrite last_cons_default.
           now rewrite <- (last_size_step (length l0) n Hn Hgt), <- Hlast.
Qed.

End Batches.

Lemma combine_map_fst_snd {A B} (l : list (A * B)) : combine (map fst l) (map snd l) = l.
Proof. induction l as [|[a b] l IH]; [reflexivity|]. cbn. now rewrite IH. Qed.

Lemma removelast_of_map {A B} (f : A -> B) (l : list A) :
  removelast (map f l) = map f (removelast l).
Proof.
  induction l as [|a l IH]; [reflexivity|].
  destruct l as [|b l]; [reflexivity|].
  cbn [map removelast] in *. now rewrite IH.
Qed.

Lemma last_of_map {A B} (f : A -> B) (l : list A) (d : A) :
  last (map f l) (f d) = f (last l d).
Proof.
  induction l as [|a l IH]; [reflexivity|].
  destruct l as [|b l]; [reflexivity|].
  cbn [map last] in *. exact IH.
Qed.

(** X9.  [DataLoader(dataset, batch_size=bs)] over one pass.  The batches,
    laid end to end, are the data set in the order of the pass: no sample
    is lost, repeated or paired with another label.  There are
    ceil(n / bs) of them; none is empty or larger than [bs]; all but the
    last hold [bs] samples, and the last one holds the remainder of n by
    [bs], or [bs] when the remainder is zero. *)
Theorem loader_cuts_the_data_set_into_batches :
  forall (X : Type) (dataset : list (X * nat)) (bs : nat),
    (0 < bs)%nat ->
    let loader := DataLoader dataset bs in
    flat_map (fun b => combine (fst b) (snd b)) loader = dataset
    /\ length loader = ((length dataset + bs - 1) / bs)%nat
    /\ Forall (fun b => length (fst b) = length (snd b)
                        /\ (0 < length (snd b) <= bs)%nat) loader
    /\ Forall (fun b => length (snd b) = bs) (removelast loader)
    /\ (dataset <> [] ->
        length (snd (last loader ([], [])))
        = match (length dataset mod bs)%nat with
          | O => bs
          | r => r
          end).
Proof.
  intros X dataset bs Hbs. cbv zeta. unfold DataLoader.
  destruct (chunks_spec bs Hbs (length dataset) dataset (le_n _)) as (Hc & _).
  destruct (chunks_sizes bs Hbs (length dataset) dataset (le_n _))
    as (Hcount & Hsizes & Hfull & Hlast).
  set (cs := chunks (length dataset) bs dataset) in *.
  split; [|split; [|split; [|split]]].
  - rewrite flat_map_concat_map, map_map. cbn [fst snd].
    rewrite (map_ext _ (fun c => c)) by (intro c; apply combine_map_fst_snd).
    now rewrite map_id.
  - now rewrite length_map.
  - apply Forall_map. eapply Forall_impl; [|exact Hsizes].
    intros c Hcs. cbn [fst snd]. now rewrite !length_map.
  - rewrite removelast_of_map. apply Forall_map. eapply Forall_impl; [|exact Hfull].
    intros c Hcs. cbn [snd]. now rewrite length_map.
  - intro Hne. specialize (Hlast Hne).
    change (@nil X, @nil nat) with ((fun b : list (X * nat) => (map fst b, map snd b)) []).
    rewrite last_of_map. cbn [snd]. rewrite length_map. exact Hlast.
Qed.

Lemma loader_cuts_the_data_set_into_batches_witness :
  length (DataLoader (repeat (tt, 0%nat) (100 * 100)) batch_size) = 157%nat
  /\ length (snd (last (DataLoader (repeat (tt, 0%nat) (100 * 100)) batch_size) ([], [])))
     = 16%nat.
Proof.
  destruct (loader_cuts_the_data_set_into_batches unit (repeat (tt, 0%nat) (100 * 100)) batch_size)
    as (_ & Hcount & _ & _ & Hlast).
  - unfold batch_size. lia.
  - rewrite repeat_length in Hcount, Hlast. split.
    + exact Hcount.
    + apply Hlast. discriminate.
Defined.

(** X10.  What the loaders hand to the networks.  The transform of both
    notebooks takes a pixel byte b to b / 127.5 - 1: black to -1, white to
    1, every pixel into [-1, 1], a brighter pixel to a larger number; the
    image keeps its number of pixels. *)
Theorem transform_puts_pixels_between_minus_one_and_one :
  forall (pixels : list (list nat)),
    Forall (Forall (fun b => (b <= 255)%nat)) pixels ->
    Forall (Forall (fun v => -1 <= v <= 1)) (transform pixels)
    /\ length (concat (transform pixels)) = length (concat pixels)
    /\ transform [[0%nat; 255%nat]] = [[-1; 1]]
    /\ forall b1 b2 : nat,
         transform [[b1]] = [[INR b1 / (1275 / 10) - 1]]
         /\ ((b1 < b2)%nat ->
             forall v1 v2, transform [[b1; b2]] = [[v1; v2]] -> v1 < v2).
Proof.
  intros pixels Hbytes.
  assert (Hone : forall b : nat,
             Normalize (5 / 10) (5 / 10) (ToTensor b) = INR b / (1275 / 10) - 1).
  { intro b. unfold Normalize, ToTensor. field. }
  split; [|split; [|split]].
  - unfold transform. apply Forall_map. eapply Forall_impl; [|exact Hbytes].
    intros row Hrow. apply Forall_map. eapply Forall_impl; [|exact Hrow].
    intros b Hb. cbv beta. rewrite Hone.
    assert (H0 : 0 <= INR b) by apply pos_INR.
    assert (H1 : INR b <= 255).
    { replace 255 with (INR 255) by (rewrite INR_IZR_INZ; reflexivity).
      now apply le_INR. }
    split.
    + assert (0 <= INR b / (1275 / 10)) by (apply Rmult_le_pos; lra). lra.
    + assert (INR b / (1275 / 10) <= 2).
      { apply (Rmult_le_reg_r (1275 / 10)); [lra|].
        replace (INR b / (1275 / 10) * (1275 / 10)) with (INR b) by field. lra. }
      lra.
  - unfold transform. rewrite !length_concat, map_map. f_equal.
    apply map_ext. intro row. apply length_map.
  - unfold transform. cbn [map]. rewrite !Hone.
    replace (INR 255) with 255 by (rewrite INR_IZR_INZ; reflexivity).
    cbn [INR]. do 2 f_equal; [lra|]. f_equal. field.
  - intros b1 b2. unfold transform. cbn [map]. rewrite !Hone.
    split; [reflexivity|]. intros Hlt v1 v2 H. inversion H.
    apply lt_INR in Hlt.
    assert (INR b1 / (1275 / 10) < INR b2 / (1275 / 10)).
    { apply Rmult_lt_compat_r; lra. }
    lra.
Qed.

Lemma transform_puts_pixels_between_minus_one_and_one_witness :
  Forall (Forall (fun v => -1 <= v <= 1)) (transform [[0%nat; 128%nat]; [255%nat; 7%nat]]).
Proof.
  refine (proj1 (transform_puts_pixels_between_minus_one_and_one
                   [[0%nat; 128%nat]; [255%nat; 7%nat]] _)).
  repeat constructor; lia.
Defined.

(** ** The classifier of Part 5 *)

Lemma forward_dropout_shape (m : Part5.Classifier) (t : bool)
    (keep1 keep2 keep3 : Net.mask) (images : list Image) :
  shaped 784 256 (Part5.fc1 m) -> shaped 256 128 (Part5.fc2 m) ->
  shaped 128 64 (Part5.fc3 m) -> shaped 64 10 (Part5.fc4 m) ->
  Forall (fun img => length (concat img) = 784%nat) images ->
  exists logits,
    Part5.forward_dropout m t keep1 keep2 keep3 images = Ok (log_softmax logits)
    /\ length logits = length images
    /\ Forall (fun row => length row = 10%nat) logits.
Proof.
  intros H1 H2 H3 H4 Himg. unfold Part5.forward_dropout.
  assert (Hflat : Forall (fun row => length row = 784%nat) (view_flat images))
    by (apply Forall_map; exact Himg).
  destruct (Linear_call_shape _ _ _ _ H1 Hflat) as (h1 & -> & Hl1 & Hw1).
  cbn [rbind].
  destruct (Linear_call_shape _ _ _ (Net.Dropout Part5.p_drop t keep1 (relu h1)) H2)
    as (h2 & -> & Hl2 & Hw2); [now apply Dropout_shape, relu_shape|].
  cbn [rbind].
  destruct (Linear_call_shape _ _ _ (Net.Dropout Part5.p_drop t keep2 (relu h2)) H3)
    as (h3 & -> & Hl3 & Hw3); [now apply Dropout_shape, relu_shape|].
  cbn [rbind].
  destruct (Linear_call_shape _ _ _ (Net.Dropout Part5.p_drop t keep3 (relu h3)) H4)
    as (h4 & -> & Hl4 & Hw4); [now apply Dropout_shape, relu_shape|].
  cbn [rbind]. exists h4. split; [reflexivity|]. split; [|exact Hw4].
  rewrite Hl4, Dropout_length, Hl3, Dropout_length, Hl2, Dropout_length, Hl1.
  apply length_map.
Qed.

Lemma forward_dropout_refuses (m : Part5.Classifier) (t : bool)
    (keep1 keep2 keep3 : Net.mask) (images : list Image) :
  shaped 784 256 (Part5.fc1 m) ->
  ~ Forall (fun img => length (concat img) = 784%nat) images ->
  Part5.forward_dropout m t keep1 keep2 keep3 images = Raise SizeMismatch.
Proof.
  intros H1 Himg. unfold Part5.forward_dropout.
  rewrite (Linear_call_refuses 784 256); [reflexivity|exact H1|].
  intro H. apply Himg. unfold view_flat in H. now apply Forall_map in H.
Qed.

(** X11.  The classifier of Part 5, with or without dropout and in either
    mode, accepts a batch exactly when every image has 784 pixels; it then
    gives one row per image, and the exponential of a row holds ten
    probabilities: each in (0, 1], and adding up to one.  A batch with an
    image of another size is refused by the first layer. *)
Theorem classifier_gives_ten_probabilities_per_image :
  forall (m : Part5.Classifier) (images : list Image),
    shaped 784 256 (Part5.fc1 m) -> shaped 256 128 (Part5.fc2 m) ->
    shaped 128 64 (Part5.fc3 m) -> shaped 64 10 (Part5.fc4 m) ->
    forall model : list Image -> result (list (list R)),
      (model = Part5.forward m
       \/ exists is_training keep1 keep2 keep3,
            model = Part5.forward_dropout m is_training keep1 keep2 keep3) ->
      (Forall (fun img => length (concat img) = 784%nat) images ->
       exists log_ps,
         model images = Ok log_ps
         /\ length (torch_exp log_ps) = length images
         /\ Forall (fun ps_row => length ps_row = 10%nat
                                  /\ Rsum ps_row = 1
                                  /\ Forall (fun p => 0 < p <= 1) ps_row)
                   (torch_exp log_ps))
      /\ (~ Forall (fun img => length (concat img) = 784%nat) images ->
          model images = Raise SizeMismatch).
Proof.
  intros m images H1 H2 H3 H4 model Hmodel.
  assert (Hd : exists t k1 k2 k3, model images = Part5.forward_dropout m t k1 k2 k3 images).
  { destruct Hmodel as [->|(t & k1 & k2 & k3 & ->)].
    - exists false, (fun _ _ => true), (fun _ _ => true), (fun _ _ => true).
      symmetry. apply forward_dropout_eval.
    - now exists t, k1, k2, k3. }
  destruct Hd as (t & k1 & k2 & k3 & ->). split.
  - intro Himg.
    destruct (forward_dropout_shape m t k1 k2 k3 images H1 H2 H3 H4 Himg)
      as (logits & -> & Hlen & Hw).
    exists (log_softmax logits). split; [reflexivity|]. split.
    + unfold torch_exp, log_softmax. now rewrite !length_map.
    + apply log_softmax_probabilities; [lia|exact Hw].
  - now apply forward_dropout_refuses.
Qed.

Lemma classifier_gives_ten_probabilities_per_image_witness :
  exists log_ps,
    Part5.forward Part5.class0 [Part5.grey; Part5.grey] = Ok log_ps
    /\ length (torch_exp log_ps) = 2%nat.
Proof.
  destruct (classifier_gives_ten_probabilities_per_image Part5.class0
              [Part5.grey; Part5.grey]
              (shaped_zero_weights 784 256 (repeat 0 256) (repeat_length 0 256))
              (shaped_zero_weights 256 128 (repeat 0 128) (repeat_length 0 128))
              (shaped_zero_weights 128 64 (repeat 0 64) (repeat_length 0 64))
              (shaped_zero_weights 64 10 (1 :: repeat 0 9) eq_refl)
              (Part5.forward Part5.class0) (or_introl eq_refl)) as [Hok _].
  destruct Hok as (log_ps & Hrun & Hlen & _).
  - repeat constructor.
  - exists log_ps. split; assumption.
Defined.

(** ** Dropout in training mode *)

Section DropoutInTraining.

Lemma forward_dropout_as_worded (m : Part5.Classifier) (t : bool)
    (keep1 keep2 keep3 : Net.mask) (x : list Image) :
  Part5.forward_dropout m t keep1 keep2 keep3 x
  = dropout_on_hidden_only m t keep1 keep2 keep3 x.
Proof.
  unfold Part5.forward_dropout, dropout_on_hidden_only, output_layer.
  cbn [hidden_stack].
  destruct (Net.Linear_call (Part5.fc1 m) (view_flat x)) as [h1|e]; [|reflexivity].
  cbn [rbind].
  destruct (Net.Linear_call (Part5.fc2 m) _) as [h2|e]; [|reflexivity].
  cbn [rbind].
  destruct (Net.Linear_call (Part5.fc3 m) _) as [h3|e]; reflexivity.
Qed.

Lemma Dropout_entry (p : R) (keep : Net.mask) (h : list (list R)) (i j : nat)
    (row : list R) (v : R) :
  nth_error h i = Some row -> nth_error row j = Some v ->
  exists row',
    nth_error (Net.Dropout p true keep h) i = Some row'
    /\ nth_error row' j = Some (if keep i j then v / (1 - p) else 0).
Proof.
  intros Hrow Hv. unfold Net.Dropout. eexists.
  rewrite nth_error_mapi_from, Hrow. cbn [option_map Nat.add]. split; [reflexivity|].
  now rewrite nth_error_mapi_from, Hv.
Qed.

Lemma mapi_from_constant {A B} (f : nat -> A -> B) (g : A -> B) (l : list A) :
  (forall i a, f i a = g a) -> forall k, Net.mapi_from f k l = map g l.
Proof.
  intros Hf. induction l as [|a l IH]; intro k; cbn [Net.mapi_from map]; [reflexivity|].
  now rewrite Hf, IH.
Qed.

Lemma Dropout_drop_all (p : R) (o : nat) (h : list (list R)) :
  Forall (fun row => length row = o) h ->
  Net.Dropout p true drop_all h = repeat (repeat 0 o) (length h).
Proof.
  intro Hh. unfold Net.Dropout, drop_all.
  rewrite (mapi_from_constant _ (map (fun _ => 0))).
  - induction Hh as [|row h Hrow _ IH]; [reflexivity|].
    cbn [map length repeat]. rewrite IH. f_equal.
    rewrite <- Hrow. clear. induction row as [|v row IH]; [reflexivity|].
    cbn. now rewrite IH.
  - intros i row. now apply mapi_from_constant.
Qed.

Lemma dot_zero_r (w : list R) (n : nat) : dot w (repeat 0 n) = 0.
Proof.
  unfold dot. revert n.
  induction w as [|a w IH]; intros [|n]; cbn [repeat combine map]; try reflexivity.
  rewrite Rsum_cons, IH. cbn. ring.
Qed.

Lemma Linear_row_zero_input (i o : nat) (l : Net.Linear) :
  shaped i o l -> Net.Linear_row l (repeat 0 i) = Ok (Net.bias l).
Proof.
  intros (Hi & Ho & Hw & Hrows & Hb). unfold Net.Linear_row.
  rewrite repeat_length, Hi, Nat.eqb_refl. f_equal.
  assert (Hlen : length (Net.weight l) = length (Net.bias l)) by congruence.
  clear -Hlen. revert Hlen. generalize (Net.bias l) as b.
  induction (Net.weight l) as [|r W IH]; intros [|v b] Hlen; try discriminate;
    [reflexivity|].
  cbn [combine map fst snd]. rewrite dot_zero_r, IH by (cbn in Hlen; congruence).
  f_equal. ring.
Qed.

Lemma Linear_call_zero_input (i o n : nat) (l : Net.Linear) :
  shaped i o l ->
  Net.Linear_call l (repeat (repeat 0 i) n) = Ok (repeat (Net.bias l) n).
Proof.
  intro Hl. unfold Net.Linear_call.
  induction n as [|n IH]; [reflexivity|].
  cbn [repeat rmap]. rewrite (Linear_row_zero_input i o l Hl), IH. reflexivity.
Qed.

End DropoutInTraining.

Section DroppedLayers.

Variable m : Part5.Classifier.
Hypothesis H1 : shaped 784 256 (Part5.fc1 m).
Hypothesis H2 : shaped 256 128 (Part5.fc2 m).
Hypothesis H3 : shaped 128 64 (Part5.fc3 m).
Hypothesis H4 : shaped 64 10 (Part5.fc4 m).

Lemma dropped_first (keep2 keep3 : Net.mask) (x : list Image) :
  Forall (fun img => length (concat img) = 784%nat) x ->
  Part5.forward_dropout m true drop_all keep2 keep3 x
  = rbind (Net.Linear_call (Part5.fc2 m) (repeat (repeat 0 256%nat) (length x))) (fun h =>
    rbind (Net.Linear_call (Part5.fc3 m) (Net.Dropout Part5.p_drop true keep2 (relu h)))
          (fun h =>
    rbind (Net.Linear_call (Part5.fc4 m) (Net.Dropout Part5.p_drop true keep3 (relu h)))
          (fun h => Ok (log_softmax h)))).
Proof.
  intro Himg. unfold Part5.forward_dropout.
  assert (Hflat : Forall (fun row => length row = 784%nat) (view_flat x))
    by (apply Forall_map; exact Himg).
  destruct (Linear_call_shape _ _ _ _ H1 Hflat) as (h1 & -> & Hl1 & Hw1).
  cbn [rbind].
  rewrite (Dropout_drop_all _ 256) by now apply relu_shape.
  unfold relu at 1. rewrite length_map, Hl1. unfold view_flat. now rewrite length_map.
Qed.

Lemma dropped_second (keep1 keep3 : Net.mask) (x : list Image) :
  Forall (fun img => length (concat img) = 784%nat) x ->
  Part5.forward_dropout m true keep1 drop_all keep3 x
  = rbind (Net.Linear_call (Part5.fc3 m) (repeat (repeat 0 128%nat) (length x))) (fun h =>
    rbind (Net.Linear_call (Part5.fc4 m) (Net.Dropout Part5.p_drop true keep3 (relu h)))
          (fun h => Ok (log_softmax h))).
Proof.
  intro Himg. unfold Part5.forward_dropout.
  assert (Hflat : Forall (fun row => length row = 784%nat) (view_flat x))
    by (apply Forall_map; exact Himg).
  destruct (Linear_call_shape _ _ _ _ H1 Hflat) as (h1 & -> & Hl1 & Hw1).
  cbn [rbind].
  destruct (Linear_call_shape _ _ _ (Net.Dropout Part5.p_drop true keep1 (relu h1)) H2)
    as (h2 & -> & Hl2 & Hw2); [now apply Dropout_shape, relu_shape|].
  cbn [rbind].
  rewrite (Dropout_drop_all _ 128) by now apply relu_shape.
  unfold relu at 1. rewrite length_map, Hl2, Dropout_length, Hl1.
  unfold view_flat. now rewrite length_map.
Qed.

Lemma dropped_third (keep1 keep2 : Net.mask) (x : list Image) :
  Forall (fun img => length (concat img) = 784%nat) x ->
  Part5.forward_dropout m true keep1 keep2 drop_all x
  = Ok (repeat (log_softmax_row (Net.bias (Part5.fc4 m))) (length x)).
Proof.
  intro Himg. unfold Part5.forward_dropout.
  assert (Hflat : Forall (fun row => length row = 784%nat) (view_flat x))
    by (apply Forall_map; exact Himg).
  destruct (Linear_call_shape _ _ _ _ H1 Hflat) as (h1 & -> & Hl1 & Hw1).
  cbn [rbind].
  destruct (Linear_call_shape _ _ _ (Net.Dropout Part5.p_drop true keep1 (relu h1)) H2)
    as (h2 & -> & Hl2 & Hw2); [now apply Dropout_shape, relu_shape|].
  cbn [rbind].
  destruct (Linear_call_shape _ _ _ (Net.Dropout Part5.p_drop true keep2 (relu h2)) H3)
    as (h3 & -> & Hl3 & Hw3); [now apply Dropout_shape, relu_shape|].
  cbn [rbind].
  rewrite (Dropout_drop_all _ 64) by now apply relu_shape.
  rewrite (Linear_call_zero_input 64 10 _ _ H4). cbn [rbind].
  unfold log_softmax. rewrite map_repeat. do 2 f_equal.
  unfold relu. rewrite length_map, Hl3, Dropout_length, Hl2, Dropout_length, Hl1.
  unfold view_flat. now rewrite length_map.
Qed.

Lemma constant_last_layer (t : bool) (keep1 keep2 keep3 : Net.mask) (x : list Image) :
  Net.weight (Part5.fc4 m) = repeat (repeat 0 64%nat) 10 ->
  Forall (fun img => length (concat img) = 784%nat) x ->
  Part5.forward_dropout m t keep1 keep2 keep3 x
  = Ok (repeat (log_softmax_row (Net.bias (Part5.fc4 m))) (length x)).
Proof.
  intros Hzero Himg. unfold Part5.forward_dropout.
  assert (Hflat : Forall (fun row => length row = 784%nat) (view_flat x))
    by (apply Forall_map; exact Himg).
  destruct (Linear_call_shape _ _ _ _ H1 Hflat) as (h1 & -> & Hl1 & Hw1).
  cbn [rbind].
  destruct (Linear_call_shape _ _ _ (Net.Dropout Part5.p_drop t keep1 (relu h1)) H2)
    as (h2 & -> & Hl2 & Hw2); [now apply Dropout_shape, relu_shape|].
  cbn [rbind].
  destruct (Linear_call_shape _ _ _ (Net.Dropout Part5.p_drop t keep2 (relu h2)) H3)
    as (h3 & -> & Hl3 & Hw3); [now apply Dropout_shape, relu_shape|].
  cbn [rbind].
  destruct H4 as (Hi & Ho & _ & _ & Hb).
  assert (Hfc4 : Part5.fc4 m
                 = Net.mkLinear 64 (length (Net.bias (Part5.fc4 m)))
                     (repeat (repeat 0 64%nat) (length (Net.bias (Part5.fc4 m))))
                     (Net.bias (Part5.fc4 m))).
  { rewrite Hb. destruct (Part5.fc4 m) as [i o W b]. cbn in *. now subst. }
  rewrite Hfc4 at 1.
  rewrite bias_only_Linear_call by now apply Dropout_shape, relu_shape.
  cbn [rbind]. unfold log_softmax. rewrite map_map. f_equal.
  rewrite <- (map_repeat (fun _ : unit => log_softmax_row (Net.bias (Part5.fc4 m))) tt).
  assert (Hn : length (Net.Dropout Part5.p_drop t keep3 (relu h3)) = length x).
  { rewrite Dropout_length, Hl3, Dropout_length, Hl2, Dropout_length, Hl1.
    unfold view_flat. now rewrite length_map. }
  rewrite <- Hn. generalize (Net.Dropout Part5.p_drop t keep3 (relu h3)) as a.
  induction a as [|r a IH]; [reflexivity|]. cbn. now rewrite IH.
Qed.

End DroppedLayers.

(** C10.  In evaluation mode the classifier with dropout computes what the
    classifier without dropout computes, on every batch and whatever the
    dropout draws would have been: dropout is the identity there.  In
    either mode the classifier is the claim's: a stack of three hidden
    layers, each followed by ReLU and by dropout with its own draws, and an
    output layer followed by log-softmax, with no dropout on either, so the
    probabilities of every row add up to one.  In training mode dropout
    sets an entry the draws drop to zero and scales an entry they keep by
    1 / (1 - p).  It acts on each of the three hidden activations: with
    every unit of the third hidden layer dropped the classifier answers the
    log-softmax of the bias of the last layer for every image, and with
    every unit of the first or of the second hidden layer dropped the
    images, and the draws before the dropped layer, no longer matter.  And
    it never acts on the last layer or the output: when the last layer has
    zero weights the answer is the log-softmax of its bias in either mode,
    whatever the draws. *)
Theorem dropout_classifier_eval_refines_plain :
  forall (m : Part5.Classifier) (keep1 keep2 keep3 : Net.mask) (x : list Image),
    Part5.forward_dropout m false keep1 keep2 keep3 x = Part5.forward m x
    /\ (forall is_training,
          match Part5.forward_dropout m is_training keep1 keep2 keep3 x with
          | Ok out => Forall (fun row => row = [] \/ Rsum (map exp row) = 1) out
          | Raise _ => True
          end)
    /\ (forall is_training,
          Part5.forward_dropout m is_training keep1 keep2 keep3 x
          = dropout_on_hidden_only m is_training keep1 keep2 keep3 x)
    /\ (forall (p : R) (keep : Net.mask) (h : list (list R)),
          Net.Dropout p false keep h = h
          /\ forall i j row v,
               nth_error h i = Some row -> nth_error row j = Some v ->
               exists row',
                 nth_error (Net.Dropout p true keep h) i = Some row'
                 /\ nth_error row' j = Some (if keep i j then v / (1 - p) else 0))
    /\ (shaped 784 256 (Part5.fc1 m) -> shaped 256 128 (Part5.fc2 m) ->
        shaped 128 64 (Part5.fc3 m) -> shaped 64 10 (Part5.fc4 m) ->
        Forall (fun img => length (concat img) = 784%nat) x ->
        Part5.forward_dropout m true keep1 keep2 drop_all x
        = Ok (repeat (log_softmax_row (Net.bias (Part5.fc4 m))) (length x))
        /\ (forall (x' : list Image) (keep1' : Net.mask),
              Forall (fun img => length (concat img) = 784%nat) x' ->
              length x' = length x ->
              Part5.forward_dropout m true keep1' drop_all keep3 x'
              = Part5.forward_dropout m true keep1 drop_all keep3 x
              /\ Part5.forward_dropout m true drop_all keep2 keep3 x'
                 = Part5.forward_dropout m true drop_all keep2 keep3 x)
        /\ (Net.weight (Part5.fc4 m) = repeat (repeat 0 64%nat) 10 ->
            forall is_training,
              Part5.forward_dropout m is_training keep1 keep2 keep3 x
              = Ok (repeat (log_softmax_row (Net.bias (Part5.fc4 m))) (length x)))).
Proof.
  intros m keep1 keep2 keep3 x.
  split; [apply forward_dropout_eval|]. split; [|split; [|split; [|]]].
  - intro is_training. rewrite forward_dropout_as_worded.
    unfold dropout_on_hidden_only, output_layer.
    destruct (hidden_stack _ _ _ _) as [a|e]; [|exact I]. cbn [rbind].
    destruct (Net.Linear_call (Part5.fc4 m) a) as [logits|e]; [|exact I].
    cbn [rbind]. apply log_softmax_rows_normalised.
  - intro is_training. apply forward_dropout_as_worded.
  - intros p keep h. split; [reflexivity|]. intros i j row v. apply Dropout_entry.
  - intros H1 H2 H3 H4 Himg. split; [now apply dropped_third|]. split.
    + intros x' keep1' Himg' Hlen. split.
      * rewrite !dropped_second by assumption. now rewrite Hlen.
      * rewrite !dropped_first by assumption. now rewrite Hlen.
    + intros Hzero is_training. now apply constant_last_layer.
Qed.

(** The classifier that answers class 0, in training mode, on two images:
    its last layer has zero weights, and no draw changes what it answers. *)
Lemma dropout_classifier_eval_refines_plain_witness :
  Part5.forward_dropout Part5.class0 true
                        (fun _ j => Nat.even j) drop_all (fun i _ => Nat.even i)
                        [Part5.grey; Part5.grey]
  = Ok (repeat (log_softmax_row (1 :: repeat 0 9)) 2).
Proof.
  destruct (dropout_classifier_eval_refines_plain Part5.class0
              (fun _ j => Nat.even j) drop_all (fun i _ => Nat.even i)
              [Part5.grey; Part5.grey]) as (_ & _ & _ & _ & Hshaped).
  destruct Hshaped as (_ & _ & Hconstant).
  - apply shaped_zero_weights, repeat_length.
  - apply shaped_zero_weights, repeat_length.
  - apply shaped_zero_weights, repeat_length.
  - apply shaped_zero_weights. reflexivity.
  - repeat constructor.
  - exact (Hconstant eq_refl true).
Defined.

(** ** The top class *)

Section TopClass.

Lemma rmap_nth {A B} (f : A -> result B) (l : list A) (out : list B) (i : nat) (a : A) :
  rmap f l = Ok out -> nth_error l i = Some a ->
  exists b, nth_error out i = Some b /\ f a = Ok b.
Proof.
  revert out i. induction l as [|x l IH]; intros out i; cbn [rmap].
  - intros _ H. destruct i; discriminate.
  - destruct (f x) as [b|e] eqn:Hx; cbn [rbind]; [|discriminate].
    destruct (rmap f l) as [bs|e]; cbn [rbind]; [|discriminate].
    intro H. inversion H. subst out. destruct i as [|i]; cbn [nth_error].
    + intro Ha. inversion Ha. subst a. now exists b.
    + intro Ha. now apply IH.
Qed.

Lemma topk1_row_exp (row : list R) :
  topk1_row (map exp row)
  = rbind (topk1_row row) (fun top => Ok (exp (fst top), snd top)).
Proof.
  destruct row as [|v row]; [reflexivity|].
  cbn [map topk1_row rbind]. f_equal. apply argmax_from_map.
  intros a b. split; [apply exp_increasing|apply exp_lt_inv].
Qed.

Lemma rmap_topk1_row_exp (ps : list (list R)) :
  rmap topk1_row (map (map exp) ps)
  = rbind (rmap topk1_row ps)
          (fun tops => Ok (map (fun top => (exp (fst top), snd top)) tops)).
Proof.
  induction ps as [|row ps IH]; [reflexivity|].
  cbn [map rmap]. rewrite topk1_row_exp, IH.
  destruct (topk1_row row) as [top|e]; [|reflexivity]. cbn [rbind].
  destruct (rmap topk1_row ps) as [tops|e]; reflexivity.
Qed.

End TopClass.

(** X12.  [ps.topk(1, dim=1)], for every row of a batch: the value is the
    largest entry of the row and the class is the first index that holds
    it, so on a tie the lower class wins.  The cells take the top class of
    the probabilities [torch.exp(log_ps)]; it is the top class of the
    log-probabilities themselves, the top probability is the exponential
    of the top log-probability, and the accuracy of the batch is the same
    computed from either. *)
Theorem top_class_is_first_largest_and_survives_exp :
  forall (log_ps : list (list R)) (top_p : list R) (top_class : list nat),
    topk1 log_ps = Ok (top_p, top_class) ->
    topk1 (torch_exp log_ps) = Ok (map exp top_p, top_class)
    /\ (forall labels,
          batch_accuracy (torch_exp log_ps) labels = batch_accuracy log_ps labels)
    /\ length top_p = length log_ps
    /\ length top_class = length log_ps
    /\ forall i row,
         nth_error log_ps i = Some row ->
         exists v k,
           nth_error top_p i = Some v
           /\ nth_error top_class i = Some k
           /\ nth_error row k = Some v
           /\ (forall j u, nth_error row j = Some u -> u <= v)
           /\ (forall j u, (j < k)%nat -> nth_error row j = Some u -> u < v).
Proof.
  intros log_ps top_p top_class Htop.
  assert (Hexp : topk1 (torch_exp log_ps) = Ok (map exp top_p, top_class)).
  { revert Htop. unfold topk1, torch_exp. rewrite rmap_topk1_row_exp.
    destruct (rmap topk1_row log_ps) as [tops|e]; cbn [rbind]; [|discriminate].
    intro H. inversion H. now rewrite !map_map. }
  split; [exact Hexp|]. split.
  { intro labels. unfold batch_accuracy, batch_equals. now rewrite Hexp, Htop. }
  revert Htop. unfold topk1.
  destruct (rmap topk1_row log_ps) as [tops|e] eqn:Hr; cbn [rbind]; [|discriminate].
  intro H. inversion H. subst top_p top_class. clear H Hexp.
  pose proof (rmap_length _ _ _ Hr) as Hlen.
  split; [|split].
  - now rewrite length_map.
  - now rewrite length_map.
  - intros i row Hrow.
    destruct (rmap_nth _ _ _ _ _ Hr Hrow) as ([v k] & Hn & Htop).
    exists v, k. rewrite !nth_error_map, Hn. cbn [option_map fst snd].
    split; [reflexivity|]. split; [reflexivity|].
    now apply topk1_row_first_maximal.
Qed.

Lemma top_class_is_first_largest_and_survives_exp_witness :
  topk1 (torch_exp [[0; 1; 1]; [2; 2; 0]]) = Ok (map exp [1; 2], [1%nat; 0%nat]).
Proof.
  refine (proj1 (top_class_is_first_largest_and_survives_exp
                   [[0; 1; 1]; [2; 2; 0]] [1; 2] [1%nat; 0%nat] _)).
  unfold topk1. cbn [rmap topk1_row argmax_from].
  destruct (Rlt_dec 0 1); [|lra].
  destruct (Rlt_dec 1 1); [lra|].
  destruct (Rlt_dec 2 2); [lra|].
  destruct (Rlt_dec 2 0); [lra|].
  reflexivity.
Defined.

(** ** Epochs *)

Section MoreLoops.

Context {Sample : Type}.
Variable forward : list R -> bool -> list Sample -> result (list (list R)).
Variable autograd : list R -> bool -> list Sample -> list nat -> nat -> R.
Context {OptState : Type}.
Variable opt_step : OptState -> list Param -> OptState * list Param.

Local Notation "'W'" := (world Sample OptState).

Lemma for_each_app {A B} (l1 l2 : list A) (body : B -> A -> M Sample OptState B) :
  forall (acc : B) (w : W),
    for_each (l1 ++ l2) body acc w
    = match for_each l1 body acc w with
      | (Ok a, w') => for_each l2 body a w'
      | (Raise e, w') => (Raise e, w')
      end.
Proof.
  induction l1 as [|x l1 IH]; intros acc w; cbn [app for_each].
  - reflexivity.
  - unfold bind. destruct (body acc x w) as [[b|e] w']; [apply IH|reflexivity].
Qed.

Lemma py_div_pos (x : R) (n : nat) (w : W) :
  n <> 0%nat -> py_div x n w = (Ok (x / INR n), w).
Proof. intro Hn. destruct n; [congruence|reflexivity]. Qed.

Lemma train_batch_failure (rl : R) (batch : list Sample * list nat) (w : W) (e : exn) :
  fst (train_batch forward autograd opt_step rl batch w) = Raise e ->
  params (snd (train_batch forward autograd opt_step rl batch w))
  = Optim.zero_grad (params w)
  /\ opt_state (snd (train_batch forward autograd opt_step rl batch w)) = opt_state w.
Proof.
  destruct batch as [images labels]. rewrite train_batch_run. cbv zeta.
  destruct (forward _ _ _) as [out|e1]; [|now split].
  destruct (Net.NLLLoss out labels) as [l|e1]; [|now split].
  destruct (grad_enabled w); [discriminate|now split].
Qed.

(** X14.  A batch that raises ends the training loop there and then.  The
    loop answers what the failing batch answers: the batches after it are
    never looked at, the parameter values and the optimizer's state are
    the ones the batches before it have left (their updates are not taken
    back), and the gradient buffers have been emptied by the [zero_grad]
    of the failing batch. *)
Theorem training_loop_stops_at_the_first_failure :
  forall (front rest : list (list Sample * list nat)) (bad : list Sample * list nat)
         (w w1 : W) (running_loss : R) (e : exn),
    training_loop forward autograd opt_step front w = (Ok running_loss, w1) ->
    fst (train_batch forward autograd opt_step running_loss bad w1) = Raise e ->
    let out := training_loop forward autograd opt_step (front ++ bad :: rest) w in
    out = train_batch forward autograd opt_step running_loss bad w1
    /\ fst out = Raise e
    /\ params (snd out) = Optim.zero_grad (params w1)
    /\ map data (params (snd out)) = map data (params w1)
    /\ opt_state (snd out) = opt_state w1.
Proof.
  intros front rest bad w w1 running_loss e Hfront Hbad. cbv zeta.
  assert (Hout : training_loop forward autograd opt_step (front ++ bad :: rest) w
                 = train_batch forward autograd opt_step running_loss bad w1).
  { unfold training_loop in *. rewrite for_each_app, Hfront.
    cbn [for_each]. unfold bind.
    destruct (train_batch forward autograd opt_step running_loss bad w1) as [[v|e1] w2];
      [discriminate|reflexivity]. }
  rewrite Hout. destruct (train_batch_failure _ _ _ _ Hbad) as [Hp Ho].
  split; [reflexivity|]. split; [exact Hbad|]. split; [exact Hp|].
  split; [|exact Ho]. rewrite Hp. apply data_zero_grad.
Qed.

(** X15.  An empty loader.  The cells divide the sums they have accumulated
    by the number of batches, so an epoch over no batch at all ends with
    Python's ZeroDivisionError.  Part 3's epoch raises it at once.  The
    dropout cell of Part 5 never completes an epoch when one of its
    loaders is empty: it first runs the training loop and the whole
    evaluation pass and raises at the bookkeeping.  With no training
    batch it raises at the first division, and nothing has been appended.
    With training batches and no test batch it raises at the second
    division: the mean training loss has been appended to
    [train_losses] by then and nothing to [test_losses], so the exception
    leaves the two lists out of step. *)
Theorem empty_loader_ends_the_epoch_with_a_division_by_zero :
  forall (trainloader testloader : list (list Sample * list nat)) (w : W),
    trainloader = [] \/ testloader = [] ->
    part3_epoch forward autograd opt_step [] w = (Raise ZeroDivisionError, w)
    /\ (exists e w',
          part5_epoch_17 forward autograd opt_step trainloader testloader w = (Raise e, w'))
    /\ (forall running_loss w1 r w2,
          training_loop forward autograd opt_step trainloader w = (Ok running_loss, w1) ->
          validation_pass_17 forward autograd testloader w1 = (Ok r, w2) ->
          exists new,
            part5_epoch_17 forward autograd opt_step trainloader testloader w
            = (Raise ZeroDivisionError, logged new w2)
            /\ appended false new = []
            /\ (trainloader = [] -> new = [])
            /\ (trainloader <> [] ->
                new = [EvAppend true (running_loss / INR (length trainloader))]
                /\ appended true new = [running_loss / INR (length trainloader)])).
Proof.
  intros trainloader testloader w Hempty.
  assert (Hbook : forall running_loss w1 r w2,
    training_loop forward autograd opt_step trainloader w = (Ok running_loss, w1) ->
    validation_pass_17 forward autograd testloader w1 = (Ok r, w2) ->
    exists new,
      part5_epoch_17 forward autograd opt_step trainloader testloader w
      = (Raise ZeroDivisionError, logged new w2)
      /\ appended false new = []
      /\ (trainloader = [] -> new = [])
      /\ (trainloader <> [] ->
          new = [EvAppend true (running_loss / INR (length trainloader))]
          /\ appended true new = [running_loss / INR (length trainloader)])).
  { intros running_loss w1 [tl a] w2 Htrain Hpass.
    unfold part5_epoch_17. unfold bind at 1. rewrite Htrain.
    unfold bind at 1. rewrite Hpass.
    destruct trainloader as [|b0 trainloader0] eqn:Htl.
    - exists []. rewrite logged_nil. split; [reflexivity|]. split; [reflexivity|].
      split; [reflexivity|congruence].
    - destruct Hempty as [Hempty|Hempty]; [discriminate|]. subst testloader.
      rewrite <- Htl.
      assert (Hn : length trainloader <> 0%nat) by (rewrite Htl; discriminate).
      unfold bind at 1. rewrite py_div_pos by exact Hn.
      exists [EvAppend true (running_loss / INR (length trainloader))].
      split; [reflexivity|]. split; [reflexivity|]. split; [congruence|].
      intros _. split; reflexivity. }
  split; [reflexivity|]. split; [|exact Hbook].
  destruct (training_loop forward autograd opt_step trainloader w) as [[rl|e] w1] eqn:Htrain.
  - destruct (validation_pass_17 forward autograd testloader w1) as [[r|e] w2] eqn:Hpass.
    + destruct (Hbook rl w1 r w2 eq_refl Hpass) as (new & Hrun & _).
      do 2 eexists. exact Hrun.
    + unfold part5_epoch_17. unfold bind at 1. rewrite Htrain.
      unfold bind at 1. rewrite Hpass. do 2 eexists. reflexivity.
  - unfold part5_epoch_17. unfold bind at 1. rewrite Htrain.
    do 2 eexists. reflexivity.
Qed.

Lemma validation_loop_17_values (loader : list (list Sample * list nat)) :
  forall (tl a : R) (w : W),
    Forall (fun b => snd b <> []) loader ->
    Forall (batch_evaluable forward (map data (params w)) (training w)) loader ->
    exists w',
      for_each loader (validation_batch_17 forward autograd) (tl, a) w
      = (Ok (tl + Rsum (map (batch_loss forward (map data (params w)) (training w)) loader),
             a + Rsum (map (batch_ratio forward (map data (params w)) (training w)) loader)),
         w').
Proof.
  induction loader as [|[images labels] loader IH]; intros tl a w Hne Hev.
  - cbn [for_each map]. unfold ret. exists w.
    replace (tl + Rsum []) with tl by (cbn; ring).
    replace (a + Rsum []) with a by (cbn; ring). reflexivity.
  - inversion Hne as [|? ? Hl Hne']; subst.
    inversion Hev as [|? ? Hb Hev']; subst.
    destruct Hb as (log_ps & l & Hf & Hlen & Hrows & Hloss). cbn [fst snd] in *.
    cbn [for_each]. unfold bind. rewrite validation_batch_17_run. cbv zeta.
    rewrite Hf, Hloss.
    destruct (torch_exp_rows log_ps) as [Hel Her].
    rewrite (batch_accuracy_hits (torch_exp log_ps) labels Hl)
      by (try apply Her; congruence).
    match goal with
    | |- context [for_each loader _ ?acc ?w1] =>
        destruct (IH (fst acc) (snd acc) w1 Hne' Hev') as (w' & Hrun)
    end.
    cbn [fst snd] in Hrun. rewrite Hrun. exists w'.
    cbn [map logged params training]. rewrite !Rsum_cons.
    unfold batch_loss at 2, batch_ratio at 2, batch_hits. cbn [fst snd].
    rewrite Hf, Hloss. f_equal. f_equal. f_equal; ring.
Qed.

(** X16.  The line the dropout cell prints after an epoch.  When the
    training loop has gone through and the model, as training has left
    it, accepts every test batch, the cell appends and prints three
    means: the sum of the loss values the training loop accumulated over
    the number of training batches; the sum of the losses of the test
    batches, computed in evaluation mode with the parameters training has
    left, over the number of test batches; and the mean of the accuracies
    of the test batches.  The parameters and the optimizer's state are the
    ones training has left, and the model is back in training mode. *)
Theorem dropout_epoch_reports_three_means :
  forall (trainloader testloader : list (list Sample * list nat)) (w w1 : W)
         (running_loss : R),
    trainloader <> [] ->
    testloader <> [] ->
    training_loop forward autograd opt_step trainloader w = (Ok running_loss, w1) ->
    Forall (fun b => snd b <> []) testloader ->
    Forall (batch_evaluable forward (map data (params w1)) false) testloader ->
    let d1 := map data (params w1) in
    let train_mean := running_loss / INR (length trainloader) in
    let test_mean := Rsum (map (batch_loss forward d1 false) testloader)
                     / INR (length testloader) in
    let accuracy := mean_of_batch_ratios forward d1 false testloader in
    exists w3 new,
      part5_epoch_17 forward autograd opt_step trainloader testloader w
      = (Ok (train_mean, test_mean, accuracy), w3)
      /\ params w3 = params w1
      /\ opt_state w3 = opt_state w1
      /\ training w3 = true
      /\ last (trace w3) EvTrain = EvPrint [train_mean; test_mean; accuracy]
      /\ trace w1 = trace w ++ new
      /\ length (accumulated new) = length trainloader
      /\ running_loss = Rsum (accumulated new).
Proof.
  intros trainloader testloader w w1 running_loss Htrain_ne Htest_ne Htrain Hne Hev.
  cbv zeta.
  destruct (validation_pass_17_run forward autograd testloader w1)
    as (middle & _ & _ & Hpass).
  cbv zeta in Hpass.
  destruct (validation_loop_17_values testloader 0 0
              (mkWorld (params w1) (opt_state w1) false false (trace w1 ++ [EvEval]))
              Hne Hev) as (w2 & Hrun).
  cbn [params training] in Hrun. rewrite Hrun in Hpass. cbn [fst] in Hpass.
  pose proof (training_loop_spec forward autograd opt_step trainloader w) as Hspec.
  rewrite Htrain in Hspec.
  destruct Hspec as (_ & _ & new & Htrace & _ & _ & Hok).
  cbn [fst snd] in Htrace, Hok. destruct Hok as (_ & Hcount & Hsum).
  unfold part5_epoch_17. unfold bind at 1. rewrite Htrain.
  unfold bind at 1. rewrite Hpass.
  assert (Hn1 : length trainloader <> 0%nat) by (destruct trainloader; [congruence|discriminate]).
  assert (Hn2 : length testloader <> 0%nat) by (destruct testloader; [congruence|discriminate]).
  unfold bind at 1. rewrite py_div_pos by exact Hn1. cbv beta iota.
  unfold bind at 1. unfold train_losses_append at 1. unfold emit at 1. cbv beta iota.
  unfold bind at 1. rewrite py_div_pos by exact Hn2. cbv beta iota.
  unfold bind at 1. unfold test_losses_append at 1. unfold emit at 1. cbv beta iota.
  unfold bind at 1. rewrite py_div_pos by exact Hn2. cbv beta iota.
  unfold bind at 1. unfold print, emit. cbv beta iota.
  cbn [params opt_state training grad_enabled trace].
  do 2 eexists. split.
  { unfold ret, mean_of_batch_ratios.
    replace (0 + Rsum (map (batch_loss forward (map data (params w1)) false) testloader))
      with (Rsum (map (batch_loss forward (map data (params w1)) false) testloader))
      by ring.
    replace (0 + Rsum (map (batch_ratio forward (map data (params w1)) false) testloader))
      with (Rsum (map (batch_ratio forward (map data (params w1)) false) testloader))
      by ring.
    reflexivity. }
  cbn [params opt_state training trace].
  split; [reflexivity|]. split; [reflexivity|]. split; [reflexivity|].
  split; [apply last_last|]. split; [exact Htrace|]. split; [exact Hcount|].
  rewrite Hsum. ring.
Qed.

End MoreLoops.

Section TinyRuns.

Lemma tiny_blank (d : list R) (t : bool) :
  Tiny.forward d t [Tiny.blank] = Raise SizeMismatch.
Proof.
  unfold Tiny.forward, Tiny.net.
  destruct d as [|a [|b [|c [|d0 [|x d]]]]]; reflexivity.
Qed.

Lemma tiny_pixel (a b c d v : R) (t : bool) :
  exists p q, Tiny.forward [a; b; c; d] t [Tiny.pixel v] = Ok [[p; q]].
Proof. do 2 eexists. reflexivity. Qed.

Lemma tiny_sgd_batch (lr v : R) (y : nat) :
  (y < 2)%nat ->
  exists running_loss w1 a b c d,
    training_loop Tiny.forward Tiny.autograd (Optim.SGD_step lr)
                  [([Tiny.pixel v], [y])] (mkWorld Tiny.params0 tt true true [])
    = (Ok running_loss, w1)
    /\ map data (params w1) = [a; b; c; d].
Proof.
  intro Hy. unfold training_loop. cbn [for_each]. unfold bind at 1.
  rewrite train_batch_run. cbv zeta.
  cbn [params opt_state training grad_enabled trace].
  destruct (tiny_pixel 0 0 1 0 v true) as (p & q & Hf).
  change (map data Tiny.params0) with [0; 0; 1; 0]. rewrite Hf.
  assert (Hl : exists l, Net.NLLLoss [[p; q]] [y] = Ok l).
  { destruct y as [|[|y]]; [eexists; reflexivity|eexists; reflexivity|lia]. }
  destruct Hl as [l ->].
  unfold ret. do 6 eexists. split; reflexivity.
Qed.

Lemma tiny_evaluable (a b c d v : R) (t : bool) (y : nat) :
  (y < 2)%nat ->
  batch_evaluable Tiny.forward [a; b; c; d] t ([Tiny.pixel v], [y]).
Proof.
  intro Hy. unfold batch_evaluable. cbn [fst snd].
  destruct (tiny_pixel a b c d v t) as (p & q & ->).
  assert (Hl : exists l, Net.NLLLoss [[p; q]] [y] = Ok l).
  { destruct y as [|[|y]]; [eexists; reflexivity|eexists; reflexivity|lia]. }
  destruct Hl as [l Hl]. exists [[p; q]], l.
  split; [reflexivity|]. split; [reflexivity|]. split; [|exact Hl].
  repeat constructor. discriminate.
Qed.

End TinyRuns.

(** A batch the one-pixel network trains on, then an image it refuses,
    then a batch that is never reached. *)
Lemma training_loop_stops_at_the_first_failure_witness :
  let w0 := mkWorld Tiny.params0 tt true true [] in
  let loader := [([Tiny.pixel 1], [0%nat])] ++ ([Tiny.blank], [0%nat])
                                            :: [([Tiny.pixel 2], [1%nat])] in
  exists running_loss w1,
    training_loop Tiny.forward Tiny.autograd (Optim.SGD_step Part3.lr)
                  [([Tiny.pixel 1], [0%nat])] w0 = (Ok running_loss, w1)
    /\ fst (training_loop Tiny.forward Tiny.autograd (Optim.SGD_step Part3.lr) loader w0)
       = Raise SizeMismatch
    /\ map data (params (snd (training_loop Tiny.forward Tiny.autograd
                                            (Optim.SGD_step Part3.lr) loader w0)))
       = map data (params w1).
Proof.
  cbv zeta.
  destruct (tiny_sgd_batch Part3.lr 1 0) as (running_loss & w1 & a & b & c & d & Hrun & Hd);
    [lia|].
  exists running_loss, w1. split; [exact Hrun|].
  destruct (training_loop_stops_at_the_first_failure
              Tiny.forward Tiny.autograd (Optim.SGD_step Part3.lr)
              [([Tiny.pixel 1], [0%nat])] [([Tiny.pixel 2], [1%nat])]
              ([Tiny.blank], [0%nat])
              (mkWorld Tiny.params0 tt true true []) w1 running_loss SizeMismatch Hrun)
    as (_ & Hraise & _ & Hdata & _).
  - rewrite train_batch_run. cbv zeta. now rewrite tiny_blank.
  - split; [exact Hraise|exact Hdata].
Defined.

(** The dropout cell with a training batch and no test batch. *)
Lemma empty_loader_ends_the_epoch_with_a_division_by_zero_witness :
  let w0 := mkWorld Tiny.params0 tt true true [] in
  exists e w',
    part5_epoch_17 Tiny.forward Tiny.autograd (Optim.SGD_step Part3.lr)
                   [([Tiny.pixel 1], [0%nat])] [] w0 = (Raise e, w').
Proof.
  cbv zeta.
  refine (proj1 (proj2 (empty_loader_ends_the_epoch_with_a_division_by_zero
                          Tiny.forward Tiny.autograd (Optim.SGD_step Part3.lr)
                          [([Tiny.pixel 1], [0%nat])] []
                          (mkWorld Tiny.params0 tt true true []) _))).
  right. reflexivity.
Defined.

(** One epoch of the dropout cell on the one-pixel network. *)
Lemma dropout_epoch_reports_three_means_witness :
  let w0 := mkWorld Tiny.params0 tt true true [] in
  exists report w3,
    part5_epoch_17 Tiny.forward Tiny.autograd (Optim.SGD_step Part3.lr)
                   [([Tiny.pixel 1], [0%nat])] [([Tiny.pixel 2], [1%nat])] w0
    = (Ok report, w3)
    /\ training w3 = true.
Proof.
  cbv zeta.
  destruct (tiny_sgd_batch Part3.lr 1 0) as (running_loss & w1 & a & b & c & d & Hrun & Hd);
    [lia|].
  destruct (dropout_epoch_reports_three_means
              Tiny.forward Tiny.autograd (Optim.SGD_step Part3.lr)
              [([Tiny.pixel 1], [0%nat])] [([Tiny.pixel 2], [1%nat])]
              (mkWorld Tiny.params0 tt true true []) w1 running_loss)
    as (w3 & new & Hepoch & _ & _ & Hmode & _).
  - discriminate.
  - discriminate.
  - exact Hrun.
  - repeat constructor. discriminate.
  - rewrite Hd. constructor; [|constructor]. apply tiny_evaluable. lia.
  - eexists. exists w3. split; [exact Hepoch|exact Hmode].
Defined.

Section EpochLists.

Context {Sample : Type}.
Variable forward : list R -> bool -> list Sample -> result (list (list R)).
Variable autograd : list R -> bool -> list Sample -> list nat -> nat -> R.
Context {OptState : Type}.
Variable opt_step : OptState -> list Param -> OptState * list Param.

Local Notation "'W'" := (world Sample OptState).




End EpochLists.

(** ** Inference *)

Section InferenceCell.

Context {OptState : Type}.

Local Notation "'W'" := (world Part5.Sample OptState).

Lemma model_dropout_eval_single (d : list R) (img : Image) (k : Part5.draws) :
  Part5.model_dropout d false [(img, k)] = Part5.forward (Part5.of_entries d) [img].
Proof. unfold Part5.model_dropout. now rewrite forward_dropout_eval. Qed.

Lemma forward_single (m : Part5.Classifier) (img : Image) :
  match Part5.forward m [img] with
  | Ok log_ps =>
      exists row, torch_exp log_ps = [row]
                  /\ (row = [] \/ (Rsum row = 1 /\ Forall (fun p => 0 < p <= 1) row))
  | Raise e => e = SizeMismatch
  end.
Proof.
  unfold Part5.forward.
  assert (Hcall : forall l x,
             match Net.Linear_call l x with
             | Ok out => length out = length x
             | Raise e => e = SizeMismatch
             end).
  { intros l x. unfold Net.Linear_call.
    induction x as [|r x IH]; cbn [rmap]; [reflexivity|].
    unfold Net.Linear_row at 1.
    destruct (Nat.eqb (length r) (Net.in_features l)); cbn [rbind]; [|reflexivity].
    destruct (rmap (Net.Linear_row l) x) as [out|e]; cbn [rbind length];
      [now rewrite IH|exact IH]. }
  pose proof (Hcall (Part5.fc1 m) (view_flat [img])) as H1.
  destruct (Net.Linear_call (Part5.fc1 m) (view_flat [img])) as [h1|e]; [|exact H1].
  cbn [rbind].
  pose proof (Hcall (Part5.fc2 m) (relu h1)) as H2.
  destruct (Net.Linear_call (Part5.fc2 m) (relu h1)) as [h2|e]; [|exact H2].
  cbn [rbind].
  pose proof (Hcall (Part5.fc3 m) (relu h2)) as H3.
  destruct (Net.Linear_call (Part5.fc3 m) (relu h2)) as [h3|e]; [|exact H3].
  cbn [rbind].
  pose proof (Hcall (Part5.fc4 m) (relu h3)) as H4.
  destruct (Net.Linear_call (Part5.fc4 m) (relu h3)) as [h4|e]; [|exact H4].
  cbn [rbind].
  unfold relu in *. rewrite length_map in H2, H3, H4. cbn [view_flat map length] in H1.
  destruct h4 as [|row [|row' h4]]; try (cbn in H4; lia).
  cbn [log_softmax torch_exp map]. eexists. split; [reflexivity|].
  destruct row as [|v row]; [left; reflexivity|right]. split.
  - apply log_softmax_row_normalised. discriminate.
  - apply log_softmax_row_probabilities.
Qed.

End InferenceCell.

(** X18.  The inference cell that closes Part 5.  It puts the model in
    evaluation mode and never puts it back: whatever happens, the model
    is in evaluation mode afterwards, so training resumed after this cell
    runs without dropout until [model.train()] is called.  Parameters,
    gradient buffers and the optimizer's state are untouched, no gradient
    is tracked, and the tracking switch is restored.  An image that does
    not hold 784 pixels is refused by the view, before the model is
    called.  Otherwise the cell answers what the classifier without
    dropout answers for the image, whatever the dropout draws: one row of
    probabilities that add up to one, ten of them when the parameters are
    those of a classifier as the notebook creates it. *)
Theorem inference_cell_leaves_the_model_in_evaluation_mode :
  forall (OptState : Type) (s : Part5.Sample) (w : world Part5.Sample OptState),
    let out := part5_inference s w in
    let m := Part5.of_entries (map data (params w)) in
    training (snd out) = false
    /\ params (snd out) = params w
    /\ opt_state (snd out) = opt_state w
    /\ grad_enabled (snd out) = grad_enabled w
    /\ (exists new, trace (snd out) = trace w ++ EvEval :: new
                    /\ Forall (fun ev => call_of ev <> CTrain /\ no_gradient_work ev) new
                    /\ (length (concat (fst s)) <> 784%nat -> new = []))
    /\ fst out = rbind (view_1_784 (fst s)) (fun img =>
                 rbind (Part5.forward m [img]) (fun log_ps => Ok (torch_exp log_ps)))
    /\ (forall k : Part5.draws, fst (part5_inference (fst s, k) w) = fst out)
    /\ match fst out with
       | Ok ps =>
           length (concat (fst s)) = 784%nat
           /\ exists row,
                ps = [row]
                /\ (row = [] \/ (Rsum row = 1 /\ Forall (fun p => 0 < p <= 1) row))
       | Raise e => e = SizeMismatch
       end
    /\ (forall m' : Part5.Classifier,
          shaped 784 256 (Part5.fc1 m') -> shaped 256 128 (Part5.fc2 m') ->
          shaped 128 64 (Part5.fc3 m') -> shaped 64 10 (Part5.fc4 m') ->
          map data (params w) = Part5.entries m' ->
          length (concat (fst s)) = 784%nat ->
          exists row, fst out = Ok [row] /\ length row = 10%nat /\ Rsum row = 1).
Proof.
  intros OptState [img k] w. cbv zeta. cbn [fst snd].
  assert (Hrun : forall k0,
    part5_inference (img, k0) w
    = match view_1_784 img with
      | Raise e =>
          (Raise e, mkWorld (params w) (opt_state w) false (grad_enabled w)
                            (trace w ++ [EvEval]))
      | Ok img' =>
          match Part5.forward (Part5.of_entries (map data (params w))) [img'] with
          | Raise e =>
              (Raise e, mkWorld (params w) (opt_state w) false (grad_enabled w)
                                (trace w ++ [EvEval; EvForward false false [(img', k0)]]))
          | Ok log_ps =>
              (Ok (torch_exp log_ps),
               mkWorld (params w) (opt_state w) false (grad_enabled w)
                       (trace w ++ [EvEval; EvForward false false [(img', k0)];
                                    EvPrint (concat (torch_exp log_ps))]))
          end
      end).
  { intro k0. unfold part5_inference, model_eval, no_grad, model_call, print.
    unfold bind, emit, lift, ret, set_training, set_grad_enabled.
    cbn [fst snd params opt_state training grad_enabled trace].
    destruct (view_1_784 img) as [img'|e]; [|reflexivity].
    cbn [params opt_state training grad_enabled trace].
    rewrite model_dropout_eval_single.
    destruct (Part5.forward _ [img']) as [log_ps|e];
      cbn [params opt_state training grad_enabled trace out_value];
      now rewrite <- !app_assoc. }
  assert (Hview : forall img', view_1_784 img = Ok img' ->
                               length (concat img) = 784%nat).
  { unfold view_1_784. intros img'.
    destruct (Nat.eqb_spec (length (concat img)) 784); [auto|discriminate]. }
  assert (Hrefused : length (concat img) <> 784%nat -> view_1_784 img = Raise SizeMismatch).
  { unfold view_1_784.
    destruct (Nat.eqb_spec (length (concat img)) 784); [contradiction|reflexivity]. }
  rewrite (Hrun k).
  pose proof (fun img' => forward_single (Part5.of_entries (map data (params w))) img')
    as Hsingle.
  destruct (view_1_784 img) as [img'|e] eqn:Hv.
  - specialize (Hsingle img'). cbn [rbind].
    destruct (Part5.forward (Part5.of_entries (map data (params w))) [img'])
      as [log_ps|e] eqn:Hf; cbn [fst snd params opt_state training grad_enabled trace rbind].
    + repeat (split; [reflexivity|]).
      split.
      { eexists. split; [reflexivity|]. split.
        - repeat constructor; discriminate.
        - intro H. now rewrite (Hview img' eq_refl) in H. }
      split; [reflexivity|]. split.
      { intro k0. rewrite (Hrun k0). reflexivity. }
      split.
      { split; [now apply (Hview img')|exact Hsingle]. }
      intros m' H1 H2 H3 H4 Hd Himg.
      rewrite Hd, of_entries_entries in Hf by assumption.
      assert (Himg' : Forall (fun i : Image => length (concat i) = 784%nat) [img']).
      { constructor; [|constructor]. unfold view_1_784 in Hv. rewrite Himg in Hv.
        cbn in Hv. inversion Hv. cbn [concat]. now rewrite app_nil_r. }
      destruct (forward_dropout_shape m' false (fun _ _ => true) (fun _ _ => true)
                  (fun _ _ => true) [img'] H1 H2 H3 H4 Himg') as (logits & Hr & Hlen & Hw).
      rewrite forward_dropout_eval, Hf in Hr. inversion Hr. subst log_ps.
      destruct logits as [|row [|row' logits]]; try discriminate.
      inversion Hw as [|? ? Hrow _]; subst.
      exists (map exp (log_softmax_row row)). split; [reflexivity|]. split.
      * unfold log_softmax_row. now rewrite !length_map.
      * apply log_softmax_row_normalised. destruct row; [discriminate|discriminate].
    + repeat (split; [reflexivity|]).
      split.
      { eexists. split; [reflexivity|]. split.
        - repeat constructor; discriminate.
        - intro H. now rewrite (Hview img' eq_refl) in H. }
      split; [reflexivity|]. split.
      { intro k0. rewrite (Hrun k0). reflexivity. }
      split; [exact Hsingle|].
      intros m' H1 H2 H3 H4 Hd Himg. exfalso.
      rewrite Hd, of_entries_entries in Hf by assumption.
      assert (Himg' : Forall (fun i : Image => length (concat i) = 784%nat) [img']).
      { constructor; [|constructor]. unfold view_1_784 in Hv. rewrite Himg in Hv.
        cbn in Hv. inversion Hv. cbn [concat]. now rewrite app_nil_r. }
      destruct (forward_dropout_shape m' false (fun _ _ => true) (fun _ _ => true)
                  (fun _ _ => true) [img'] H1 H2 H3 H4 Himg') as (logits & Hr & _).
      rewrite forward_dropout_eval, Hf in Hr. discriminate.
  - cbn [fst snd params opt_state training grad_enabled trace rbind].
    assert (He : e = SizeMismatch).
    { unfold view_1_784 in Hv. destruct (Nat.eqb _ _); [discriminate|congruence]. }
    repeat (split; [reflexivity|]).
    split.
    { exists []. split; [reflexivity|]. split; [constructor|reflexivity]. }
    split; [reflexivity|]. split.
    { intro k0. rewrite (Hrun k0). reflexivity. }
    split; [exact He|].
    intros m' _ _ _ _ _ Himg. unfold view_1_784 in Hv. rewrite Himg in Hv. discriminate.
Qed.

Lemma inference_cell_leaves_the_model_in_evaluation_mode_witness :
  let w0 := mkWorld Part5.class0_params Optim.Adam_init true true [] in
  training (snd (part5_inference (Part5.grey, Part5.all_kept) w0)) = false
  /\ exists row,
       fst (part5_inference (Part5.grey, Part5.all_kept) w0) = Ok [row]
       /\ length row = 10%nat /\ Rsum row = 1.
Proof.
  cbv zeta.
  destruct (inference_cell_leaves_the_model_in_evaluation_mode
              (nat -> Optim.adam_entry) (Part5.grey, Part5.all_kept)
              (mkWorld Part5.class0_params Optim.Adam_init true true []))
    as (Hmode & _ & _ & _ & _ & _ & _ & _ & Hten).
  split; [exact Hmode|].
  apply (Hten Part5.class0).
  - apply shaped_zero_weights, repeat_length.
  - apply shaped_zero_weights, repeat_length.
  - apply shaped_zero_weights, repeat_length.
  - apply shaped_zero_weights. reflexivity.
  - unfold Part5.class0_params. cbn [params]. rewrite map_map. cbn [data]. apply map_id.
  - exact grey_shape.
Defined.

(** ** Evaluation and the dropout draws *)

Section TwoModels.

Context {S1 S2 OptState1 OptState2 : Type}.
Variable forward1 : list R -> bool -> list S1 -> result (list (list R)).
Variable forward2 : list R -> bool -> list S2 -> result (list (list R)).
Variable autograd1 : list R -> bool -> list S1 -> list nat -> nat -> R.
Variable autograd2 : list R -> bool -> list S2 -> list nat -> nat -> R.
Variable f : S1 -> S2.
Hypothesis same_answers :
  forall d images, forward1 d false images = forward2 d false (map f images).

Lemma validation_loops_agree (loader : list (list S1 * list nat)) :
  forall (acc : R * R) (w1 : world S1 OptState1) (w2 : world S2 OptState2),
    params w1 = params w2 -> training w1 = false -> training w2 = false ->
    fst (for_each loader (validation_batch_17 forward1 autograd1) acc w1)
    = fst (for_each (map (fun b => (map f (fst b), snd b)) loader)
                    (validation_batch_17 forward2 autograd2) acc w2).
Proof.
  induction loader as [|[images labels] loader IH]; intros [tl a] w1 w2 Hp Ht1 Ht2;
    cbn [map for_each fst snd]; [reflexivity|].
  unfold bind. rewrite !validation_batch_17_run. cbv zeta.
  rewrite Ht1, Ht2, <- Hp, same_answers.
  destruct (forward2 _ false (map f images)) as [out|e]; [|reflexivity].
  destruct (Net.NLLLoss out labels) as [l|e]; [|reflexivity].
  destruct (batch_accuracy (torch_exp out) labels) as [b|e]; [|reflexivity].
  apply IH; cbn [logged params training]; congruence.
Qed.

Lemma validation_passes_agree (loader : list (list S1 * list nat))
    (w1 : world S1 OptState1) (w2 : world S2 OptState2) :
  params w1 = params w2 ->
  fst (validation_pass_17 forward1 autograd1 loader w1)
  = fst (validation_pass_17 forward2 autograd2
           (map (fun b => (map f (fst b), snd b)) loader) w2).
Proof.
  intro Hp.
  destruct (validation_pass_17_run forward1 autograd1 loader w1) as (m1 & _ & _ & ->).
  destruct (validation_pass_17_run forward2 autograd2
              (map (fun b => (map f (fst b), snd b)) loader) w2) as (m2 & _ & _ & ->).
  cbv zeta.
  rewrite (validation_loops_agree loader (0, 0) _
             (mkWorld (params w2) (opt_state w2) false false (trace w2 ++ [EvEval])))
    by (cbn [params training]; congruence || reflexivity).
  destruct (fst (for_each _ _ _ _)); reflexivity.
Qed.

End TwoModels.

Lemma py_div_fst {S1 S2 OptState1 OptState2 : Type} (x : R) (n : nat)
    (w1 : world S1 OptState1) (w2 : world S2 OptState2) :
  fst (py_div x n w1) = fst (py_div x n w2).
Proof. destruct n; reflexivity. Qed.

(** X19.  What [model.eval()] buys.  The evaluation pass of the dropout
    cell answers the test loss and the accuracy that the classifier
    without dropout gives on the same images with the same parameters;
    so they do not depend on the dropout draws, and neither does the
    accuracy the cell reports. *)
Theorem evaluation_does_not_depend_on_dropout_draws :
  forall (OptState : Type)
         (autograd : list R -> bool -> list Part5.Sample -> list nat -> nat -> R)
         (autograd' : list R -> bool -> list Image -> list nat -> nat -> R)
         (testloader : list (list Part5.Sample * list nat))
         (w : world Part5.Sample OptState),
    let plain := mkWorld (params w) (opt_state w) (training w) (grad_enabled w) [] in
    fst (validation_pass_17 Part5.model_dropout autograd testloader w)
    = fst (validation_pass_17 Part5.model autograd' (without_draws testloader) plain)
    /\ fst (reported_accuracy_17 Part5.model_dropout autograd testloader w)
       = fst (reported_accuracy_17 Part5.model autograd' (without_draws testloader) plain)
    /\ forall testloader',
         without_draws testloader' = without_draws testloader ->
         fst (validation_pass_17 Part5.model_dropout autograd testloader' w)
         = fst (validation_pass_17 Part5.model_dropout autograd testloader w)
         /\ fst (reported_accuracy_17 Part5.model_dropout autograd testloader' w)
            = fst (reported_accuracy_17 Part5.model_dropout autograd testloader w).
Proof.
  intros OptState autograd autograd' testloader w. cbv zeta.
  set (plain := mkWorld (params w) (opt_state w) (training w) (grad_enabled w) []).
  assert (Hsame : forall d (images : list Part5.Sample),
             Part5.model_dropout d false images = Part5.model d false (map fst images)).
  { intros d images. unfold Part5.model_dropout, Part5.model.
    apply forward_dropout_eval. }
  assert (Hpass : forall loader,
    fst (validation_pass_17 Part5.model_dropout autograd loader w)
    = fst (validation_pass_17 Part5.model autograd' (without_draws loader) plain)).
  { intro loader.
    apply (validation_passes_agree Part5.model_dropout Part5.model autograd autograd'
             fst Hsame loader w plain). reflexivity. }
  assert (Hrep : forall loader,
    fst (reported_accuracy_17 Part5.model_dropout autograd loader w)
    = fst (reported_accuracy_17 Part5.model autograd' (without_draws loader) plain)).
  { intro loader. unfold reported_accuracy_17, bind.
    pose proof (Hpass loader) as H.
    destruct (validation_pass_17 Part5.model_dropout autograd loader w) as [[r|e] w1];
      destruct (validation_pass_17 Part5.model autograd' (without_draws loader) plain)
        as [[r'|e'] w1']; cbn [fst] in H; try discriminate.
    - inversion H. subst r'. unfold without_draws. rewrite length_map.
      apply py_div_fst.
    - cbn [fst]. inversion H. reflexivity. }
  split; [apply Hpass|]. split; [apply Hrep|].
  intros testloader' Heq. split.
  - now rewrite (Hpass testloader'), Heq, <- (Hpass testloader).
  - now rewrite (Hrep testloader'), Heq, <- (Hrep testloader).
Qed.
